(** * LsiP: the places analytics pipeline, embedded and verified

    A shallow embedding of the services of the pipeline
    ([app/services/classifier.py], [enrichment.py], [heatmap.py],
    [places_client.py], [scoring.py]) and of the CSV export of
    [app/api/routes.py], followed by the properties established about them.

    Modelling conventions.
    - Python [str] values are [string]s of 8-bit characters; [lower],
      whitespace and digit classes follow Python on the ASCII range.
    - Python [float] values are exact rationals ([Q]); [round], [int],
      [math.ceil] and the [.0f] format are the exact functions on [Q].  The
      only transcendental function of the code, [math.log10], lives in the
      module [Scoring], which works over the real numbers.
    - [None] is [None]; Python truthiness is written out case by case.
    - Database tables are lists of rows; the session keeps the pending
      state apart from the committed one. *)

From Stdlib Require Import ZArith QArith Qround Qminmax Qabs.
From Stdlib Require Import List String Ascii Bool Arith Lia Lqa.
From Stdlib Require Import Reals Lra.
From Stdlib Require Import Sorted Qreals.
From Stdlib Require DecimalString.
Import ListNotations.

Open Scope string_scope.

(** ** Strings as Python uses them *)

Module Str.

Definition in_range (lo hi : nat) (c : ascii) : bool :=
  let n := nat_of_ascii c in (lo <=? n)%nat && (n <=? hi)%nat.

Definition is_upper : ascii -> bool := in_range 65 90.
Definition is_lower : ascii -> bool := in_range 97 122.
Definition is_digit : ascii -> bool := in_range 48 57.
Definition is_alpha (c : ascii) : bool := is_upper c || is_lower c.

(** [str.isspace] on the ASCII range: TAB..CR, FS..US and the blank. *)
Definition is_space (c : ascii) : bool :=
  in_range 9 13 c || in_range 28 32 c.

Definition lower_ascii (c : ascii) : ascii :=
  if is_upper c then ascii_of_nat (nat_of_ascii c + 32) else c.

(** [s.lower()] *)
Fixpoint lower (s : string) : string :=
  match s with
  | EmptyString => EmptyString
  | String c s' => String (lower_ascii c) (lower s')
  end.

(** [sub in s] *)
Fixpoint contains (sub s : string) : bool :=
  prefix sub s ||
  match s with
  | EmptyString => false
  | String _ s' => contains sub s'
  end.

(** [s.endswith(suf)] *)
Definition endswith (s suf : string) : bool :=
  let n := String.length s in
  let m := String.length suf in
  (m <=? n)%nat && String.eqb (substring (n - m) m s) suf.

(** [s.split()] : maximal runs of non-blank characters. *)
Fixpoint split_from (s : string) (cur : option string) : list string :=
  match s with
  | EmptyString => match cur with Some w => [w] | None => [] end
  | String c s' =>
      if is_space c then
        match cur with
        | Some w => w :: split_from s' None
        | None => split_from s' None
        end
      else
        let w := match cur with Some w => w | None => EmptyString end in
        split_from s' (Some (w ++ String c EmptyString))
  end.

Definition split (s : string) : list string := split_from s None.

(** [s.split(sep)[1] if sep in s else ""] for a one-character [sep]:
    what lies between the first and the second separator. *)
Fixpoint upto (sep : ascii) (s : string) : string :=
  match s with
  | EmptyString => EmptyString
  | String c s' => if Ascii.eqb c sep then EmptyString else String c (upto sep s')
  end.

Fixpoint split_second (sep : ascii) (s : string) : string :=
  match s with
  | EmptyString => EmptyString
  | String c s' => if Ascii.eqb c sep then upto sep s' else split_second sep s'
  end.

(** [s[:n]] *)
Definition take (n : nat) (s : string) : string := substring 0 n s.

(** Every character of [s] is in the class [p]. *)
Fixpoint forall_chars (p : ascii -> bool) (s : string) : bool :=
  match s with
  | EmptyString => true
  | String c s' => p c && forall_chars p s'
  end.

(** Any character but the at sign. *)
Definition not_at (c : ascii) : bool := negb (Ascii.eqb c "@").

(** Truthiness of an optional string: [None] and [""] are falsy. *)
Definition truthy (o : option string) : bool :=
  match o with
  | Some EmptyString | None => false
  | Some _ => true
  end.

(** [o or ""] *)
Definition or_empty (o : option string) : string :=
  match o with Some s => s | None => EmptyString end.

End Str.

(** ** The fragment of Python's [re] the pipeline uses

    A backtracking matcher with ordered alternation and greedy
    repetition, as [re] has them.  The matcher is written in
    continuation-passing style: [run r s k] matches [r] at the start of [s]
    and hands the unconsumed rest to [k]; a failing continuation makes the
    matcher back up.  All patterns of the code are compiled with
    [re.IGNORECASE], so a literal matches whatever the case. *)

Module Re.

Inductive re : Type :=
| Lit (l : string)
| Cls (p : ascii -> bool)
| Seq (a b : re)
| Alt (a b : re)
| Opt (a : re)
| Rep (min : nat) (p : ascii -> bool).

Fixpoint strip_ci (l s : string) : option string :=
  match l, s with
  | EmptyString, _ => Some s
  | String a l', String b s' =>
      if Ascii.eqb (Str.lower_ascii a) (Str.lower_ascii b)
      then strip_ci l' s' else None
  | String _ _, EmptyString => None
  end.

(** [p{min,}], greedy: take one more character first, give it back if
    the rest of the pattern fails. *)
Fixpoint rep (p : ascii -> bool) (min : nat) (s : string)
         (k : string -> option string) : option string :=
  match s with
  | EmptyString => if (min =? 0)%nat then k s else None
  | String c s' =>
      if p c then
        match rep p (Nat.pred min) s' k with
        | Some r => Some r
        | None => if (min =? 0)%nat then k s else None
        end
      else if (min =? 0)%nat then k s else None
  end.

Fixpoint run (r : re) (s : string) (k : string -> option string)
  : option string :=
  match r with
  | Lit l => match strip_ci l s with Some s' => k s' | None => None end
  | Cls p =>
      match s with
      | String c s' => if p c then k s' else None
      | EmptyString => None
      end
  | Seq a b => run a s (fun s' => run b s' k)
  | Alt a b =>
      match run a s k with
      | Some x => Some x
      | None => run b s k
      end
  | Opt a =>
      match run a s k with
      | Some x => Some x
      | None => k s
      end
  | Rep min p => rep p min s k
  end.

(** [pattern.match(s)]: the rest after the match, if any. *)
Definition match_at (r : re) (s : string) : option string := run r s Some.

(** [pattern.search(s)] as a truth value. *)
Fixpoint search (r : re) (s : string) : bool :=
  match match_at r s with
  | Some _ => true
  | None =>
      match s with
      | EmptyString => false
      | String _ s' => search r s'
      end
  end.

(** [pattern.findall(s)] for a pattern without groups: the leftmost
    matches, scanned left to right without overlap.  [skip] counts the
    characters still covered by the last match. *)
Fixpoint findall_from (r : re) (s : string) (skip : nat) : list string :=
  match skip with
  | S n =>
      match s with
      | String _ s' => findall_from r s' n
      | EmptyString => []
      end
  | O =>
      match match_at r s with
      | Some rest =>
          let len := (String.length s - String.length rest)%nat in
          Str.take len s ::
            match s with
            | String _ s' => findall_from r s' (len - 1)
            | EmptyString => []
            end
      | None =>
          match s with
          | String _ s' => findall_from r s' 0
          | EmptyString => []
          end
      end
  end.

Definition findall (r : re) (s : string) : list string := findall_from r s 0.

End Re.

(** ** Numbers as Python uses them *)

Module Num.

Open Scope Q_scope.

(** Round to the nearest integer, ties to the even one. *)
Definition round_half_even (x : Q) : Z :=
  let f := Qfloor x in
  match Qcompare (x - inject_Z f) (1 # 2) with
  | Lt => f
  | Gt => (f + 1)%Z
  | Eq => if Z.even f then f else (f + 1)%Z
  end.

(** [round(x, ndigits)] *)
Definition round (x : Q) (ndigits : nat) : Q :=
  let scale := (10 ^ Z.of_nat ndigits)%Z in
  inject_Z (round_half_even (x * inject_Z scale)) / inject_Z scale.

(** [int(x)]: truncation towards zero. *)
Definition int (x : Q) : Z :=
  if Qle_bool 0 x then Qfloor x else Qceiling x.

(** [math.ceil(x)] *)
Definition ceil (x : Q) : Z := Qceiling x.

(** [max(a, b)] and [min(a, b)] of two floats. *)
Definition max (a b : Q) : Q := if Qlt_le_dec a b then b else a.
Definition min (a b : Q) : Q := if Qlt_le_dec b a then b else a.

(** [a >= b] and [a > b] *)
Definition geb (a b : Q) : bool := Qle_bool b a.
Definition gtb (a b : Q) : bool := negb (Qle_bool a b).

(** Truthiness of an optional number: [None] and zero are falsy. *)
Definition truthyQ (o : option Q) : bool :=
  match o with
  | Some x => negb (Qeq_bool x 0)
  | None => false
  end.

Definition truthyZ (o : option Z) : bool :=
  match o with
  | Some n => negb (n =? 0)%Z
  | None => false
  end.

(** [o or 0] *)
Definition or_zero (o : option Z) : Z :=
  match o with Some n => n | None => 0%Z end.

(** [range(n)] *)
Definition range (n : Z) : list Z := map Z.of_nat (seq 0 (Z.to_nat n)).

(** [o is not None] *)
Definition is_some {A : Type} (o : option A) : bool :=
  match o with Some _ => true | None => false end.

End Num.


(** ** The data model ([app/db/models.py]) *)

Module Models.

(** The JSON value stored in [Place.opening_hours]. *)
Record OpeningHours : Type := mkOpeningHours {
  open_now : option bool;
  weekday_text : list string
}.

(** A row of [place_emails]. *)
Record PlaceEmail : Type := mkPlaceEmail {
  email_place_id : Z;
  email : string;
  source : option string
}.

(** A row of [place_enrichments]. *)
Record PlaceEnrichment : Type := mkPlaceEnrichment {
  enrichment_place_id : Z;
  homepage_status_code : option Z;
  homepage_title : option string;
  contact_page_url : option string;
  robots_txt_allows : option bool;
  enrichment_error : option string
}.

(** A row of [places]; [row_id] is the column [id].  Timestamps are
    seconds on some clock. *)
Record Place : Type := mkPlace {
  row_id : Z;
  place_id : string;
  name : option string;
  formatted_address : option string;
  latitude : option Q;
  longitude : option Q;
  rating : option Q;
  user_ratings_total : option Z;
  formatted_phone_number : option string;
  website : option string;
  opening_hours : option OpeningHours;
  address_components : option (list string);
  types : option (list string);
  business_status : option string;
  price_level : option Z;
  classification : option string;
  classification_confidence : option Q;
  location_score : option Q;
  competitor_density : option Q;
  search_query : option string;
  search_location : option string;
  created_at : option Z;
  updated_at : option Z;
  enriched_at : option Z;
  emails : list PlaceEmail
}.

(** A place as [_make_place] of the unit tests builds it. *)
Definition test_place (n : option string) (reviews : option Z)
           (site : option string) (ty : list string) : Place :=
  {| row_id := 1; place_id := "p"; name := n;
     formatted_address := Some "123 Test St";
     latitude := None; longitude := None; rating := None;
     user_ratings_total := reviews; formatted_phone_number := None;
     website := site; opening_hours := None; address_components := None;
     types := Some ty; business_status := None; price_level := None;
     classification := None; classification_confidence := None;
     location_score := None; competitor_density := None;
     search_query := None; search_location := None;
     created_at := None; updated_at := None; enriched_at := None;
     emails := [] |}.

End Models.

(** ** Stage 3: the classifier ([app/services/classifier.py]) *)

Module Classifier.
Import Models.
Open Scope Q_scope.

Definition KNOWN_BRANDS : list string :=
  [ "mcdonald"; "starbucks"; "subway"; "burger king"; "kfc"; "pizza hut";
    "domino"; "dunkin"; "tim hortons"; "wendy"; "taco bell"; "chick-fil-a";
    "papa john"; "popeye"; "five guys"; "shake shack"; "chipotle";
    "walmart"; "target"; "costco"; "ikea"; "h&m"; "zara"; "uniqlo";
    "nike"; "adidas"; "apple"; "samsung"; "microsoft"; "google";
    "amazon"; "carrefour"; "lulu"; "spinneys"; "choithrams"; "al maya";
    "hardee"; "baskin robbins"; "cold stone"; "costa coffee"; "caribou";
    "nando"; "applebee"; "chili"; "olive garden"; "outback";
    "marriott"; "hilton"; "hyatt"; "sheraton"; "radisson"; "ibis";
    "holiday inn"; "best western"; "four seasons"; "ritz carlton";
    "7-eleven"; "circle k"; "shell"; "bp"; "total"; "adnoc"; "enoc" ].

(** [(franchise|chain|branch|outlet|store\s*#?\d|unit\s*\d|location\s*\d)] *)
Definition CHAIN_PATTERNS : Re.re :=
  let spaces := Re.Rep 0 Str.is_space in
  let digit := Re.Cls Str.is_digit in
  Re.Alt (Re.Lit "franchise")
 (Re.Alt (Re.Lit "chain")
 (Re.Alt (Re.Lit "branch")
 (Re.Alt (Re.Lit "outlet")
 (Re.Alt (Re.Seq (Re.Lit "store")
           (Re.Seq spaces (Re.Seq (Re.Opt (Re.Lit "#")) digit)))
 (Re.Alt (Re.Seq (Re.Lit "unit") (Re.Seq spaces digit))
         (Re.Seq (Re.Lit "location") (Re.Seq spaces digit))))))).

Definition BRAND_DOMAIN_INDICATORS : list string :=
  [ ".com"; ".co"; ".global"; ".international"; ".inc" ].

Definition country_tlds : list string := [ ".ae"; ".uk"; ".in"; ".ph"; ".pk" ].

Definition brand_types : list string :=
  [ "shopping_mall"; "department_store"; "supermarket"; "gas_station" ].

Definition local_types : list string :=
  [ "cafe"; "bakery"; "hair_care"; "laundry"; "florist" ].

Definition mem (x : string) (l : list string) : bool :=
  existsb (String.eqb x) l.

(** [f"{x}"] of an optional string: [None] prints as the word. *)
Definition fmt (o : option string) : string :=
  match o with Some s => s | None => "None" end.

(** The running [score] of [classify], signal by signal.  (The counters
    [signals] and [max_signals] of the source are never read.) *)
Definition classify_score (place : Place) : Q :=
  let score := 0.0 in
  let name_lower := Str.lower (Str.or_empty (name place)) in
  (* Signal 1: known brand name *)
  let score :=
    if existsb (fun brand => Str.contains brand name_lower) KNOWN_BRANDS
    then score + 1.0 else score in
  (* Signal 2: review count *)
  let score :=
    if Num.truthyZ (user_ratings_total place) then
      let n := Num.or_zero (user_ratings_total place) in
      if (n >? 1000)%Z then score + 0.8
      else if (n >? 500)%Z then score + 0.5
      else if (n >? 100)%Z then score + 0.2
      else score
    else score in
  (* Signal 3: chain pattern in name and address *)
  let text_to_check :=
    (fmt (name place) ++ " " ++ Str.or_empty (formatted_address place))%string in
  let score :=
    if Re.search CHAIN_PATTERNS text_to_check then score + 0.7 else score in
  (* Signal 4: website domain *)
  let score :=
    if Str.truthy (website place) then
      let domain := Str.lower (Str.or_empty (website place)) in
      let score :=
        if existsb (fun ind => Str.contains ind domain) BRAND_DOMAIN_INDICATORS
        then score + 0.3 else score in
      if existsb (fun tld => Str.contains tld domain) country_tlds
      then score - 0.2 else score
    else score in
  (* Signal 5: price level *)
  let score :=
    if Num.is_some (price_level place) then score + 0.15 else score in
  (* Signal 6: business types *)
  let types := match types place with Some l => l | None => [] end in
  let score :=
    if existsb (fun t => mem t brand_types) types then score + 0.4 else score in
  let score :=
    if existsb (fun t => mem t local_types) types then score - 0.3 else score in
  (* Signal 7: number of words of the name *)
  let words := Str.split name_lower in
  let score :=
    if (List.length words <=? 3)%nat then score + 0.1
    else if (6 <=? List.length words)%nat then score - 0.1
    else score in
  score.

Definition max_possible : Q := 3.45.

(** [confidence] before rounding. *)
Definition raw_confidence (place : Place) : Q :=
  Num.max 0.0 (Num.min 1.0 (classify_score place / max_possible)).

Definition classify (place : Place) : string * Q :=
  let confidence := raw_confidence place in
  let classification :=
    if Num.geb confidence 0.30 then "brand" else "local" in
  (classification, Num.round confidence 3).

(** *** The walk over the truth values of its tests

    [classify] reads the listing only through fourteen tests.  [walk] is
    the same sequence of updates with each test replaced by its outcome;
    it is used to check every combination of outcomes at once. *)

Definition walk (brand reviewed r1000 r500 r100 chain site ind tld
                 priced bt lt w3 w6 : bool) : Q :=
  let score := 0.0 in
  let score := if brand then score + 1.0 else score in
  let score :=
    if reviewed then
      if r1000 then score + 0.8
      else if r500 then score + 0.5
      else if r100 then score + 0.2
      else score
    else score in
  let score := if chain then score + 0.7 else score in
  let score :=
    if site then
      let score := if ind then score + 0.3 else score in
      if tld then score - 0.2 else score
    else score in
  let score := if priced then score + 0.15 else score in
  let score := if bt then score + 0.4 else score in
  let score := if lt then score - 0.3 else score in
  let score :=
    if w3 then score + 0.1 else if w6 then score - 0.1 else score in
  score.

Definition outcome (score : Q) : string * Q :=
  let confidence := Num.max 0.0 (Num.min 1.0 (score / max_possible)) in
  let classification :=
    if Num.geb confidence 0.30 then "brand" else "local" in
  (classification, Num.round confidence 3).

(** What is asked of a result, as a test. *)
Definition well_formed (r : string * Q) : bool :=
  let (label, confidence) := r in
  Qle_bool 0 confidence && Qle_bool confidence 1 &&
  (String.eqb label "brand" || String.eqb label "local") &&
  Bool.eqb (String.eqb label "brand") (Qle_bool 0.30 confidence).

Definition all_bool (f : bool -> bool) : bool := f true && f false.

(** *** [classify_places] and [classify_all_unclassified] *)

(** [place.classification = classification;
     place.classification_confidence = confidence] *)
Definition set_classification (place : Place) (classification : string)
           (confidence : Q) : Place :=
  {| row_id := row_id place; place_id := place_id place; name := name place;
     formatted_address := formatted_address place;
     latitude := latitude place; longitude := longitude place;
     rating := rating place; user_ratings_total := user_ratings_total place;
     formatted_phone_number := formatted_phone_number place;
     website := website place; opening_hours := opening_hours place;
     address_components := address_components place; types := types place;
     business_status := business_status place;
     price_level := price_level place;
     classification := Some classification;
     classification_confidence := Some confidence;
     location_score := location_score place;
     competitor_density := competitor_density place;
     search_query := search_query place;
     search_location := search_location place;
     created_at := created_at place; updated_at := updated_at place;
     enriched_at := enriched_at place; emails := emails place |}.

(** [update(Place).where(Place.id == id).values(classification=...,
    classification_confidence=...)] on the rows of the table. *)
Definition update_classification (id : Z) (classification : string)
           (confidence : Q) (rows : list Place) : list Place :=
  map (fun row => if (row_id row =? id)%Z
                  then set_classification row classification confidence
                  else row)
      rows.

(** The loop of [classify_places]: the table after it and the places
    returned. *)
Fixpoint classify_places (rows : list Place) (places : list Place)
  : list Place * list Place :=
  match places with
  | [] => (rows, [])
  | place :: places' =>
      let (classification, confidence) := classify place in
      let rows := update_classification (row_id place) classification
                                        confidence rows in
      let (rows', done) := classify_places rows places' in
      (rows', set_classification place classification confidence :: done)
  end.

(** [select(Place).where(Place.classification.is_(None))] *)
Definition unclassified (rows : list Place) : list Place :=
  filter (fun row => negb (Num.is_some (classification row))) rows.

(** The table after the call and the number returned. *)
Definition classify_all_unclassified (rows : list Place) : list Place * nat :=
  let places := unclassified rows in
  match places with
  | [] => (rows, List.length places)
  | _ => (fst (classify_places rows places), List.length places)
  end.

(** A test on every combination of the fourteen outcomes. *)
Definition all14 (F : bool -> bool -> bool -> bool -> bool -> bool -> bool ->
                      bool -> bool -> bool -> bool -> bool -> bool -> bool ->
                      bool) : bool :=
  all_bool (fun b1 => all_bool (fun b2 => all_bool (fun b3 =>
  all_bool (fun b4 => all_bool (fun b5 => all_bool (fun b6 =>
  all_bool (fun b7 => all_bool (fun b8 => all_bool (fun b9 =>
  all_bool (fun b10 => all_bool (fun b11 => all_bool (fun b12 =>
  all_bool (fun b13 => all_bool (fun b14 =>
    F b1 b2 b3 b4 b5 b6 b7 b8 b9 b10 b11 b12 b13 b14)))))))))))))).

(** What [classify_all_unclassified] is to do with one row. *)
Definition classify_row (row : Place) : Place :=
  if Num.is_some (classification row) then row
  else set_classification row (fst (classify row)) (snd (classify row)).

(** The updates of the loop of [classify_places], seen from one row. *)
Definition apply_updates (places : list Place) (row : Place) : Place :=
  fold_left (fun row place =>
               if (row_id row =? row_id place)%Z
               then set_classification row (fst (classify place))
                                       (snd (classify place))
               else row)
            places row.

End Classifier.

(** ** Retrying calls ([tenacity.retry]) and the errors of [httpx]

    Both services wrap their HTTP calls in
    [@retry(stop=stop_after_attempt(n), wait=wait_exponential(...),
    retry=retry_if_exception_type(classes), reraise=True)].  The decorated
    function is given here as the outcome of each of its attempts. *)

Module Tenacity.

(** The exception classes that can leave an [httpx] call, and any other. *)
Inductive ExnClass : Type :=
| HTTPStatusError
| ConnectError
| ReadError
| WriteError
| ConnectTimeout
| ReadTimeout
| WriteTimeout
| PoolTimeout
| OtherException.

Definition ExnClass_eqb (a b : ExnClass) : bool :=
  match a, b with
  | HTTPStatusError, HTTPStatusError | ConnectError, ConnectError
  | ReadError, ReadError | WriteError, WriteError
  | ConnectTimeout, ConnectTimeout | ReadTimeout, ReadTimeout
  | WriteTimeout, WriteTimeout | PoolTimeout, PoolTimeout
  | OtherException, OtherException => true
  | _, _ => false
  end.

(** Connection and time-out failures: the transient errors. *)
Definition transient (c : ExnClass) : bool :=
  match c with
  | HTTPStatusError | OtherException => false
  | _ => true
  end.

Record Exn : Type := mkExn { cls : ExnClass; msg : string }.

Inductive outcome (A : Type) : Type :=
| Returned (a : A)
| Raised (e : Exn).
Arguments Returned {A} a.
Arguments Raised {A} e.

Record Policy : Type := mkPolicy {
  stop_after_attempt : nat;
  wait_multiplier : Z;
  wait_min : Z;
  wait_max : Z;
  retry_if_exception_type : list ExnClass
}.

(** [isinstance(e, classes)]; none of the listed classes has a subclass. *)
Definition retryable (pol : Policy) (e : Exn) : bool :=
  existsb (ExnClass_eqb (cls e)) (retry_if_exception_type pol).

(** [wait_exponential]: [multiplier * 2 ** (attempt_number - 1)], kept
    between [min] and [max]. *)
Definition wait (pol : Policy) (attempt_number : nat) : Z :=
  Z.max (Z.max 0 (wait_min pol))
        (Z.min (wait_multiplier pol * 2 ^ Z.of_nat (attempt_number - 1))
               (wait_max pol)).

(** What a decorated call did: its result, the number of attempts made
    and the pauses between them, in seconds. *)
Record Run (A : Type) : Type := mkRun {
  result : outcome A;
  attempts : nat;
  sleeps : list Z
}.
Arguments mkRun {A}.
Arguments result {A}.
Arguments attempts {A}.
Arguments sleeps {A}.

(** The loop of the decorator from attempt [attempt_number] on, with
    [remaining] further attempts allowed
    ([stop_after_attempt - attempt_number], or none).  A result is
    returned; an exception outside [retry_if_exception_type] is raised at
    once; one inside it is raised again when the attempts are used up
    ([reraise=True]) and otherwise followed by a pause and a new attempt. *)
Fixpoint retry_loop {A : Type} (pol : Policy) (f : nat -> outcome A)
         (remaining attempt_number : nat) : Run A :=
  match f attempt_number with
  | Returned a => mkRun (Returned a) attempt_number []
  | Raised e =>
      if retryable pol e then
        match remaining with
        | O => mkRun (Raised e) attempt_number []
        | S remaining' =>
            let r := retry_loop pol f remaining' (S attempt_number) in
            mkRun (result r) (attempts r)
                  (wait pol attempt_number :: sleeps r)
        end
      else mkRun (Raised e) attempt_number []
  end.

Definition call {A : Type} (pol : Policy) (f : nat -> outcome A) : Run A :=
  retry_loop pol f (stop_after_attempt pol - 1) 1.

(** The properties of a run that starts at attempt [n] with [remaining]
    further attempts allowed. *)
Definition loop_spec {A : Type} (pol : Policy) (f : nat -> outcome A)
           (remaining n : nat) (r : Run A) : Prop :=
  (n <= attempts r <= n + remaining)%nat /\
  result r = f (attempts r) /\
  (forall k, (n <= k < attempts r)%nat ->
             exists e, f k = Raised e /\ retryable pol e = true) /\
  (forall e, result r = Raised e -> retryable pol e = true ->
             attempts r = (n + remaining)%nat) /\
  sleeps r = map (wait pol) (seq n (attempts r - n)).

(** What one HTTP exchange gives: an exception of the transport, or a
    response. *)
Inductive Transport (A : Type) : Type :=
| Failed (e : Exn)
| Responded (status_code : Z) (body : A).
Arguments Failed {A} e.
Arguments Responded {A} status_code body.

End Tenacity.

(** ** Stage 2: website enrichment ([app/services/enrichment.py]) *)

Module Enrichment.
Import Models Tenacity.

(** *** Email extraction *)

Definition one_of (chars : string) (c : ascii) : bool :=
  Str.contains (String c EmptyString) chars.

Definition local_char (c : ascii) : bool :=
  Str.is_alpha c || Str.is_digit c || one_of "._%+-" c.

Definition domain_char (c : ascii) : bool :=
  Str.is_alpha c || Str.is_digit c || one_of ".-" c.

(** [[a-zA-Z0-9._%+\-]+@[a-zA-Z0-9.\-]+\.[a-zA-Z]{2,}] *)
Definition EMAIL_REGEX : Re.re :=
  Re.Seq (Re.Rep 1 local_char)
 (Re.Seq (Re.Lit "@")
 (Re.Seq (Re.Rep 1 domain_char)
 (Re.Seq (Re.Lit ".")
         (Re.Rep 2 Str.is_alpha)))).

Definition EXCLUDED_EMAIL_PATTERNS : list string :=
  [ "example.com"; "domain.com"; "email.com"; "test.com";
    "yoursite.com"; "website.com"; "sentry.io"; "wixpress.com" ].

Definition image_extensions : list string :=
  [ ".png"; ".jpg"; ".jpeg"; ".gif"; ".svg"; ".webp" ].

(** Python sets of strings, kept as lists without repetition; the order
    stands for the iteration order, which Python leaves open. *)
Definition set_mem (x : string) (s : list string) : bool :=
  existsb (String.eqb x) s.

Definition set_add (x : string) (s : list string) : list string :=
  if set_mem x s then s else s ++ [x].

Definition set_of (l : list string) : list string :=
  fold_left (fun s x => set_add x s) l [].

(** The body of the loop of [_extract_emails]. *)
Definition clean_step (cleaned : list string) (email : string) : list string :=
  let email_lower := Str.lower email in
  let domain :=
    if Str.contains "@" email_lower
    then Str.split_second "@" email_lower else "" in
  if existsb (fun ext => Str.endswith email_lower ext) image_extensions
  then cleaned
  else if existsb (fun exc => Str.contains exc domain) EXCLUDED_EMAIL_PATTERNS
  then cleaned
  else set_add email_lower cleaned.

Definition _extract_emails (html : string) : list string :=
  let raw := set_of (Re.findall EMAIL_REGEX html) in
  fold_left clean_step raw [].

(** The two tests of the loop body on a lowered address. *)
Definition kept (email_lower : string) : Prop :=
  existsb (fun ext => Str.endswith email_lower ext) image_extensions = false /\
  existsb (fun exc =>
             Str.contains exc
               (if Str.contains "@" email_lower
                then Str.split_second "@" email_lower else ""))
          EXCLUDED_EMAIL_PATTERNS = false.

(** *** What the claims say of it, in their words *)

(** The domain of an address: what follows its "@". *)
Definition is_domain_of (address domain : string) : Prop :=
  exists local_part,
    address = (local_part ++ "@" ++ domain)%string /\
    Str.contains "@" local_part = false /\
    Str.contains "@" domain = false.

Definition ends_in_image_extension (address : string) : Prop :=
  exists ext, In ext image_extensions /\ Str.endswith address ext = true.

(** A domain matches the exclusion list when an entry of the list occurs
    in it. *)
Definition domain_excluded (address : string) : Prop :=
  exists domain exc,
    is_domain_of address domain /\
    In exc EXCLUDED_EMAIL_PATTERNS /\ Str.contains exc domain = true.

(** The addresses the specification asks for. *)
Definition expected_email (html address : string) : Prop :=
  (exists m, In m (Re.findall EMAIL_REGEX html) /\ address = Str.lower m) /\
  ~ ends_in_image_extension address /\
  ~ domain_excluded address.

(** *** [enrich_place] *)

(** The web, as the enricher sees it: the answer to the request for
    [/robots.txt] and the verdict of the robots parser on it, the answer
    to each attempt at each page, and what the HTML parser finds in a
    page (its title, and the same-domain contact link, given the base
    URL). *)
Record Web : Type := mkWeb {
  robots_txt : Transport string;
  can_fetch : bool;
  pages : string -> nat -> Transport string;
  _extract_title : string -> option string;
  _find_contact_page : string -> string -> option string
}.

(** The requests made. *)
Inductive Event : Type :=
| GetRobots (base_url : string)
| GetPage (url : string).

Definition _check_robots (respect_robots_txt : bool) (web : Web)
           (base_url : string) : bool * list Event :=
  if negb respect_robots_txt then (true, [])
  else
    (match robots_txt web with
     | Responded status_code text =>
         if (status_code =? 200)%Z then can_fetch web else true
     | Failed _ => true
     end,
     [GetRobots base_url]).

Definition fetch_policy : Policy :=
  {| stop_after_attempt := 2;
     wait_multiplier := 1; wait_min := 1; wait_max := 5;
     retry_if_exception_type := [ConnectError; ReadTimeout] |}.

Definition _fetch_page (web : Web) (url : string) : Run (Z * string) :=
  call fetch_policy
       (fun attempt_number =>
          match pages web url attempt_number with
          | Failed e => Raised e
          | Responded status_code text => Returned (status_code, text)
          end).

(** One [GetPage] for each attempt of a fetch. *)
Definition fetch_events {A : Type} (url : string) (run : Run A) : list Event :=
  repeat (GetPage url) (attempts run).

(** The dictionary [enrichment_data]. *)
Record EnrichmentData : Type := mkEnrichmentData {
  d_homepage_status_code : option Z;
  d_homepage_title : option string;
  d_contact_page_url : option string;
  d_robots_txt_allows : option bool;
  d_enrichment_error : option string
}.

(** The tables the enricher writes, with the [enriched_at] stamps of the
    places as pairs of a place id and a time. *)
Record Store : Type := mkStore {
  enrichments : list PlaceEnrichment;
  email_rows : list PlaceEmail;
  stamps : list (Z * Z)
}.

(** A session: what is committed, what the session holds (the committed
    state and the changes not yet committed), and the commits made. *)
Record Session : Type := mkSession {
  committed : Store;
  pending : Store;
  commits : nat
}.

Definition commit (db : Session) : Session :=
  mkSession (pending db) (pending db) (S (commits db)).

Definition row_of (place_db_id : Z) (d : EnrichmentData) : PlaceEnrichment :=
  {| enrichment_place_id := place_db_id;
     homepage_status_code := d_homepage_status_code d;
     homepage_title := d_homepage_title d;
     contact_page_url := d_contact_page_url d;
     robots_txt_allows := d_robots_txt_allows d;
     enrichment_error := d_enrichment_error d |}.

(** The loop over the emails: add the pairs the table does not hold. *)
Fixpoint add_emails (place_db_id : Z) (emails : list (string * string))
         (rows : list PlaceEmail) : list PlaceEmail :=
  match emails with
  | [] => rows
  | (e, src) :: emails' =>
      let present :=
        existsb (fun r => (email_place_id r =? place_db_id)%Z &&
                          String.eqb (email r) e) rows in
      add_emails place_db_id emails'
                 (if present then rows
                  else (rows ++ [mkPlaceEmail place_db_id e (Some src)])%list)
  end.

Definition _save_enrichment (db : Session) (place_db_id : Z)
           (enrichment_data : EnrichmentData) (emails : list (string * string))
  : Session :=
  let s := pending db in
  let is_row r := (enrichment_place_id r =? place_db_id)%Z in
  let enrichments' :=
    if existsb is_row (enrichments s)
    then map (fun r => if is_row r then row_of place_db_id enrichment_data else r)
             (enrichments s)
    else (enrichments s ++ [row_of place_db_id enrichment_data])%list in
  mkSession (committed db)
            (mkStore enrichments'
                     (add_emails place_db_id emails (email_rows s))
                     (stamps s))
            (commits db).

(** [place.enriched_at = datetime.datetime.utcnow()] on a place of the
    session. *)
Definition stamp_place (place : Place) (now : Z) : Place :=
  {| row_id := row_id place; place_id := place_id place; name := name place;
     formatted_address := formatted_address place;
     latitude := latitude place; longitude := longitude place;
     rating := rating place; user_ratings_total := user_ratings_total place;
     formatted_phone_number := formatted_phone_number place;
     website := website place; opening_hours := opening_hours place;
     address_components := address_components place; types := types place;
     business_status := business_status place;
     price_level := price_level place;
     classification := classification place;
     classification_confidence := classification_confidence place;
     location_score := location_score place;
     competitor_density := competitor_density place;
     search_query := search_query place;
     search_location := search_location place;
     created_at := created_at place; updated_at := updated_at place;
     enriched_at := Some now; emails := emails place |}.

Definition stamp_session (db : Session) (place_db_id now : Z) : Session :=
  let s := pending db in
  mkSession (committed db)
            (mkStore (enrichments s) (email_rows s)
                     ((place_db_id, now) :: stamps s))
            (commits db).

(** [all_emails[e] = source] for each [e], when absent. *)
Fixpoint add_sources (source : string) (found : list string)
         (all_emails : list (string * string)) : list (string * string) :=
  match found with
  | [] => all_emails
  | e :: found' =>
      add_sources source found'
        (if existsb (fun kv => String.eqb (fst kv) e) all_emails
         then all_emails else (all_emails ++ [(e, source)])%list)
  end.

(** The homepage was fetched with status 200 and a body: its title, its
    emails, and those of its contact page. *)
Definition read_homepage (web : Web) (website html : string)
  : option string * option string * list (string * string) * list Event :=
  let title := _extract_title web html in
  let all_emails := add_sources "homepage" (_extract_emails html) [] in
  let contact_url := _find_contact_page web html website in
  if Str.truthy contact_url then
    let url := Str.or_empty contact_url in
    let cp := _fetch_page web url in
    let all_emails :=
      match result cp with
      | Returned (cp_status, cp_html) =>
          if (cp_status =? 200)%Z && Str.truthy (Some cp_html)
          then add_sources "contact_page" (_extract_emails cp_html) all_emails
          else all_emails
      | Raised _ => all_emails
      end in
    (title, contact_url, all_emails, fetch_events url cp)
  else (title, None, all_emails, []).

(** The place returned, the session and the requests made. *)
Definition enrich_place (respect_robots_txt : bool) (web : Web) (now : Z)
           (db : Session) (place : Place) : Place * Session * list Event :=
  if negb (Str.truthy (website place)) then (place, db, [])
  else
    let website := Str.or_empty (website place) in
    let (allowed, robots_events) :=
      _check_robots respect_robots_txt web website in
    if negb allowed then
      let enrichment_data :=
        mkEnrichmentData None None None (Some allowed)
                         (Some "Blocked by robots.txt") in
      let db := _save_enrichment db (row_id place) enrichment_data [] in
      (stamp_place place now, stamp_session db (row_id place) now,
       robots_events)
    else
      let home := _fetch_page web website in
      let '(enrichment_data, all_emails, events) :=
        match result home with
        | Raised exc =>
            (mkEnrichmentData None None None (Some allowed)
                              (Some (Str.take 500 (msg exc))),
             [], [])
        | Returned (status, html) =>
            if (status =? 200)%Z && Str.truthy (Some html) then
              let '(title, contact_url, all_emails, events) :=
                read_homepage web website html in
              (mkEnrichmentData (Some status) title contact_url
                                (Some allowed) None,
               all_emails, events)
            else
              (mkEnrichmentData (Some status) None None (Some allowed) None,
               [], [])
        end in
      let db := _save_enrichment db (row_id place) enrichment_data all_emails in
      let db := stamp_session db (row_id place) now in
      (stamp_place place now, commit db,
       (robots_events ++ fetch_events website home ++ events)%list).

(** A site that forbids crawling, and an empty session. *)
Definition forbidding_web : Web :=
  {| robots_txt := Responded 200 "User-agent: * Disallow: /";
     can_fetch := false;
     pages := fun _ _ => Responded 200 "<title>Cafe</title> info@cafe.ae";
     _extract_title := fun _ => Some "Cafe";
     _find_contact_page := fun _ _ => None |}.

Definition allowing_web : Web :=
  {| robots_txt := Responded 404 "";
     can_fetch := true;
     pages := fun _ _ => Responded 200 "<title>Cafe</title> info@cafe.ae";
     _extract_title := fun _ => Some "Cafe";
     _find_contact_page := fun _ _ => None |}.

Definition empty_store : Store := mkStore [] [] [].

Definition empty_session : Session := mkSession empty_store empty_store 0.

Definition cafe : Place :=
  test_place (Some "Marina Cafe") None (Some "https://cafe.ae") ["cafe"].

(** *** [enrich_places_batch] *)

(** The loop over the places, one after the other on the same session.
    [web] is the web and [now] the clock as they are while a place is
    enriched.  The places returned, the session and the requests made. *)
Fixpoint enrich_places_batch (respect_robots_txt : bool) (web : Place -> Web)
         (now : Place -> Z) (db : Session) (places : list Place)
  : list Place * Session * list Event :=
  match places with
  | [] => ([], db, [])
  | place :: places' =>
      let '(p, db, events) :=
        enrich_place respect_robots_txt (web place) (now place) db place in
      let '(enriched, db, events') :=
        enrich_places_batch respect_robots_txt web now db places' in
      (p :: enriched, db, (events ++ events')%list)
  end.

(** The key of the unique constraint [uq_place_email]. *)
Definition uq_place_email (r : PlaceEmail) : Z * string :=
  (email_place_id r, email r).

(** A second listing, with a site of its own. *)
Definition bistro : Place :=
  {| row_id := 2; place_id := "q"; name := Some "Marina Bistro";
     formatted_address := None;
     latitude := None; longitude := None; rating := None;
     user_ratings_total := None; formatted_phone_number := None;
     website := Some "https://bistro.ae"; opening_hours := None;
     address_components := None;
     types := None; business_status := None; price_level := None;
     classification := None; classification_confidence := None;
     location_score := None; competitor_density := None;
     search_query := None; search_location := None;
     created_at := None; updated_at := None; enriched_at := None;
     emails := [] |}.

(** The web in which the site of [cafe] forbids crawling and the others
    allow it. *)
Definition mixed_web (place : Place) : Web :=
  if (row_id place =? 1)%Z then forbidding_web else allowing_web.

End Enrichment.

(** ** Stage 5: the demand score ([app/services/scoring.py])

    [math.log10] has no rational model: this module reads floats as real
    numbers. *)

Module Scoring.
Import Models.
Open Scope R_scope.

(** [math.log10(x)] *)
Definition log10 (x : R) : R := ln x / ln 10.

(** Round to the nearest integer, ties to the even one. *)
Definition round_half_even (x : R) : Z :=
  let f := Zfloor x in
  if Rlt_dec (x - IZR f) (1 / 2) then f
  else if Rlt_dec (1 / 2) (x - IZR f) then (f + 1)%Z
  else if Z.even f then f else (f + 1)%Z.

(** [round(x, ndigits)] *)
Definition round (x : R) (ndigits : nat) : R :=
  IZR (round_half_even (x * 10 ^ ndigits)) / 10 ^ ndigits.

Definition _demand_score (place : Place) : R :=
  let reviews := Num.or_zero (user_ratings_total place) in
  if (reviews <=? 0)%Z then 0
  else
    let score := Rmin 1 (log10 (IZR (reviews + 1)) / 4) in
    round score 4.

(** The formula of the specification, without the rounding. *)
Definition demand_formula (place : Place) : R :=
  let reviews := Num.or_zero (user_ratings_total place) in
  if (reviews <=? 0)%Z then 0
  else Rmin 1 (log10 (IZR (reviews + 1)) / 4).

(** A listing with the given number of reviews. *)
Definition reviewed (n : option Z) : Place :=
  test_place (Some "Test") n None [].

(** *** The other sub-scores *)

Definition _rating_score (place : Place) : R :=
  match rating place with
  | None => 0
  | Some rating =>
      if Rlt_dec (Q2R rating) 1 then 0
      else round (Rmin 1 ((Q2R rating - 1) / 4)) 4
  end.

(** The opening hours the pipeline stores are a dictionary with two
    keys, so they are truthy when present. *)
Definition _accessibility_score (place : Place) : R :=
  let score := 0 in
  let score := if Str.truthy (website place) then score + 0.30 else score in
  let score :=
    if Str.truthy (formatted_phone_number place) then score + 0.25
    else score in
  let score :=
    if Num.is_some (opening_hours place) then score + 0.25 else score in
  let score :=
    if Str.truthy (formatted_address place) then score + 0.20 else score in
  round score 4.

(** [column.between(lo, hi)]: both ends included, false for a null. *)
Definition between (column : option Q) (lo hi : R) : bool :=
  match column with
  | Some x =>
      if Rle_dec lo (Q2R x) then if Rle_dec (Q2R x) hi then true else false
      else false
  | None => false
  end.

(** The rows the query of [_competition_score] counts. *)
Definition nearby (places : list Place) (place_db_id : Z)
           (lat lng lat_delta lng_delta : R) : list Place :=
  filter (fun p =>
            between (latitude p) (lat - lat_delta) (lat + lat_delta) &&
            between (longitude p) (lng - lng_delta) (lng + lng_delta) &&
            negb (row_id p =? place_db_id)%Z)
         places.

(** The score for a number of competitors nearby. *)
Definition inverse_density (nearby_count : Z) : R :=
  if (nearby_count =? 0)%Z then 1
  else
    let score := 1 / (1 + ln (IZR (nearby_count + 1))) in
    round (Rmax 0 (Rmin 1 score)) 4.

Definition _competition_score (places : list Place) (place : Place)
           (radius_km : R) : R :=
  match latitude place, longitude place with
  | Some lat, Some lng =>
      let lat := Q2R lat in
      let lng := Q2R lng in
      let lat_delta := radius_km / 111 in
      let lng_delta :=
        radius_km / (111 * Rmax 0.01 (cos (lat * PI / 180))) in
      let nearby_count :=
        Z.of_nat (List.length (nearby places (row_id place) lat lng lat_delta
                                      lng_delta)) in
      inverse_density nearby_count
  | _, _ => 0.5
  end.

(** *** [score_place] *)

(** A row of [location_scores]. *)
Record LocationScore : Type := mkLocationScore {
  score_place_id : Z;
  demand_score : R;
  competition_score : R;
  accessibility_score : R;
  rating_score : R;
  composite_score : R;
  computed_at : Z
}.

(** The two tables the scoring engine works on. *)
Record ScoreDb : Type := mkScoreDb {
  places_table : list Place;
  location_scores : list LocationScore
}.

(** The weighted sum of the four sub-scores. *)
Definition weighted (demand competition accessibility rating : R) : R :=
  demand * 0.30 + competition * 0.25 + accessibility * 0.20 + rating * 0.25.

(** [round(x, ndigits)] as the rational number it is, for the column
    [places.location_score]. *)
Definition round_Q (x : R) (ndigits : nat) : Q :=
  inject_Z (round_half_even (x * 10 ^ ndigits))
  / inject_Z (10 ^ Z.of_nat ndigits).

(** [UPDATE places SET location_score = ...] on one row. *)
Definition set_location_score (place : Place) (score : option Q) : Place :=
  {| row_id := row_id place; place_id := place_id place; name := name place;
     formatted_address := formatted_address place;
     latitude := latitude place; longitude := longitude place;
     rating := rating place; user_ratings_total := user_ratings_total place;
     formatted_phone_number := formatted_phone_number place;
     website := website place; opening_hours := opening_hours place;
     address_components := address_components place; types := types place;
     business_status := business_status place;
     price_level := price_level place;
     classification := classification place;
     classification_confidence := classification_confidence place;
     location_score := score;
     competitor_density := competitor_density place;
     search_query := search_query place;
     search_location := search_location place;
     created_at := created_at place; updated_at := updated_at place;
     enriched_at := enriched_at place; emails := emails place |}.

(** The score row of a place, computed against the table [places]. *)
Definition score_of (now : Z) (places : list Place) (place : Place)
  : LocationScore :=
  let demand := _demand_score place in
  let rating := _rating_score place in
  let accessibility := _accessibility_score place in
  let competition := _competition_score places place 2.0 in
  let composite := weighted demand competition accessibility rating in
  let composite := round composite 4 in
  mkLocationScore (row_id place) demand competition accessibility rating
                  composite now.

(** The score row returned and the tables after the call. *)
Definition score_place (now : Z) (db : ScoreDb) (place : Place)
  : LocationScore * ScoreDb :=
  let score_obj := score_of now (places_table db) place in
  let composite :=
    round_Q (weighted (demand_score score_obj) (competition_score score_obj)
                      (accessibility_score score_obj) (rating_score score_obj))
            4 in
  let is_row s := (score_place_id s =? row_id place)%Z in
  let scores' :=
    if existsb is_row (location_scores db)
    then map (fun s => if is_row s then score_obj else s) (location_scores db)
    else (location_scores db ++ [score_obj])%list in
  let places' :=
    map (fun p => if (row_id p =? row_id place)%Z
                  then set_location_score p (Some composite) else p)
        (places_table db) in
  (score_obj, mkScoreDb places' scores').

Fixpoint score_places (now : Z) (db : ScoreDb) (places : list Place)
  : list LocationScore * ScoreDb :=
  match places with
  | [] => ([], db)
  | place :: places' =>
      let (score, db) := score_place now db place in
      let (scores, db) := score_places now db places' in
      (score :: scores, db)
  end.

(** [select(Place).where(Place.location_score.is_(None))] *)
Definition unscored (places : list Place) : list Place :=
  filter (fun p => negb (Num.is_some (location_score p))) places.

(** The number returned and the tables after the call. *)
Definition score_all_unscored (now : Z) (db : ScoreDb) : Z * ScoreDb :=
  let places := unscored (places_table db) in
  (Z.of_nat (List.length places), snd (score_places now db places)).

(** A cafe in the marina, with all its contact data. *)
Definition marina_cafe : Place :=
  {| row_id := 1; place_id := "ChIJ1"; name := Some "Marina Cafe";
     formatted_address := Some "Marina Walk, Dubai";
     latitude := Some 25.08%Q; longitude := Some 55.14%Q;
     rating := Some 4.5%Q; user_ratings_total := Some 120%Z;
     formatted_phone_number := Some "+971 4 000 0000";
     website := Some "https://cafe.ae";
     opening_hours := Some (mkOpeningHours (Some true) []);
     address_components := None; types := Some ["cafe"];
     business_status := Some "OPERATIONAL"; price_level := Some 2%Z;
     classification := None; classification_confidence := None;
     location_score := None; competitor_density := None;
     search_query := Some "cafes in Dubai"; search_location := None;
     created_at := Some 1000%Z; updated_at := Some 1000%Z;
     enriched_at := None; emails := [] |}.

(** The composite score of a score row, as the rational number stored
    in [places.location_score]. *)
Definition composite_Q (s : LocationScore) : Q :=
  round_Q (weighted (demand_score s) (competition_score s)
                    (accessibility_score s) (rating_score s)) 4.

(** Two rows that differ at most in the column [location_score]. *)
Definition same_but_score (p' p : Place) : Prop :=
  set_location_score p' None = set_location_score p None.

(** The row of a place after [score_all_unscored]: a row with a score is
    left alone, a row without one gets the composite score of its score
    row, computed against the table [places] as it was. *)
Definition scored_row (now : Z) (places : list Place) (p : Place) : Place :=
  if Num.is_some (location_score p) then p
  else set_location_score p (Some (composite_Q (score_of now places p))).

(** A table with the cafe alone, not scored yet. *)
Definition marina_db : ScoreDb := mkScoreDb [marina_cafe] [].

End Scoring.

(** ** The CSV export ([export_csv] of [app/api/routes.py]) *)

Module CsvExport.
Import Models.
Open Scope Q_scope.

(** What is handed to [csv.writer] for one cell.  A [CTime t] stands for
    [t.isoformat()]; the writer prints numbers with [str]. *)
Inductive Cell : Type :=
| CStr (s : string)
| CInt (n : Z)
| CFloat (x : Q)
| CTime (t : Z).

(** [str(n)] *)
Definition str_of_Z (n : Z) : string :=
  DecimalString.NilZero.string_of_int (Z.to_int n).

(** [f"{x:.0f}"]: the nearest integer, ties to even, the sign kept. *)
Definition format_0f (x : Q) : string :=
  let r := Num.round_half_even x in
  if (r =? 0)%Z && negb (Qle_bool 0 x) then "-0" else str_of_Z r.

(** [sep.join(l)] *)
Fixpoint join (sep : string) (l : list string) : string :=
  match l with
  | [] => ""
  | [x] => x
  | x :: rest => x ++ sep ++ join sep rest
  end.

(** [s or ""] *)
Definition str_or_blank (o : option string) : Cell :=
  match o with
  | Some s => CStr s
  | None => CStr ""
  end.

(** [x or ""] for a float *)
Definition float_or_blank (o : option Q) : Cell :=
  match o with
  | Some x => if Num.truthyQ o then CFloat x else CStr ""
  | None => CStr ""
  end.

(** [n or ""] for an integer *)
Definition int_or_blank (o : option Z) : Cell :=
  match o with
  | Some n => if Num.truthyZ o then CInt n else CStr ""
  | None => CStr ""
  end.

(** [f"{x * 100:.0f}" if x else ""] *)
Definition percent_or_blank (o : option Q) : Cell :=
  match o with
  | Some x => if Num.truthyQ o then CStr (format_0f (x * 100)) else CStr ""
  | None => CStr ""
  end.

(** [t.isoformat() if t else ""] *)
Definition time_or_blank (o : option Z) : Cell :=
  match o with
  | Some t => CTime t
  | None => CStr ""
  end.

(** The row written for one place. *)
Definition csv_row (p : Place) : list Cell :=
  let emails_str := join "; " (map email (emails p)) in
  [ match name p with Some s => CStr s | None => CStr "" end;
    CStr (place_id p);
    match types p with
    | Some (t :: ts) => CStr (join ", " (t :: ts))
    | _ => CStr ""
    end;
    str_or_blank (formatted_address p);
    float_or_blank (latitude p);
    float_or_blank (longitude p);
    float_or_blank (rating p);
    int_or_blank (user_ratings_total p);
    str_or_blank (formatted_phone_number p);
    str_or_blank (website p);
    str_or_blank (business_status p);
    match price_level p with Some n => CInt n | None => CStr "" end;
    str_or_blank (classification p);
    percent_or_blank (classification_confidence p);
    percent_or_blank (location_score p);
    CStr emails_str;
    time_or_blank (enriched_at p);
    time_or_blank (created_at p) ].

Definition header : list string :=
  [ "Name"; "Place ID"; "Type"; "Address";
    "Latitude"; "Longitude"; "Rating"; "Reviews";
    "Phone"; "Website"; "Business Status"; "Price Level";
    "Classification"; "Confidence %"; "Location Score %";
    "Emails"; "Enriched At"; "Created At" ].

(** The cell of a row under the given column. *)
Fixpoint column (title : string) (titles : list string) (row : list Cell)
  : option Cell :=
  match titles, row with
  | t :: titles', c :: row' =>
      if String.eqb t title then Some c else column title titles' row'
  | _, _ => None
  end.

(** A classified and scored place. *)
Definition scored_place (confidence score : option Q) : Place :=
  {| row_id := 1; place_id := "p"; name := Some "Test";
     formatted_address := None;
     latitude := None; longitude := None; rating := None;
     user_ratings_total := None; formatted_phone_number := None;
     website := None; opening_hours := None; address_components := None;
     types := None; business_status := None; price_level := None;
     classification := Some "local"; classification_confidence := confidence;
     location_score := score; competitor_density := None;
     search_query := None; search_location := None;
     created_at := None; updated_at := None; enriched_at := None;
     emails := [] |}.

End CsvExport.

(** ** Stage 4: the competitor heatmap ([app/services/heatmap.py]) *)

Module Heatmap.
Import Models.
Open Scope Q_scope.

(** A row of [competitor_heatmap]. *)
Record CompetitorHeatmap : Type := mkCompetitorHeatmap {
  grid_lat : Q;
  grid_lng : Q;
  category : string;
  place_count : Z;
  avg_rating : option Q;
  avg_price_level : option Q;
  computed_at : Z
}.

(** The grid laid over the box: the cell size used and the number of
    steps along each axis.  [None] stands for the [ZeroDivisionError] a
    zero cell size raises. *)
Definition grid (lat_min lat_max lng_min lng_max grid_size : Q)
  : option (Q * Z * Z) :=
  if Qeq_bool grid_size 0 then None
  else
    let lat_steps := Num.ceil ((lat_max - lat_min) / grid_size) in
    let lng_steps := Num.ceil ((lng_max - lng_min) / grid_size) in
    let total_cells := (lat_steps * lng_steps)%Z in
    if (total_cells >? 10000)%Z then
      let grid_size :=
        Num.max ((lat_max - lat_min) / 100) ((lng_max - lng_min) / 100) in
      if Qeq_bool grid_size 0 then None
      else
        let lat_steps := Num.ceil ((lat_max - lat_min) / grid_size) in
        let lng_steps := Num.ceil ((lng_max - lng_min) / grid_size) in
        Some (grid_size, lat_steps, lng_steps)
    else Some (grid_size, lat_steps, lng_steps).

(** [column ILIKE '%category%'] for a category without SQL wildcards; a
    null column matches nothing. *)
Definition ilike (pattern : string) (column : option string) : bool :=
  match column with
  | Some v => Str.contains (Str.lower pattern) (Str.lower v)
  | None => false
  end.

(** The places of one cell. *)
Definition in_cell (category : string)
           (cell_lat cell_lat_max cell_lng cell_lng_max : Q) (p : Place) : bool :=
  match latitude p, longitude p with
  | Some lat, Some lng =>
      Qle_bool cell_lat lat && negb (Qle_bool cell_lat_max lat) &&
      Qle_bool cell_lng lng && negb (Qle_bool cell_lng_max lng) &&
      (String.eqb category "*" || ilike category (search_query p))
  | _, _ => false
  end.

(** SQL [avg] over the non-null values of a column. *)
Definition avg (values : list (option Q)) : option Q :=
  let present := flat_map (fun o => match o with Some x => [x] | None => [] end)
                          values in
  match present with
  | [] => None
  | _ => Some (fold_right Qplus 0 present / inject_Z (Z.of_nat (List.length present)))
  end.

(** [round(float(x), 2) if x else None] *)
Definition rounded_avg (o : option Q) : option Q :=
  match o with
  | Some x => if Num.truthyQ o then Some (Num.round x 2) else None
  | None => None
  end.

Definition cell_of (places : list Place) (category : string) (now : Z)
           (lat_min lng_min grid_size : Q) (i j : Z) : CompetitorHeatmap :=
  let cell_lat := lat_min + inject_Z i * grid_size in
  let cell_lat_max := cell_lat + grid_size in
  let cell_lng := lng_min + inject_Z j * grid_size in
  let cell_lng_max := cell_lng + grid_size in
  let rows :=
    filter (in_cell category cell_lat cell_lat_max cell_lng cell_lng_max)
           places in
  {| grid_lat := Num.round cell_lat 6;
     grid_lng := Num.round cell_lng 6;
     category := category;
     place_count := Z.of_nat (List.length rows);
     avg_rating := rounded_avg (avg (map rating rows));
     avg_price_level :=
       rounded_avg (avg (map (fun p => option_map inject_Z (price_level p)) rows));
     computed_at := now |}.

(** The cells [compute_heatmap] builds, stores and returns. *)
Definition compute_heatmap (places : list Place) (now : Z) (category : string)
           (lat_min lat_max lng_min lng_max grid_size : Q)
  : option (list CompetitorHeatmap) :=
  match grid lat_min lat_max lng_min lng_max grid_size with
  | None => None
  | Some (grid_size, lat_steps, lng_steps) =>
      Some (flat_map
              (fun i =>
                 map (cell_of places category now lat_min lng_min grid_size i)
                     (Num.range lng_steps))
              (Num.range lat_steps))
  end.

End Heatmap.

(** ** Stage 1: the Places client ([app/services/places_client.py]) *)

Module PlacesClient.
Import Models Tenacity.
Open Scope Q_scope.

(** [regularOpeningHours] of a provider record. *)
Record RawOpeningHours : Type := mkRawOpeningHours {
  openNow : option bool;
  weekdayDescriptions : option (list string)
}.

(** A place object of the Places API (New), with the fields of the field
    mask; an absent key is [None]. *)
Record RawPlace : Type := mkRawPlace {
  raw_id : option string;
  displayName_text : option string;
  formattedAddress : option string;
  location_latitude : option Q;
  location_longitude : option Q;
  raw_rating : option Q;
  userRatingCount : option Z;
  nationalPhoneNumber : option string;
  websiteUri : option string;
  regularOpeningHours : option RawOpeningHours;
  addressComponents : option (list string);
  raw_types : option (list string);
  businessStatus : option string;
  priceLevel : option string
}.

(** [place.get("id", "")] *)
Definition get_id (raw : RawPlace) : string := Str.or_empty (raw_id raw).

Definition _PRICE_LEVEL_MAP : list (string * Z) :=
  [ ("PRICE_LEVEL_FREE", 0%Z);
    ("PRICE_LEVEL_INEXPENSIVE", 1%Z);
    ("PRICE_LEVEL_MODERATE", 2%Z);
    ("PRICE_LEVEL_EXPENSIVE", 3%Z);
    ("PRICE_LEVEL_VERY_EXPENSIVE", 4%Z) ].

(** [d.get(k)] on a list of pairs. *)
Fixpoint lookup (k : string) (d : list (string * Z)) : option Z :=
  match d with
  | [] => None
  | (k', v) :: d' => if String.eqb k k' then Some v else lookup k d'
  end.

(** The canonical fields [_normalize_place] computes. *)
Record Normalized : Type := mkNormalized {
  n_place_id : string;
  n_name : string;
  n_formatted_address : option string;
  n_latitude : option Q;
  n_longitude : option Q;
  n_rating : option Q;
  n_user_ratings_total : option Z;
  n_formatted_phone_number : option string;
  n_website : option string;
  n_opening_hours : option OpeningHours;
  n_address_components : option (list string);
  n_types : option (list string);
  n_business_status : option string;
  n_price_level : option Z
}.

Definition _normalize_place (raw : RawPlace) : Normalized :=
  let opening_dict :=
    match regularOpeningHours raw with
    | Some (mkRawOpeningHours None None) | None => None
    | Some opening =>
        Some {| open_now := openNow opening;
                weekday_text :=
                  match weekdayDescriptions opening with
                  | Some l => l
                  | None => []
                  end |}
    end in
  let price_int :=
    if Str.truthy (priceLevel raw)
    then lookup (Str.or_empty (priceLevel raw)) _PRICE_LEVEL_MAP
    else None in
  {| n_place_id := get_id raw;
     n_name := Str.or_empty (displayName_text raw);
     n_formatted_address := formattedAddress raw;
     n_latitude := location_latitude raw;
     n_longitude := location_longitude raw;
     n_rating := raw_rating raw;
     n_user_ratings_total := userRatingCount raw;
     n_formatted_phone_number := nationalPhoneNumber raw;
     n_website := websiteUri raw;
     n_opening_hours := opening_dict;
     n_address_components := addressComponents raw;
     n_types := raw_types raw;
     n_business_status := businessStatus raw;
     n_price_level := price_int |}.

(** *** The provider, as the client sees it *)

(** The JSON body of a text search. *)
Record SearchBody : Type := mkSearchBody {
  body_error : option string;
  body_places : list RawPlace;
  nextPageToken : option string
}.

(** The JSON body of a details request: an error object or a place. *)
Inductive DetailsBody : Type :=
| DetailsError (message : string)
| DetailsPlace (raw : RawPlace).

(** The [location] argument: a text "lat,lng" that parses, or one that
    does not. *)
Inductive Location : Type :=
| LatLng (lat lng : Q)
| Unparseable (text : string).

(** The body of a text-search request. *)
Record Request : Type := mkRequest {
  textQuery : string;
  pageSize : Z;
  locationBias : option (Q * Q * Q);
  pageToken : option string
}.

(** The provider answers each attempt of each request. *)
Record Provider : Type := mkProvider {
  post_search : Request -> nat -> Transport SearchBody;
  get_details : string -> nat -> Transport DetailsBody
}.

Definition is_success (status_code : Z) : bool :=
  (200 <=? status_code)%Z && (status_code <=? 299)%Z.

(** The policy of both decorated calls. *)
Definition provider_policy (enrichment_max_retries : nat) : Policy :=
  {| stop_after_attempt := enrichment_max_retries;
     wait_multiplier := 1; wait_min := 2; wait_max := 30;
     retry_if_exception_type := [HTTPStatusError; ConnectError] |}.

(** *** [_text_search_page] *)

Definition search_request (query : string) (location : option Location)
           (radius : option Z) (page_token : option string) : Request :=
  {| textQuery := query;
     pageSize := 20;
     locationBias :=
       match location with
       | Some (LatLng lat lng) =>
           Some (lat, lng,
                 if Num.truthyZ radius then inject_Z (Num.or_zero radius)
                 else 5000.0)
       | Some (Unparseable _) | None => None
       end;
     pageToken := if Str.truthy page_token then page_token else None |}.

(** One attempt: the body of the decorated function. *)
Definition text_search_attempt (t : Transport SearchBody) : outcome SearchBody :=
  match t with
  | Failed e => Raised e
  | Responded status_code data =>
      if negb (is_success status_code)
      then Raised (mkExn HTTPStatusError "raise_for_status")
      else
        match body_error data with
        | Some error_msg => Raised (mkExn HTTPStatusError error_msg)
        | None => Returned data
        end
  end.

Definition _text_search_page (max_retries : nat) (provider : Provider)
           (query : string) (location : option Location) (radius : option Z)
           (page_token : option string) : Run SearchBody :=
  let request := search_request query location radius page_token in
  call (provider_policy max_retries)
       (fun attempt_number =>
          text_search_attempt (post_search provider request attempt_number)).

(** *** [text_search] *)

Fixpoint text_search_pages (max_retries : nat) (provider : Provider)
         (query : string) (location : option Location) (radius : option Z)
         (pages : nat) (page_token : option string)
         (all_results : list RawPlace) : outcome (list RawPlace) :=
  match pages with
  | O => Returned all_results
  | S pages' =>
      match result (_text_search_page max_retries provider query location
                                      radius page_token) with
      | Raised e => Raised e
      | Returned data =>
          let all_results := (all_results ++ body_places data)%list in
          let page_token := nextPageToken data in
          if Str.truthy page_token
          then text_search_pages max_retries provider query location radius
                                 pages' page_token all_results
          else Returned all_results
      end
  end.

Definition text_search (max_retries : nat) (provider : Provider)
           (query : string) (location : option Location) (radius : option Z)
           (max_pages : Z) : outcome (list RawPlace) :=
  text_search_pages max_retries provider query location radius
                    (Z.to_nat max_pages) None [].

(** *** [grid_search] *)

(** The tiling of the disc of radius [radius_km]: the number of cells
    along each axis and the radius of a cell.  [None] stands for the
    [ZeroDivisionError] of a zero radius. *)
Definition grid_plan (radius_km : Q) : option (Z * Q) :=
  let cell_radius_km := Num.min 2.0 radius_km in
  if Qeq_bool cell_radius_km 0 then None
  else
    let cells_per_axis := Z.max 1 (Num.ceil (radius_km / cell_radius_km)) in
    let cells_per_axis := Z.min cells_per_axis 5 in
    let cell_radius_km := radius_km / inject_Z cells_per_axis in
    Some (cells_per_axis, cell_radius_km).

(** The centers of the tiles, row by row.  [cos_lat] is
    [math.cos(math.radians(center_lat))]. *)
Definition grid_centers (center_lat center_lng cos_lat : Q)
           (cells_per_axis : Z) (cell_radius_km : Q) : option (list (Q * Q)) :=
  if Qeq_bool (111.32 * cos_lat) 0 then None
  else
    let lat_step := (cell_radius_km * 2) / 111.32 in
    let lng_step := (cell_radius_km * 2) / (111.32 * cos_lat) in
    let half := (inject_Z cells_per_axis - 1) / 2.0 in
    Some (flat_map
            (fun row =>
               map (fun col =>
                      (center_lat + (inject_Z row - half) * lat_step,
                       center_lng + (inject_Z col - half) * lng_step))
                   (Num.range cells_per_axis))
            (Num.range cells_per_axis)).

(** The radius of the request of a tile, in meters. *)
Definition cell_radius_m (cell_radius_km : Q) : Z :=
  Num.int (cell_radius_km * 1000 * 1.3).

(** The inner loop: keep the places with an id not seen yet. *)
Definition keep_new (state : list string * list RawPlace) (place : RawPlace)
  : list string * list RawPlace :=
  let (seen_ids, all_results) := state in
  let pid := get_id place in
  if Str.truthy (Some pid) && negb (existsb (String.eqb pid) seen_ids)
  then (pid :: seen_ids, (all_results ++ [place])%list)
  else state.

(** One sub-search, as [grid_search] issues it. *)
Record TileSearch : Type := mkTileSearch {
  tile_location : Location;
  tile_radius : Z;
  tile_max_pages : Z
}.

(** What [grid_search] did: the sub-searches, the progress reports
    [(current, total, unique)] and the places returned. *)
Record GridRun : Type := mkGridRun {
  tiles : list TileSearch;
  progress : list (Z * Z * Z);
  found : list RawPlace
}.

(** The loop over the tiles; a failing tile is skipped. *)
Fixpoint grid_tiles (max_retries : nat) (provider : Provider) (query : string)
         (radius : Z) (max_pages : Z) (total : Z)
         (centers : list (Q * Q)) (i : Z)
         (state : list string * list RawPlace) : GridRun :=
  match centers with
  | [] => mkGridRun [] [] (snd state)
  | (lat, lng) :: centers' =>
      let location := LatLng lat lng in
      let state :=
        match text_search max_retries provider query (Some location)
                          (Some radius) max_pages with
        | Returned results => fold_left keep_new results state
        | Raised _ => state
        end in
      let rest := grid_tiles max_retries provider query radius max_pages total
                             centers' (i + 1) state in
      mkGridRun (mkTileSearch location radius max_pages :: tiles rest)
                ((i + 1, total, Z.of_nat (List.length (snd state)))%Z
                   :: progress rest)
                (found rest)
  end.

Definition ZeroDivisionError : Exn := mkExn OtherException "ZeroDivisionError".

Definition grid_search (max_retries : nat) (provider : Provider)
           (query : string) (center_lat center_lng cos_lat radius_km : Q)
           (max_pages : Z) : outcome GridRun :=
  match grid_plan radius_km with
  | None => Raised ZeroDivisionError
  | Some (cells_per_axis, cell_radius_km) =>
      match grid_centers center_lat center_lng cos_lat cells_per_axis
                         cell_radius_km with
      | None => Raised ZeroDivisionError
      | Some centers =>
          Returned
            (grid_tiles max_retries provider query
                        (cell_radius_m cell_radius_km) max_pages
                        (Z.of_nat (List.length centers)) centers 0 ([], []))
      end
  end.

(** *** [get_place_details] *)

(** One attempt, given the cache of ids already fetched; an empty
    dictionary is [None]. *)
Definition details_attempt (cache : list string) (place_id : string)
           (t : Transport DetailsBody) : outcome (option RawPlace) :=
  if existsb (String.eqb place_id) cache then Returned None
  else
    match t with
    | Failed e => Raised e
    | Responded status_code data =>
        if negb (is_success status_code)
        then Raised (mkExn HTTPStatusError "raise_for_status")
        else
          match data with
          | DetailsError _ => Returned None
          | DetailsPlace raw => Returned (Some raw)
          end
    end.

(** The decorated call and the cache after it: the id is added when a
    place was fetched. *)
Definition get_place_details (max_retries : nat) (provider : Provider)
           (cache : list string) (place_id : string)
  : Run (option RawPlace) * list string :=
  let run :=
    call (provider_policy max_retries)
         (fun attempt_number =>
            details_attempt cache place_id
                            (get_details provider place_id attempt_number)) in
  (run,
   match result run with
   | Returned (Some _) => place_id :: cache
   | _ => cache
   end).

(** *** [upsert_places] *)

(** The table [places] with its sequence of ids. *)
Record Table : Type := mkTable {
  rows : list Place;
  next_id : Z
}.

(** [select(Place).where(Place.place_id == gp_id)] *)
Definition find_place (gp_id : string) (t : Table) : option Place :=
  find (fun p => String.eqb (place_id p) gp_id) (rows t).

(** [not d] for a place object: it has no key. *)
Definition is_empty_raw (raw : RawPlace) : bool :=
  match raw with
  | mkRawPlace None None None None None None None None None None None None
               None None => true
  | _ => false
  end.

(** The row [INSERT] writes when the id is new. *)
Definition inserted_row (id : Z) (gp_id : string) (details : Normalized)
           (search_query search_location : option string) (now : Z) : Place :=
  {| row_id := id;
     place_id := gp_id;
     name := Some (n_name details);
     formatted_address := n_formatted_address details;
     latitude := n_latitude details;
     longitude := n_longitude details;
     rating := n_rating details;
     user_ratings_total := n_user_ratings_total details;
     formatted_phone_number := n_formatted_phone_number details;
     website := n_website details;
     opening_hours := n_opening_hours details;
     address_components := n_address_components details;
     types := n_types details;
     business_status := n_business_status details;
     price_level := n_price_level details;
     classification := None;
     classification_confidence := None;
     location_score := None;
     competitor_density := None;
     search_query := search_query;
     search_location := search_location;
     created_at := Some now;
     updated_at := Some now;
     enriched_at := None;
     emails := [] |}.

(** The row [ON CONFLICT DO UPDATE SET ...] leaves in place of [old]. *)
Definition updated_row (old : Place) (details : Normalized) (now : Z) : Place :=
  {| row_id := row_id old;
     place_id := place_id old;
     name := Some (n_name details);
     formatted_address := n_formatted_address details;
     latitude := n_latitude details;
     longitude := n_longitude details;
     rating := n_rating details;
     user_ratings_total := n_user_ratings_total details;
     formatted_phone_number := n_formatted_phone_number details;
     website := n_website details;
     opening_hours := n_opening_hours details;
     address_components := n_address_components details;
     types := n_types details;
     business_status := n_business_status details;
     price_level := n_price_level details;
     classification := classification old;
     classification_confidence := classification_confidence old;
     location_score := location_score old;
     competitor_density := competitor_density old;
     search_query := search_query old;
     search_location := search_location old;
     created_at := created_at old;
     updated_at := Some now;
     enriched_at := enriched_at old;
     emails := emails old |}.

(** [INSERT ... ON CONFLICT (place_id) DO UPDATE ... RETURNING id] *)
Definition pg_upsert (t : Table) (gp_id : string) (details : Normalized)
           (search_query search_location : option string) (now : Z)
  : Table * Z :=
  match find_place gp_id t with
  | Some old =>
      (mkTable
         (map (fun p => if String.eqb (place_id p) gp_id
                        then updated_row p details now else p)
              (rows t))
         (next_id t),
       row_id old)
  | None =>
      (mkTable
         (rows t ++ [inserted_row (next_id t) gp_id details search_query
                                  search_location now])%list
         (next_id t + 1)%Z,
       next_id t)
  end.

(** The state of the loop: the table, the cache of fetched ids and the
    ids of the places met so far. *)
Record Ingest : Type := mkIngest {
  table : Table;
  cache : list string;
  ids : list Z
}.

(** The body of the loop of [upsert_places]. *)
Definition upsert_one (max_retries : nat) (provider : Provider)
           (search_query : string) (search_location : option string) (now : Z)
           (st : Ingest) (raw : RawPlace) : Ingest :=
  let gp_id := get_id raw in
  if negb (Str.truthy (Some gp_id)) then st
  else
    match find_place gp_id (table st) with
    | Some existing_place =>
        mkIngest (table st) (cache st) (ids st ++ [row_id existing_place])%list
    | None =>
        let (run, cache') :=
          get_place_details max_retries provider (cache st) gp_id in
        let details_raw :=
          match result run with
          | Returned (Some d) => if is_empty_raw d then raw else d
          | Returned None => raw
          | Raised _ => raw
          end in
        let details := _normalize_place details_raw in
        let (table', place_id_db) :=
          pg_upsert (table st) gp_id details (Some search_query)
                    search_location now in
        mkIngest table' cache' (ids st ++ [place_id_db])%list
    end.

(** [select(Place).where(Place.id.in_(ids))] *)
Definition select_in (ids : list Z) (t : Table) : list Place :=
  filter (fun p => existsb (Z.eqb (row_id p)) ids) (rows t).

(** The table and the cache after the call, and the places returned. *)
Definition upsert_places (max_retries : nat) (provider : Provider)
           (t : Table) (cache : list string) (raw_results : list RawPlace)
           (search_query : string) (search_location : option string) (now : Z)
  : Table * list string * list Place :=
  let st :=
    fold_left (upsert_one max_retries provider search_query search_location now)
              raw_results (mkIngest t cache []) in
  (table st, PlacesClient.cache st, select_in (ids st) (table st)).

(** *** The retry policy of the provider calls, as a property of a run *)

(** The exceptions the policy retries. *)
Definition retried (e : Exn) : Prop :=
  cls e = HTTPStatusError \/ cls e = ConnectError.

(** The pause after attempt [k]: [2 ** (k - 1)] seconds, kept between 2
    and 30. *)
Definition backoff (k : nat) : Z := Z.max 2 (Z.min (2 ^ Z.of_nat (k - 1)) 30).

(** [r] is the run of the attempts [f] under the policy: it stops at the
    first attempt that returns, or raises an exception that is not
    retried, or is attempt number [max_retries]; it gives the outcome of
    that attempt, and it paused after each attempt before. *)
Definition obeys_policy {A : Type} (max_retries : nat) (f : nat -> outcome A)
           (r : Run A) : Prop :=
  (1 <= attempts r <= Nat.max 1 max_retries)%nat /\
  result r = f (attempts r) /\
  (forall k, (1 <= k < attempts r)%nat -> exists e, f k = Raised e /\ retried e) /\
  (forall e, result r = Raised e -> retried e ->
             attempts r = Nat.max 1 max_retries) /\
  sleeps r = map backoff (seq 1 (attempts r - 1)).

(** A provider that answers every request with the same thing. *)
Definition constant_provider (s : Transport SearchBody)
           (d : Transport DetailsBody) : Provider :=
  {| post_search := fun _ _ => s; get_details := fun _ _ => d |}.

(** One that answers 404 Not Found. *)
Definition provider_404 : Provider :=
  constant_provider (Responded 404 (mkSearchBody None [] None))
                    (Responded 404 (DetailsError "Not Found")).

(** One that never answers in time. *)
Definition provider_timeout : Provider :=
  constant_provider (Failed (mkExn ReadTimeout "timed out"))
                    (Failed (mkExn ReadTimeout "timed out")).

(** The ids seen are those of the places kept, each once and none empty. *)
Definition deduplicated (state : list string * list RawPlace) : Prop :=
  NoDup (map get_id (snd state)) /\
  (forall p, In p (snd state) -> get_id p <> ""%string) /\
  (forall id, In id (fst state) <-> In id (map get_id (snd state))).

(** *** Ingestion, as a property of a table *)

(** No two rows of the table have the same external id. *)
Definition unique_ids (t : Table) : Prop := NoDup (map place_id (rows t)).

(** The columns the [ON CONFLICT] clause does not list are those of the
    old row. *)
Definition same_fixed_columns (p' p : Place) : Prop :=
  row_id p' = row_id p /\
  place_id p' = place_id p /\
  created_at p' = created_at p /\
  search_query p' = search_query p /\
  search_location p' = search_location p /\
  classification p' = classification p /\
  classification_confidence p' = classification_confidence p /\
  location_score p' = location_score p /\
  competitor_density p' = competitor_density p /\
  enriched_at p' = enriched_at p /\
  emails p' = emails p.

(** A provider record for a cafe, and a table that holds it. *)
Definition sample_raw (id name : string) : RawPlace :=
  {| raw_id := Some id; displayName_text := Some name;
     formattedAddress := Some "Marina Walk, Dubai";
     location_latitude := Some 25.08; location_longitude := Some 55.14;
     raw_rating := Some 4.5; userRatingCount := Some 120%Z;
     nationalPhoneNumber := None; websiteUri := None;
     regularOpeningHours := None; addressComponents := None;
     raw_types := Some ["cafe"]; businessStatus := Some "OPERATIONAL";
     priceLevel := Some "PRICE_LEVEL_MODERATE" |}.

Definition sample_table : Table :=
  fst (pg_upsert (mkTable [] 1) "ChIJ1"
                 (_normalize_place (sample_raw "ChIJ1" "Marina Cafe"))
                 (Some "cafes in Dubai") None 1000).

(** A provider with one cafe: a single page of results, and its details. *)
Definition provider_one_cafe : Provider :=
  constant_provider
    (Responded 200 (mkSearchBody None [sample_raw "ChIJ1" "Marina Cafe"] None))
    (Responded 200 (DetailsPlace (sample_raw "ChIJ1" "Marina Cafe"))).

End PlacesClient.

(** * Properties *)


(** ** Numbers *)

Module NumFacts.
Open Scope Q_scope.

Lemma max_Qmax (a b : Q) : Num.max a b == Qmax a b.
Proof.
  unfold Num.max. destruct (Qlt_le_dec a b) as [H|H].
  - symmetry. apply Q.max_r. apply Qlt_le_weak, H.
  - symmetry. apply Q.max_l, H.
Qed.

Lemma min_Qmin (a b : Q) : Num.min a b == Qmin a b.
Proof.
  unfold Num.min. destruct (Qlt_le_dec b a) as [H|H].
  - symmetry. apply Q.min_r. apply Qlt_le_weak, H.
  - symmetry. apply Q.min_l, H.
Qed.

#[export] Instance round_half_even_comp : Proper (Qeq ==> eq) Num.round_half_even.
Proof.
  intros x y E. unfold Num.round_half_even.
  rewrite (Qfloor_comp _ _ E).
  assert (C : Qcompare (x - inject_Z (Qfloor y)) (1 # 2)
              = Qcompare (y - inject_Z (Qfloor y)) (1 # 2))
    by (rewrite E; reflexivity).
  rewrite C. reflexivity.
Qed.

#[export] Instance round_comp : Proper (Qeq ==> eq ==> Qeq) Num.round.
Proof.
  intros x y E n m <-. unfold Num.round.
  assert (R : Num.round_half_even (x * inject_Z (10 ^ Z.of_nat n))
            = Num.round_half_even (y * inject_Z (10 ^ Z.of_nat n)))
    by (rewrite E; reflexivity).
  rewrite R. reflexivity.
Qed.

Lemma range_length (n : Z) : List.length (Num.range n) = Z.to_nat n.
Proof. unfold Num.range. rewrite length_map, length_seq. reflexivity. Qed.

Lemma flat_map_length_const {A B : Type} (f : A -> list B) (l : list A) (k : nat) :
  (forall a, List.length (f a) = k) ->
  List.length (flat_map f l) = (List.length l * k)%nat.
Proof.
  intros H. induction l as [|a l IH]; simpl; [reflexivity|].
  rewrite length_app, H, IH. reflexivity.
Qed.

End NumFacts.

(** ** The classifier *)

Module ClassifierFacts.
Import Models Classifier NumFacts.
Open Scope Q_scope.

Lemma all_bool_spec (f : bool -> bool) :
  all_bool f = true -> forall b, f b = true.
Proof.
  unfold all_bool. intros H b. apply andb_true_iff in H.
  destruct H, b; assumption.
Qed.

(** [classify] is the walk over the outcomes of its own tests. *)
Lemma classify_walk (place : Place) :
  exists brand reviewed r1000 r500 r100 chain site ind tld priced bt lt w3 w6,
    classify place =
    outcome (walk brand reviewed r1000 r500 r100 chain site ind tld
                  priced bt lt w3 w6).
Proof. do 14 eexists. reflexivity. Qed.

(** Every combination of outcomes gives a well-formed result. *)
Lemma walk_well_formed :
  all_bool (fun b1 => all_bool (fun b2 => all_bool (fun b3 =>
  all_bool (fun b4 => all_bool (fun b5 => all_bool (fun b6 =>
  all_bool (fun b7 => all_bool (fun b8 => all_bool (fun b9 =>
  all_bool (fun b10 => all_bool (fun b11 => all_bool (fun b12 =>
  all_bool (fun b13 => all_bool (fun b14 =>
    well_formed
      (outcome (walk b1 b2 b3 b4 b5 b6 b7 b8 b9 b10 b11 b12 b13 b14))
  )))))))))))))) = true.
Proof. vm_compute. reflexivity. Qed.

Lemma classify_well_formed (place : Place) :
  well_formed (classify place) = true.
Proof.
  destruct (classify_walk place)
    as (b1 & b2 & b3 & b4 & b5 & b6 & b7 & b8 & b9 & b10 & b11 & b12 &
        b13 & b14 & ->).
  pose proof walk_well_formed as H.
  apply (all_bool_spec _ (all_bool_spec _ (all_bool_spec _ (all_bool_spec _
        (all_bool_spec _ (all_bool_spec _ (all_bool_spec _ (all_bool_spec _
        (all_bool_spec _ (all_bool_spec _ (all_bool_spec _ (all_bool_spec _
        (all_bool_spec _ (all_bool_spec _ H b1) b2) b3) b4) b5) b6) b7) b8)
         b9) b10) b11) b12) b13) b14).
Qed.

Lemma well_formed_spec (label : string) (confidence : Q) :
  well_formed (label, confidence) = true ->
  0 <= confidence <= 1 /\
  (label = "brand" \/ label = "local") /\
  (label = "brand" <-> 0.30 <= confidence).
Proof.
  unfold well_formed. intros H.
  apply andb_true_iff in H as [H Hiff].
  apply andb_true_iff in H as [H Hlab].
  apply andb_true_iff in H as [H0 H1].
  apply Qle_bool_iff in H0, H1.
  apply eqb_prop in Hiff.
  repeat split; try assumption.
  - apply orb_true_iff in Hlab as [E|E]; apply String.eqb_eq in E; auto.
  - intros ->. apply Qle_bool_iff. rewrite <- Hiff. reflexivity.
  - intros L. apply Qle_bool_iff in L. rewrite <- Hiff in L.
    apply String.eqb_eq, L.
Qed.

(** C1.  For every listing, [classify] returns a confidence between 0 and
    1, which is [clamp(score / 3.45, 0, 1)] rounded to three decimals, and
    a label that is "brand" or "local"; the label is "brand" exactly when
    the returned confidence is at least 0.30. *)
Theorem classify_confidence_label (place : Place) :
  let (label, confidence) := classify place in
  0 <= confidence <= 1 /\
  confidence == Num.round (Qmax 0 (Qmin 1 (classify_score place / 3.45))) 3 /\
  (label = "brand" \/ label = "local") /\
  (label = "brand" <-> 0.30 <= confidence).
Proof.
  pose proof (classify_well_formed place) as W.
  destruct (classify place) as [label confidence] eqn:E.
  apply well_formed_spec in W. destruct W as (R & L & I).
  split; [exact R|]. split; [|split; assumption].
  unfold classify in E. injection E as _ <-.
  unfold raw_confidence, max_possible.
  rewrite max_Qmax, min_Qmin.
  assert (E0 : 0.0 == 0) by reflexivity.
  assert (E1 : 1.0 == 1) by reflexivity.
  rewrite E0, E1. reflexivity.
Qed.

(** The cases of [tests/test_services.py]. *)
Example classify_known_brand :
  classify (test_place (Some "McDonald's Dubai Marina") (Some 5000%Z)
                       (Some "https://mcdonalds.com") [])
  = ("brand", 0.638).
Proof. vm_compute. reflexivity. Qed.

Example classify_local_shop :
  fst (classify (test_place (Some "Ahmed's Shawarma Corner") (Some 15%Z)
                            None ["cafe"])) = "local".
Proof. vm_compute. reflexivity. Qed.

Example classify_no_data :
  fst (classify (test_place (Some "Unknown Place") None None [])) = "local".
Proof. vm_compute. reflexivity. Qed.

End ClassifierFacts.

(** ** Strings and the matcher *)

Module StrFacts.

Lemma append_nil_r (s : string) : (s ++ "")%string = s.
Proof. induction s; simpl; congruence. Qed.

Lemma append_assoc (a b c : string) :
  ((a ++ b) ++ c)%string = (a ++ (b ++ c))%string.
Proof. induction a; simpl; congruence. Qed.

Lemma length_append (a b : string) :
  String.length (a ++ b) = (String.length a + String.length b)%nat.
Proof. induction a; simpl; congruence. Qed.

Lemma take_append (a b : string) : Str.take (String.length a) (a ++ b) = a.
Proof.
  unfold Str.take. induction a as [|c a IH]; simpl.
  - destruct b; reflexivity.
  - rewrite IH. reflexivity.
Qed.

Lemma lower_append (a b : string) :
  Str.lower (a ++ b) = (Str.lower a ++ Str.lower b)%string.
Proof. induction a; simpl; congruence. Qed.

Lemma forall_chars_append (p : ascii -> bool) (a b : string) :
  Str.forall_chars p (a ++ b) = Str.forall_chars p a && Str.forall_chars p b.
Proof.
  induction a as [|c a IH]; simpl; [reflexivity|].
  rewrite IH, andb_assoc. reflexivity.
Qed.

Lemma forall_chars_impl (p q : ascii -> bool) (s : string) :
  (forall c, p c = true -> q c = true) ->
  Str.forall_chars p s = true -> Str.forall_chars q s = true.
Proof.
  intros I. induction s as [|c s IH]; simpl; [reflexivity|].
  intros H. apply andb_true_iff in H as [H1 H2].
  rewrite (I _ H1), (IH H2). reflexivity.
Qed.

Lemma lower_ascii_not_at (c : ascii) :
  Str.not_at c = true -> Str.not_at (Str.lower_ascii c) = true.
Proof.
  destruct c as [[] [] [] [] [] [] [] []]; vm_compute; congruence.
Qed.

Lemma lower_ascii_is_at (c : ascii) :
  Str.lower_ascii c = "@"%char -> c = "@"%char.
Proof.
  destruct c as [[] [] [] [] [] [] [] []]; vm_compute; congruence.
Qed.

Lemma lower_ascii_is_dot (c : ascii) :
  Str.lower_ascii c = "."%char -> c = "."%char.
Proof.
  destruct c as [[] [] [] [] [] [] [] []]; vm_compute; congruence.
Qed.

Lemma lower_not_at (s : string) :
  Str.forall_chars Str.not_at s = true ->
  Str.forall_chars Str.not_at (Str.lower s) = true.
Proof.
  induction s as [|c s IH]; simpl; [reflexivity|].
  intros H. apply andb_true_iff in H as [H1 H2].
  rewrite (lower_ascii_not_at _ H1), (IH H2). reflexivity.
Qed.

(** ["@" in s] *)
Lemma contains_at (s : string) :
  Str.contains "@" s = negb (Str.forall_chars Str.not_at s).
Proof.
  induction s as [|x s IH]; [reflexivity|].
  cbn [Str.contains Str.forall_chars prefix].
  rewrite IH.
  destruct (ascii_dec "@" x) as [<-|N].
  - destruct s; reflexivity.
  - assert (E : Str.not_at x = true).
    { unfold Str.not_at. apply negb_true_iff, Ascii.eqb_neq. congruence. }
    rewrite E. reflexivity.
Qed.

(** The text after the "@" of [l ++ "@" ++ d], when [l] has none. *)
Lemma split_second_at (l d : string) :
  Str.forall_chars Str.not_at l = true ->
  Str.forall_chars Str.not_at d = true ->
  Str.split_second "@" (l ++ "@" ++ d) = d.
Proof.
  intros Hl Hd. induction l as [|c l IH]; simpl in *.
  - clear Hl. induction d as [|c d IH]; simpl in *; [reflexivity|].
    apply andb_true_iff in Hd as [H1 H2]. unfold Str.not_at in H1.
    apply negb_true_iff in H1. rewrite H1, (IH H2). reflexivity.
  - apply andb_true_iff in Hl as [H1 H2]. unfold Str.not_at in H1.
    apply negb_true_iff in H1. rewrite H1. apply IH, H2.
Qed.

End StrFacts.

Module ReFacts.
Import StrFacts.

Lemma strip_ci_spec (l s s' : string) :
  Re.strip_ci l s = Some s' ->
  exists m, s = (m ++ s')%string /\ Str.lower m = Str.lower l.
Proof.
  revert s. induction l as [|a l IH]; intros s H; simpl in H.
  - injection H as <-. exists ""%string. split; reflexivity.
  - destruct s as [|b s]; [discriminate|].
    destruct (Ascii.eqb _ _) eqn:E; [|discriminate].
    apply Ascii.eqb_eq in E.
    destruct (IH _ H) as (m & -> & L).
    exists (String b m). simpl. rewrite L, E. split; reflexivity.
Qed.

Lemma rep_spec (p : ascii -> bool) (min : nat) (s : string)
      (k : string -> option string) (r : string) :
  Re.rep p min s k = Some r ->
  exists m s', s = (m ++ s')%string /\ Str.forall_chars p m = true /\
               k s' = Some r.
Proof.
  revert min. induction s as [|c s IH]; intros min H; simpl in H.
  - destruct (min =? 0)%nat; [|discriminate].
    exists ""%string, ""%string. repeat split; assumption.
  - assert (Stop : (if (min =? 0)%nat then k (String c s) else None) = Some r ->
                   exists m s', String c s = (m ++ s')%string /\
                     Str.forall_chars p m = true /\ k s' = Some r).
    { destruct (min =? 0)%nat; [|discriminate]. intros K.
      exists ""%string, (String c s). repeat split; assumption. }
    destruct (p c) eqn:P; [|exact (Stop H)].
    destruct (Re.rep p (Nat.pred min) s k) eqn:R; [|exact (Stop H)].
    injection H as ->.
    destruct (IH _ R) as (m & s' & -> & A & K).
    exists (String c m), s'. simpl. rewrite P, A. repeat split; assumption.
Qed.

(** The matches of a pattern found by [findall] are matches at some
    position. *)
Lemma findall_from_spec (r : Re.re) (s : string) (skip : nat) (m : string) :
  In m (Re.findall_from r s skip) ->
  exists s' rest, Re.match_at r s' = Some rest /\
    m = Str.take (String.length s' - String.length rest) s'.
Proof.
  revert skip. induction s as [|c s IH]; intros skip H.
  - destruct skip; simpl in H; [|contradiction].
    destruct (Re.match_at r "") as [rest|] eqn:M; [|contradiction].
    destruct H as [<-|[]]. exists ""%string, rest. split; [exact M|reflexivity].
  - destruct skip; simpl in H; [|exact (IH _ H)].
    destruct (Re.match_at r (String c s)) as [rest|] eqn:M; [|exact (IH _ H)].
    destruct H as [<-|H]; [|exact (IH _ H)].
    exists (String c s), rest. split; [exact M|reflexivity].
Qed.

End ReFacts.
(** ** Email extraction *)

Module EmailFacts.
Import Enrichment StrFacts ReFacts.

Lemma local_char_not_at (c : ascii) : local_char c = true -> Str.not_at c = true.
Proof. destruct c as [[] [] [] [] [] [] [] []]; vm_compute; congruence. Qed.

Lemma domain_char_not_at (c : ascii) : domain_char c = true -> Str.not_at c = true.
Proof. destruct c as [[] [] [] [] [] [] [] []]; vm_compute; congruence. Qed.

Lemma is_alpha_not_at (c : ascii) : Str.is_alpha c = true -> Str.not_at c = true.
Proof. destruct c as [[] [] [] [] [] [] [] []]; vm_compute; congruence. Qed.

Lemma lower_one_char (m : string) (c : ascii) :
  Str.lower m = String c "" -> exists b, m = String b "" /\ Str.lower_ascii b = c.
Proof.
  destruct m as [|b [|b' m]]; simpl; intros H; try discriminate.
  injection H as H. exists b. split; [reflexivity|exact H].
Qed.

(** A match of [EMAIL_REGEX] has exactly one "@". *)
Lemma email_match_shape (s rest : string) :
  Re.match_at EMAIL_REGEX s = Some rest ->
  exists l d, s = ((l ++ "@" ++ d) ++ rest)%string /\
    Str.forall_chars Str.not_at l = true /\
    Str.forall_chars Str.not_at d = true.
Proof.
  unfold Re.match_at, EMAIL_REGEX. cbn [Re.run]. intros H.
  apply rep_spec in H as (L & s1 & -> & HL & H).
  destruct (Re.strip_ci "@" s1) as [s2|] eqn:E1; [|discriminate].
  apply strip_ci_spec in E1 as (A & -> & EA).
  apply lower_one_char in EA as (a & -> & Ea). apply lower_ascii_is_at in Ea as ->.
  apply rep_spec in H as (D & s3 & -> & HD & H).
  destruct (Re.strip_ci "." s3) as [s4|] eqn:E2; [|discriminate].
  apply strip_ci_spec in E2 as (X & -> & EX).
  apply lower_one_char in EX as (x & -> & Ex). apply lower_ascii_is_dot in Ex as ->.
  apply rep_spec in H as (T & s5 & -> & HT & H).
  injection H as ->.
  exists L, (D ++ "." ++ T)%string. split; [|split].
  - rewrite !append_assoc. reflexivity.
  - exact (forall_chars_impl _ _ _ local_char_not_at HL).
  - rewrite !forall_chars_append.
    rewrite (forall_chars_impl _ _ _ domain_char_not_at HD).
    rewrite (forall_chars_impl _ _ _ is_alpha_not_at HT). reflexivity.
Qed.

Lemma email_findall_shape (html m : string) :
  In m (Re.findall EMAIL_REGEX html) ->
  exists l d, m = (l ++ "@" ++ d)%string /\
    Str.forall_chars Str.not_at l = true /\
    Str.forall_chars Str.not_at d = true.
Proof.
  intros H. apply findall_from_spec in H as (s & rest & M & ->).
  apply email_match_shape in M as (l & d & -> & Hl & Hd).
  exists l, d. split; [|split; assumption].
  rewrite length_append, Nat.add_sub. apply take_append.
Qed.

(** A lowered match, cut at its "@". *)
Lemma lowered_match_shape (html m : string) :
  In m (Re.findall EMAIL_REGEX html) ->
  exists l d, Str.lower m = (l ++ "@" ++ d)%string /\
    Str.forall_chars Str.not_at l = true /\
    Str.forall_chars Str.not_at d = true.
Proof.
  intros H. apply email_findall_shape in H as (l & d & -> & Hl & Hd).
  exists (Str.lower l), (Str.lower d).
  rewrite !lower_append. split; [reflexivity|].
  split; apply lower_not_at; assumption.
Qed.

(** *** Sets as lists without repetition *)

Lemma set_mem_In (x : string) (s : list string) :
  set_mem x s = true <-> In x s.
Proof.
  unfold set_mem. rewrite existsb_exists. split.
  - intros (y & I & E). apply String.eqb_eq in E. subst. exact I.
  - intros I. exists x. split; [exact I|apply String.eqb_refl].
Qed.

Lemma set_add_In (x y : string) (s : list string) :
  In x (set_add y s) <-> x = y \/ In x s.
Proof.
  unfold set_add. destruct (set_mem y s) eqn:M.
  - apply set_mem_In in M. split; [auto|]. intros [->|]; assumption.
  - rewrite in_app_iff. simpl. intuition.
Qed.

Lemma set_add_NoDup (y : string) (s : list string) :
  NoDup s -> NoDup (set_add y s).
Proof.
  intros N. unfold set_add. destruct (set_mem y s) eqn:M; [exact N|].
  apply NoDup_app; [exact N|repeat constructor; intros []|].
  intros a I [<-|[]]. apply set_mem_In in I. congruence.
Qed.

Lemma set_of_from_In (l acc : list string) (x : string) :
  In x (fold_left (fun s x => set_add x s) l acc) <-> In x acc \/ In x l.
Proof.
  revert acc. induction l as [|y l IH]; intros acc; simpl; [intuition|].
  rewrite IH, set_add_In. intuition.
Qed.

Lemma set_of_In (l : list string) (x : string) : In x (set_of l) <-> In x l.
Proof. unfold set_of. rewrite set_of_from_In. simpl. intuition. Qed.

(** *** The loop of [_extract_emails] *)

Lemma clean_step_In (cleaned : list string) (email e : string) :
  In e (clean_step cleaned email) <->
  In e cleaned \/ (e = Str.lower email /\ kept (Str.lower email)).
Proof.
  unfold clean_step, kept. cbv zeta.
  destruct (existsb _ image_extensions).
  - intuition discriminate.
  - destruct (existsb _ EXCLUDED_EMAIL_PATTERNS).
    + intuition discriminate.
    + rewrite set_add_In. intuition.
Qed.

Lemma clean_step_NoDup (cleaned : list string) (email : string) :
  NoDup cleaned -> NoDup (clean_step cleaned email).
Proof.
  intros N. unfold clean_step. cbv zeta.
  destruct (existsb _ image_extensions); [exact N|].
  destruct (existsb _ EXCLUDED_EMAIL_PATTERNS); [exact N|].
  apply set_add_NoDup, N.
Qed.

Lemma clean_loop_In (raw acc : list string) (e : string) :
  In e (fold_left clean_step raw acc) <->
  In e acc \/ exists m, In m raw /\ e = Str.lower m /\ kept (Str.lower m).
Proof.
  revert acc. induction raw as [|x raw IH]; intros acc; simpl.
  - split; [auto|]. intros [H|(m & [] & _)]. exact H.
  - rewrite IH, clean_step_In. split.
    + intros [[H|(-> & K)]|(m & I & E & K)]; eauto 6.
    + intros [H|(m & [<-|I] & E & K)]; eauto 6.
Qed.

Lemma clean_loop_NoDup (raw acc : list string) :
  NoDup acc -> NoDup (fold_left clean_step raw acc).
Proof.
  revert acc. induction raw as [|x raw IH]; intros acc N; simpl; [exact N|].
  apply IH, clean_step_NoDup, N.
Qed.

(** What the code returns, in the terms of the code. *)
Lemma extract_emails_In (html e : string) :
  In e (_extract_emails html) <->
  exists m, In m (Re.findall EMAIL_REGEX html) /\ e = Str.lower m /\
            kept (Str.lower m).
Proof.
  unfold _extract_emails. cbv zeta. rewrite clean_loop_In. split.
  - intros [[]|(m & I & E & K)]. rewrite set_of_In in I.
    exists m. split; [exact I|split; [exact E|exact K]].
  - intros (m & I & E & K). right. exists m. rewrite set_of_In.
    split; [exact I|split; [exact E|exact K]].
Qed.

End EmailFacts.

Module EmailClaims.
Import Enrichment StrFacts ReFacts EmailFacts.

Lemma image_test_spec (e : string) :
  existsb (fun ext => Str.endswith e ext) image_extensions = false <->
  ~ ends_in_image_extension e.
Proof.
  unfold ends_in_image_extension. rewrite <- not_true_iff_false, existsb_exists.
  reflexivity.
Qed.

(** The domain the code computes is the text after the "@". *)
Lemma code_domain (l d : string) :
  Str.forall_chars Str.not_at l = true ->
  Str.forall_chars Str.not_at d = true ->
  (if Str.contains "@" (l ++ "@" ++ d)
   then Str.split_second "@" (l ++ "@" ++ d) else "") = d.
Proof.
  intros Hl Hd. rewrite contains_at, forall_chars_append. simpl.
  rewrite andb_false_r. simpl. apply split_second_at; assumption.
Qed.

Lemma is_domain_of_unique (l d e dom : string) :
  Str.forall_chars Str.not_at l = true ->
  Str.forall_chars Str.not_at d = true ->
  e = (l ++ "@" ++ d)%string ->
  is_domain_of e dom <-> dom = d.
Proof.
  intros Hl Hd ->. split.
  - intros (l' & E & Hl' & Hd').
    rewrite contains_at in Hl', Hd'. apply negb_false_iff in Hl', Hd'.
    rewrite <- (split_second_at l d Hl Hd), E.
    symmetry. apply split_second_at; assumption.
  - intros ->. exists l. rewrite !contains_at, Hl, Hd. repeat split.
Qed.

Lemma domain_test_spec (l d e : string) :
  Str.forall_chars Str.not_at l = true ->
  Str.forall_chars Str.not_at d = true ->
  e = (l ++ "@" ++ d)%string ->
  existsb (fun exc =>
             Str.contains exc
               (if Str.contains "@" e then Str.split_second "@" e else ""))
          EXCLUDED_EMAIL_PATTERNS = false <->
  ~ domain_excluded e.
Proof.
  intros Hl Hd E. subst e. rewrite code_domain by assumption.
  rewrite <- not_true_iff_false, existsb_exists.
  unfold domain_excluded. split; intros N C; apply N; clear N.
  - destruct C as (dom & exc & D & I & C).
    apply (is_domain_of_unique l d _ dom Hl Hd eq_refl) in D. subst dom.
    exists exc. split; assumption.
  - destruct C as (exc & I & C). exists d, exc. split; [|split; assumption].
    apply (is_domain_of_unique l d _ d Hl Hd eq_refl). reflexivity.
Qed.

Lemma kept_spec (html m : string) :
  In m (Re.findall EMAIL_REGEX html) ->
  kept (Str.lower m) <->
  ~ ends_in_image_extension (Str.lower m) /\ ~ domain_excluded (Str.lower m).
Proof.
  intros I. destruct (lowered_match_shape _ _ I) as (l & d & E & Hl & Hd).
  unfold kept. rewrite image_test_spec, (domain_test_spec l d _ Hl Hd E).
  reflexivity.
Qed.

(** What the code returns, in the words of the claims. *)
Lemma extract_emails_expected (html address : string) :
  In address (_extract_emails html) <-> expected_email html address.
Proof.
  rewrite extract_emails_In. unfold expected_email. split.
  - intros (m & I & -> & K). apply (kept_spec _ _ I) in K.
    split; [exists m; split; [exact I|reflexivity]|exact K].
  - intros ((m & I & ->) & K). exists m. split; [exact I|split; [reflexivity|]].
    apply (kept_spec _ _ I). exact K.
Qed.

Lemma extract_emails_NoDup (html : string) : NoDup (_extract_emails html).
Proof. unfold _extract_emails. apply clean_loop_NoDup. constructor. Qed.


(** C10.  An address found in the page is dropped as soon as an entry of
    the exclusion list occurs somewhere in its domain, be the domain
    itself in the list or not. *)
Theorem excluded_by_substring (html m domain exc : string) :
  In m (Re.findall EMAIL_REGEX html) ->
  is_domain_of (Str.lower m) domain ->
  In exc EXCLUDED_EMAIL_PATTERNS ->
  Str.contains exc domain = true ->
  ~ In (Str.lower m) (_extract_emails html).
Proof.
  intros I D X C H.
  apply extract_emails_expected in H. destruct H as (_ & _ & N).
  apply N. exists domain, exc. split; [exact D|split; assumption].
Qed.

Lemma excluded_by_substring_witness :
  ~ In "user@mail.example.com"
       (_extract_emails "user@mail.example.com admin@sub.test.com") /\
  ~ In "mail.example.com" EXCLUDED_EMAIL_PATTERNS.
Proof.
  split.
  - apply (excluded_by_substring
             "user@mail.example.com admin@sub.test.com"
             "user@mail.example.com" "mail.example.com" "example.com").
    + vm_compute. left. reflexivity.
    + exists "user". repeat split.
    + vm_compute. left. reflexivity.
    + reflexivity.
  - vm_compute. intuition discriminate.
Defined.

(** The cases of [tests/test_services.py], and two of substring
    exclusion. *)
Example extract_basic :
  _extract_emails "<p>Contact us at info@restaurant.ae or sales@shop.com</p>"
  = ["info@restaurant.ae"; "sales@shop.com"].
Proof. vm_compute. reflexivity. Qed.

Example extract_example_domain :
  _extract_emails "<p>user@example.com and real@mybusiness.ae</p>"
  = ["real@mybusiness.ae"].
Proof. vm_compute. reflexivity. Qed.

Example extract_case_variants :
  _extract_emails "<p>info@shop.com info@shop.com INFO@SHOP.COM</p>"
  = ["info@shop.com"].
Proof. vm_compute. reflexivity. Qed.

Example extract_subdomains :
  _extract_emails "user@mail.example.com admin@sub.test.com bob@contest.com"
  = [].
Proof. vm_compute. reflexivity. Qed.

End EmailClaims.

(** ** The demand score *)

Module ScoringFacts.
Import Models Scoring.
Open Scope R_scope.

Lemma round_half_even_bounds (x : R) :
  (Zfloor x <= round_half_even x <= Zfloor x + 1)%Z.
Proof.
  unfold round_half_even.
  destruct (Rlt_dec _ _); [lia|].
  destruct (Rlt_dec _ _); [lia|].
  destruct (Z.even _); lia.
Qed.

Lemma round_half_even_le (x y : R) :
  x <= y -> (round_half_even x <= round_half_even y)%Z.
Proof.
  intros L. pose proof (Zfloor_le _ _ L) as F.
  destruct (Z.eq_dec (Zfloor x) (Zfloor y)) as [E|N].
  - unfold round_half_even. rewrite E.
    destruct (Rlt_dec (x - IZR (Zfloor y)) (1 / 2)) as [X1|X1].
    + destruct (Rlt_dec (y - _) _); [lia|].
      destruct (Rlt_dec _ (y - _)); [lia|]. destruct (Z.even _); lia.
    + destruct (Rlt_dec (1 / 2) (x - IZR (Zfloor y))) as [X2|X2].
      * destruct (Rlt_dec (y - _) _) as [Y1|Y1]; [lra|].
        destruct (Rlt_dec _ (y - _)) as [Y2|Y2]; [lia|lra].
      * destruct (Rlt_dec (y - _) _) as [Y1|Y1]; [lra|].
        destruct (Rlt_dec _ (y - _)) as [Y2|Y2]; [destruct (Z.even _); lia|].
        destruct (Z.even _); lia.
  - pose proof (round_half_even_bounds x). pose proof (round_half_even_bounds y).
    lia.
Qed.

Lemma round_half_even_IZR (n : Z) : round_half_even (IZR n) = n.
Proof.
  unfold round_half_even. rewrite ZfloorZ.
  destruct (Rlt_dec _ _) as [_|N]; [reflexivity|]. exfalso. apply N. lra.
Qed.

Lemma pow10_pos (n : nat) : 0 < 10 ^ n.
Proof. apply pow_lt. lra. Qed.

Lemma round_le (x y : R) (n : nat) : x <= y -> round x n <= round y n.
Proof.
  intros L. unfold round. pose proof (pow10_pos n) as P.
  apply Rmult_le_compat_r; [left; apply Rinv_0_lt_compat, P|].
  apply IZR_le, round_half_even_le.
  apply Rmult_le_compat_r; [left; exact P|exact L].
Qed.

Lemma round_IZR (z : Z) (n : nat) : round (IZR z) n = IZR z.
Proof.
  unfold round. pose proof (pow10_pos n) as P.
  replace (10 ^ n) with (IZR (10 ^ Z.of_nat n)) by (rewrite <- pow_IZR; reflexivity).
  rewrite <- mult_IZR, round_half_even_IZR, mult_IZR.
  field. rewrite <- pow_IZR. lra.
Qed.

Lemma ln10_pos : 0 < ln 10.
Proof. rewrite <- ln_1. apply ln_increasing; lra. Qed.

Lemma log10_le (x y : R) : 0 < x -> x <= y -> log10 x <= log10 y.
Proof.
  intros P L. unfold log10.
  apply Rmult_le_compat_r; [left; apply Rinv_0_lt_compat, ln10_pos|].
  destruct L as [L| ->]; [left; apply ln_increasing; assumption|right; reflexivity].
Qed.

Lemma log10_nonneg (x : R) : 1 <= x -> 0 <= log10 x.
Proof.
  intros L. replace 0 with (log10 1); [apply log10_le; lra|].
  unfold log10. rewrite ln_1. lra.
Qed.

(** The score of a listing with a positive number of reviews. *)
Lemma demand_score_pos (place : Place) (n : Z) :
  user_ratings_total place = Some n -> (0 < n)%Z ->
  _demand_score place = round (Rmin 1 (log10 (IZR (n + 1)) / 4)) 4.
Proof.
  intros E P. unfold _demand_score. rewrite E. simpl.
  destruct (n <=? 0)%Z eqn:C; [apply Z.leb_le in C; lia|reflexivity].
Qed.

Lemma demand_score_nonneg (place : Place) : 0 <= _demand_score place.
Proof.
  unfold _demand_score. cbv zeta.
  destruct (_ <=? 0)%Z eqn:C; [lra|]. apply Z.leb_gt in C.
  rewrite <- (round_IZR 0 4). apply round_le.
  apply Rmin_glb; [lra|].
  assert (0 <= log10 (IZR (Num.or_zero (user_ratings_total place) + 1))).
  { apply log10_nonneg. apply IZR_le. lia. }
  lra.
Qed.

Lemma demand_score_le_1 (place : Place) : _demand_score place <= 1.
Proof.
  unfold _demand_score. cbv zeta.
  destruct (_ <=? 0)%Z; [lra|].
  rewrite <- (round_IZR 1 4) at 2. apply round_le, Rmin_l.
Qed.

Lemma demand_score_monotone (p q : Place) :
  (Num.or_zero (user_ratings_total p) <= Num.or_zero (user_ratings_total q))%Z ->
  _demand_score p <= _demand_score q.
Proof.
  intros L. pose proof (demand_score_nonneg q) as Q.
  unfold _demand_score in *. cbv zeta in *.
  destruct (Num.or_zero (user_ratings_total p) <=? 0)%Z eqn:Cp; [exact Q|].
  apply Z.leb_gt in Cp.
  destruct (Num.or_zero (user_ratings_total q) <=? 0)%Z eqn:Cq;
    [apply Z.leb_le in Cq; lia|].
  apply round_le. apply Rle_min_compat_l.
  apply Rmult_le_compat_r; [lra|].
  apply log10_le; [apply IZR_lt; lia|apply IZR_le; lia].
Qed.

End ScoringFacts.

Module ScoringClaims.
Import Models Scoring ScoringFacts.
Open Scope R_scope.

Lemma ln2_pos : 0 < ln 2.
Proof. rewrite <- ln_1. apply ln_increasing; lra. Qed.

Lemma pow2_mod5 (b : nat) : (2 ^ Z.of_nat b mod 5 <> 0)%Z.
Proof.
  induction b as [|b IH]; [vm_compute; discriminate|].
  rewrite Nat2Z.inj_succ, Z.pow_succ_r by lia.
  rewrite Z.mul_mod by lia.
  assert (B : (0 <= 2 ^ Z.of_nat b mod 5 < 5)%Z) by (apply Z.mod_pos_bound; lia).
  revert IH B. generalize (2 ^ Z.of_nat b mod 5)%Z. intros r IH B.
  assert (C : r = 1%Z \/ r = 2%Z \/ r = 3%Z \/ r = 4%Z) by lia.
  destruct C as [->|[->|[->| ->]]]; vm_compute; discriminate.
Qed.

(** No power of ten, but the zeroth, is a power of two. *)
Lemma pow10_not_pow2 (a b : nat) : (0 < a)%nat -> 10 ^ a <> 2 ^ b.
Proof.
  intros A E.
  change 10 with (IZR 10) in E. change 2 with (IZR 2) in E.
  rewrite !pow_IZR in E. apply eq_IZR in E.
  apply (pow2_mod5 b). rewrite <- E.
  destruct a as [|a]; [lia|].
  rewrite Nat2Z.inj_succ, Z.pow_succ_r by lia.
  replace (10 * 10 ^ Z.of_nat a)%Z with (2 * 10 ^ Z.of_nat a * 5)%Z by lia.
  apply Z.mod_mul. lia.
Qed.

(** The number of decimals [0.25 * log10 2] would need is not finite. *)
Lemma quarter_log10_2_not_decimal (k : Z) :
  IZR k / 10 ^ 4 <> log10 2 / 4.
Proof.
  unfold log10. intros E.
  pose proof ln10_pos as L10. pose proof ln2_pos as L2.
  assert (E' : IZR k * ln 10 = 2500 * ln 2).
  { apply (Rmult_eq_compat_r (10 ^ 4 * ln 10)) in E. field_simplify in E; lra. }
  assert (K : (0 < k)%Z).
  { apply lt_IZR. apply (Rmult_lt_reg_r (ln 10)); [exact L10|].
    rewrite E'. lra. }
  revert E'. rewrite <- (Z2Nat.id k) by lia. rewrite <- INR_IZR_INZ.
  replace 2500 with (INR 2500) by (rewrite INR_IZR_INZ; reflexivity).
  rewrite <- !ln_pow by lra. intros E'.
  apply ln_inv in E'; try (apply pow_lt; lra).
  revert E'. apply pow10_not_pow2. lia.
Qed.

Lemma log10_2_quarter_le_1 : log10 2 / 4 <= 1.
Proof.
  assert (L : log10 2 <= log10 10) by (apply log10_le; lra).
  assert (T : log10 10 = 1).
  { unfold log10. field. pose proof ln10_pos. lra. }
  lra.
Qed.

(** C8, as stated, fails: with one review the code returns a number of
    four decimals, which [min(1, log10(2) / 4)] is not. *)
Lemma demand_score_is_not_the_formula :
  _demand_score (reviewed (Some 1%Z)) <> demand_formula (reviewed (Some 1%Z)).
Proof.
  change (_demand_score (reviewed (Some 1%Z)))
    with (round (Rmin 1 (log10 2 / 4)) 4).
  change (demand_formula (reviewed (Some 1%Z)))
    with (Rmin 1 (log10 2 / 4)).
  rewrite (Rmin_right _ _ log10_2_quarter_le_1).
  unfold round. apply quarter_log10_2_not_decimal.
Qed.

(** C8, amended.  The demand score is [min(1, log10(reviews + 1) / 4)]
    rounded to four decimals, and 0 when the review count is absent or
    not positive; it never exceeds 1 and does not decrease when the
    review count grows. *)
Theorem demand_score_spec (place : Place) :
  _demand_score place = round (demand_formula place) 4 /\
  ((Num.or_zero (user_ratings_total place) <= 0)%Z -> _demand_score place = 0) /\
  _demand_score place <= 1 /\
  forall other,
    (Num.or_zero (user_ratings_total place)
     <= Num.or_zero (user_ratings_total other))%Z ->
    _demand_score place <= _demand_score other.
Proof.
  split; [|split; [|split]].
  - unfold _demand_score, demand_formula. cbv zeta.
    destruct (_ <=? 0)%Z; [|reflexivity].
    symmetry. apply (round_IZR 0 4).
  - intros L. unfold _demand_score. cbv zeta.
    apply Z.leb_le in L. rewrite L. reflexivity.
  - apply demand_score_le_1.
  - intros other. apply demand_score_monotone.
Qed.

Lemma demand_score_spec_witness :
  _demand_score (reviewed None) = 0 /\
  _demand_score (reviewed (Some 10%Z)) <= _demand_score (reviewed (Some 5000%Z)).
Proof.
  split.
  - apply (proj1 (proj2 (demand_score_spec (reviewed None)))).
    simpl. lia.
  - apply (proj2 (proj2 (proj2 (demand_score_spec (reviewed (Some 10%Z)))))).
    simpl. lia.
Defined.

End ScoringClaims.

(** ** The CSV export *)

Module ExportClaims.
Import Models CsvExport NumFacts.
Open Scope Q_scope.

Lemma truthyQ_zero (x : Q) : x == 0 -> Num.truthyQ (Some x) = false.
Proof.
  intros E. unfold Num.truthyQ. apply negb_false_iff, Qeq_bool_iff, E.
Qed.

Lemma percent_or_blank_zero (x : Q) :
  x == 0 -> percent_or_blank (Some x) = CStr "".
Proof.
  intros E. unfold percent_or_blank. rewrite (truthyQ_zero _ E). reflexivity.
Qed.

Lemma format_0f_zero (x : Q) : x == 0 -> format_0f (x * 100) = "0".
Proof.
  intros E. unfold format_0f.
  assert (Z0 : x * 100 == 0) by (rewrite E; reflexivity).
  rewrite (round_half_even_comp _ _ Z0).
  assert (L : Qle_bool 0 (x * 100) = true).
  { apply Qle_bool_iff. rewrite Z0. apply Qle_refl. }
  rewrite L. reflexivity.
Qed.

(** C9.  A stored confidence (or location score) of exactly 0.0 is
    exported as the empty string: the percent format sits behind a test
    of truthiness, and 0.0 is falsy; the format alone would print "0". *)
Theorem zero_is_exported_blank (p : Place) (x : Q) :
  x == 0 ->
  (classification_confidence p = Some x ->
   column "Confidence %" header (csv_row p) = Some (CStr "")) /\
  (location_score p = Some x ->
   column "Location Score %" header (csv_row p) = Some (CStr "")) /\
  format_0f (x * 100) = "0".
Proof.
  intros E. split; [|split].
  - intros C. cbn. rewrite C. f_equal. apply percent_or_blank_zero, E.
  - intros C. cbn. rewrite C. f_equal. apply percent_or_blank_zero, E.
  - apply format_0f_zero, E.
Qed.

Lemma zero_is_exported_blank_witness :
  column "Confidence %" header (csv_row (scored_place (Some 0.0) (Some 0.0)))
  = Some (CStr "") /\
  column "Location Score %" header (csv_row (scored_place (Some 0.0) (Some 0.0)))
  = Some (CStr "").
Proof.
  assert (E : 0.0 == 0) by reflexivity.
  split.
  - apply (proj1 (zero_is_exported_blank
                    (scored_place (Some 0.0) (Some 0.0)) 0.0 E)).
    reflexivity.
  - apply (proj1 (proj2 (zero_is_exported_blank
                    (scored_place (Some 0.0) (Some 0.0)) 0.0 E))).
    reflexivity.
Defined.

(** A non-zero value is printed as a percentage. *)
Example export_nonzero :
  column "Confidence %" header (csv_row (scored_place (Some 0.638) None))
  = Some (CStr "64").
Proof. vm_compute. reflexivity. Qed.

End ExportClaims.

(** ** The heatmap *)

Module HeatmapFacts.
Import Models Heatmap NumFacts.
Open Scope Q_scope.

(** One cell per pair of steps. *)
Lemma compute_heatmap_length places now category lat_min lat_max lng_min lng_max
      grid_size cells :
  compute_heatmap places now category lat_min lat_max lng_min lng_max grid_size
  = Some cells ->
  exists g lat_steps lng_steps,
    grid lat_min lat_max lng_min lng_max grid_size = Some (g, lat_steps, lng_steps) /\
    List.length cells = (Z.to_nat lat_steps * Z.to_nat lng_steps)%nat.
Proof.
  unfold compute_heatmap.
  destruct (grid _ _ _ _ _) as [[[g a] b]|]; [|discriminate].
  intros H. injection H as <-. exists g, a, b. split; [reflexivity|].
  rewrite (flat_map_length_const _ _ (Z.to_nat b)).
  - rewrite range_length. reflexivity.
  - intros i. rewrite length_map, range_length. reflexivity.
Qed.

Lemma ceil_le (x : Q) (n : Z) : x <= inject_Z n -> (Num.ceil x <= n)%Z.
Proof.
  intros L. unfold Num.ceil. rewrite <- (Qceiling_Z n).
  apply Qceiling_resp_le, L.
Qed.

Lemma ceil_pos (x : Q) : 0 < x -> (0 < Num.ceil x)%Z.
Proof.
  intros P. unfold Num.ceil.
  pose proof (Qle_ceiling x) as C.
  assert (L : 0 < inject_Z (Qceiling x)) by (eapply Qlt_le_trans; eassumption).
  rewrite Zlt_Qlt. exact L.
Qed.

Lemma div100_le (d m : Q) : d / 100 <= m -> d <= 100 * m.
Proof.
  intros H. setoid_replace d with (d / 100 * 100) by field.
  apply (Qmult_le_compat_r _ _ 100) in H; Lqa.lra.
Qed.

(** In exact arithmetic, a box with its corners in order never gets more
    than 10000 cells. *)
Lemma grid_cap_ordered_box lat_min lat_max lng_min lng_max grid_size g a b :
  lat_min < lat_max -> lng_min < lng_max ->
  grid lat_min lat_max lng_min lng_max grid_size = Some (g, a, b) ->
  (a * b <= 10000)%Z.
Proof.
  intros Hlat Hlng. unfold grid. cbv zeta.
  destruct (Qeq_bool grid_size 0); [discriminate|].
  destruct (_ >? 10000)%Z eqn:T.
  - destruct (Qeq_bool _ 0); [discriminate|].
    intros H. injection H as <- <- <-.
    set (dlat := lat_max - lat_min). set (dlng := lng_max - lng_min).
    assert (Plat : 0 < dlat) by (unfold dlat; Lqa.lra).
    assert (Plng : 0 < dlng) by (unfold dlng; Lqa.lra).
    set (m := Num.max (dlat / 100) (dlng / 100)).
    assert (M1 : dlat / 100 <= m) by (unfold m; rewrite max_Qmax; apply Q.le_max_l).
    assert (M2 : dlng / 100 <= m) by (unfold m; rewrite max_Qmax; apply Q.le_max_r).
    apply div100_le in M1, M2. clearbody m dlat dlng.
    assert (Pm : 0 < m) by Lqa.lra.
    assert (A : (Num.ceil (dlat / m) <= 100)%Z).
    { apply ceil_le. apply Qle_shift_div_r; [exact Pm|].
      change (inject_Z 100) with 100. Lqa.lra. }
    assert (B : (Num.ceil (dlng / m) <= 100)%Z).
    { apply ceil_le. apply Qle_shift_div_r; [exact Pm|].
      change (inject_Z 100) with 100. Lqa.lra. }
    assert (A0 : (0 < Num.ceil (dlat / m))%Z).
    { apply ceil_pos. apply Qlt_shift_div_l; Lqa.lra. }
    assert (B0 : (0 < Num.ceil (dlng / m))%Z).
    { apply ceil_pos. apply Qlt_shift_div_l; Lqa.lra. }
    nia.
  - intros H. injection H as _ <- <-. rewrite Z.gtb_ltb in T.
    apply Z.ltb_ge in T. exact T.
Qed.

End HeatmapFacts.

Module HeatmapClaims.
Import Models Heatmap HeatmapFacts.
Open Scope Q_scope.

(** C5 fails on the code.  With both corners of the box swapped the two
    step counts are negative, their product passes the test
    [total_cells > 10000], the enlarged cell size is negative too, and
    the grid that is built has 200 x 100 cells. *)
Theorem heatmap_swapped_box_exceeds_cap (places : list Place) (now : Z)
        (category : string) :
  exists g cells,
    grid 50 (-50) 25 (-25) 0.25 = Some (g, 200%Z, 100%Z) /\
    g == -0.5 /\
    compute_heatmap places now category 50 (-50) 25 (-25) 0.25 = Some cells /\
    Z.of_nat (List.length cells) = 20000%Z.
Proof.
  destruct (grid 50 (-50) 25 (-25) 0.25) as [[[g a] b]|] eqn:G;
    vm_compute in G; [|discriminate].
  injection G as <- <- <-.
  destruct (compute_heatmap places now category 50 (-50) 25 (-25) 0.25)
    as [cells|] eqn:E.
  - eexists. exists cells. split; [reflexivity|]. split; [reflexivity|].
    split; [reflexivity|].
    destruct (compute_heatmap_length _ _ _ _ _ _ _ _ _ E)
      as (g & a & b & G & L).
    rewrite L. vm_compute in G. injection G as _ <- <-. reflexivity.
  - exfalso. unfold compute_heatmap in E.
    destruct (grid 50 (-50) 25 (-25) 0.25) as [[[g a] b]|] eqn:G;
      [discriminate|vm_compute in G; discriminate].
Qed.

End HeatmapClaims.

(** ** Retrying calls *)

Module TenacityFacts.
Import Tenacity.

Lemma stop_spec {A : Type} (pol : Policy) (f : nat -> outcome A)
      (remaining n : nat) :
  (forall e, f n = Raised e -> retryable pol e = true -> remaining = 0%nat) ->
  loop_spec pol f remaining n (mkRun (f n) n []).
Proof.
  intros X. unfold loop_spec. simpl. rewrite Nat.sub_diag.
  split; [lia|]. split; [reflexivity|]. split; [intros k K; lia|].
  split; [|reflexivity].
  intros e H R. rewrite (X e H R). lia.
Qed.

Lemma retry_loop_spec {A : Type} (pol : Policy) (f : nat -> outcome A)
      (remaining n : nat) :
  loop_spec pol f remaining n (retry_loop pol f remaining n).
Proof.
  revert n. induction remaining as [|remaining IH]; intros n; simpl.
  - destruct (f n) as [a|e] eqn:F.
    + rewrite <- F. apply stop_spec. congruence.
    + destruct (retryable pol e) eqn:R; rewrite <- F; apply stop_spec; congruence.
  - destruct (f n) as [a|e] eqn:F.
    + rewrite <- F. apply stop_spec. congruence.
    + destruct (retryable pol e) eqn:R.
      * destruct (IH (S n)) as (B & L & P & C & Sl).
        unfold loop_spec. simpl.
        split; [lia|]. split; [exact L|]. split; [|split].
        -- intros k K. destruct (Nat.eq_dec k n) as [->|N].
           ++ exists e. split; assumption.
           ++ apply P. lia.
        -- intros e' H R'. rewrite (C e' H R'). lia.
        -- rewrite Sl.
           replace (attempts (retry_loop pol f remaining (S n)) - n)%nat
             with (S (attempts (retry_loop pol f remaining (S n)) - S n)) by lia.
           reflexivity.
      * rewrite <- F. apply stop_spec. congruence.
Qed.

End TenacityFacts.

(** ** The Places client *)

Module ProviderCallClaims.
Import Tenacity TenacityFacts PlacesClient.

Lemma retryable_provider_policy (n : nat) (e : Exn) :
  retryable (provider_policy n) e = true <-> retried e.
Proof.
  unfold retryable, retried, provider_policy. simpl.
  destruct (cls e); simpl; intuition discriminate.
Qed.

Lemma wait_provider_policy (n k : nat) : wait (provider_policy n) k = backoff k.
Proof.
  unfold wait, backoff, provider_policy. simpl wait_multiplier.
  simpl wait_min. simpl wait_max. rewrite Z.mul_1_l. reflexivity.
Qed.

(** Any call decorated with the policy of the client obeys it. *)
Lemma call_obeys_policy {A : Type} (max_retries : nat) (f : nat -> outcome A) :
  obeys_policy max_retries f (call (provider_policy max_retries) f).
Proof.
  unfold obeys_policy, call.
  destruct (retry_loop_spec (provider_policy max_retries) f
              (stop_after_attempt (provider_policy max_retries) - 1) 1)
    as (B & L & P & C & Sl).
  simpl stop_after_attempt in *.
  split; [lia|]. split; [exact L|]. split; [|split].
  - intros k K. destruct (P k K) as (e & F & R).
    exists e. split; [exact F|].
    apply (retryable_provider_policy max_retries), R.
  - intros e H R. apply (retryable_provider_policy max_retries) in R.
    rewrite (C e H R). lia.
  - rewrite Sl. apply map_ext. intros k. apply wait_provider_policy.
Qed.

(** What the attempts raise on an answer of the provider: any status
    outside 2xx, and an error object in the body of a search, is an
    [HTTPStatusError]. *)
Lemma text_search_attempt_http_error status_code data e :
  text_search_attempt (Responded status_code data) = Raised e ->
  cls e = HTTPStatusError.
Proof.
  unfold text_search_attempt.
  destruct (negb (is_success status_code)); [intros H; injection H as <-; reflexivity|].
  destruct (body_error data); [|discriminate].
  intros H. injection H as <-. reflexivity.
Qed.

Lemma details_attempt_http_error cache place_id status_code data e :
  details_attempt cache place_id (Responded status_code data) = Raised e ->
  cls e = HTTPStatusError.
Proof.
  unfold details_attempt. destruct (existsb _ cache); [discriminate|].
  destruct (negb (is_success status_code)); [intros H; injection H as <-; reflexivity|].
  destruct data; discriminate.
Qed.

(** C2, as stated, fails.  With three attempts allowed, an HTTP error of
    the provider (404) is tried three times, with pauses, before it
    reaches the caller; a read time-out is not retried at all. *)
Lemma http_error_is_retried_and_timeout_is_not :
  (let r := _text_search_page 3 provider_404 "cafes" None None None in
   result r = Raised (mkExn HTTPStatusError "raise_for_status") /\
   attempts r = 3%nat /\ sleeps r = [2; 2]%Z) /\
  (let r := fst (get_place_details 3 provider_404 [] "ChIJ1") in
   result r = Raised (mkExn HTTPStatusError "raise_for_status") /\
   attempts r = 3%nat) /\
  (let r := _text_search_page 3 provider_timeout "cafes" None None None in
   result r = Raised (mkExn ReadTimeout "timed out") /\
   transient ReadTimeout = true /\ attempts r = 1%nat).
Proof. vm_compute. repeat split. Qed.

(** C2, amended.  Both provider calls retry [HTTPStatusError] (which is
    what a status outside 2xx and an error object in a search body
    raise) and [ConnectError], and nothing else, with a pause of
    [2 ** (k - 1)] seconds kept between 2 and 30 after attempt [k], up to
    [enrichment_max_retries] attempts, and then raise the last error;
    any other exception, a time-out included, reaches the caller from
    the attempt that raised it. *)
Theorem provider_calls_retry_policy (max_retries : nat) (provider : Provider)
        (query : string) (location : option Location) (radius : option Z)
        (page_token : option string) (cache : list string) (place_id : string) :
  obeys_policy max_retries
    (fun attempt_number =>
       text_search_attempt
         (post_search provider
            (search_request query location radius page_token) attempt_number))
    (_text_search_page max_retries provider query location radius page_token) /\
  obeys_policy max_retries
    (fun attempt_number =>
       details_attempt cache place_id
                       (get_details provider place_id attempt_number))
    (fst (get_place_details max_retries provider cache place_id)) /\
  (forall status_code data e,
     text_search_attempt (Responded status_code data) = Raised e -> retried e) /\
  (forall status_code data e,
     details_attempt cache place_id (Responded status_code data) = Raised e ->
     retried e) /\
  (forall e, retried e -> transient (cls e) = true -> cls e = ConnectError).
Proof.
  split; [apply call_obeys_policy|]. split; [apply call_obeys_policy|].
  split; [|split].
  - intros s d e H. left. exact (text_search_attempt_http_error _ _ _ H).
  - intros s d e H. left. exact (details_attempt_http_error _ _ _ _ _ H).
  - intros e [H|H] T; [rewrite H in T; discriminate|exact H].
Qed.

Lemma provider_calls_retry_policy_witness :
  attempts (_text_search_page 3 provider_404 "cafes" None None None) = 3%nat.
Proof.
  destruct (provider_calls_retry_policy 3 provider_404 "cafes" None None None
                                        [] "ChIJ1")
    as ((_ & _ & _ & Cap & _) & _).
  apply (Cap (mkExn HTTPStatusError "raise_for_status")).
  - reflexivity.
  - left. reflexivity.
Defined.

End ProviderCallClaims.

Module GridSearchFacts.
Import Tenacity PlacesClient NumFacts.
Open Scope Q_scope.

Lemma one_le_ceil (x : Q) : 1 <= x -> (1 <= Num.ceil x)%Z.
Proof.
  intros L. unfold Num.ceil. pose proof (Qle_ceiling x) as C.
  rewrite Zle_Qle. eapply Qle_trans; eassumption.
Qed.

(** The ratio of the radius to the first cell radius is at least one, so
    the guard [max(1, ...)] of the source never acts. *)
Lemma ratio_ge_1 (radius_km : Q) :
  ~ Num.min 2.0 radius_km == 0 ->
  1 <= radius_km / Num.min 2.0 radius_km.
Proof.
  unfold Num.min. destruct (Qlt_le_dec radius_km 2.0) as [L|L]; intros N.
  - setoid_replace (radius_km / radius_km) with 1 by (field; exact N).
    apply Qle_refl.
  - apply Qle_shift_div_l; [reflexivity|]. Lqa.lra.
Qed.

Lemma grid_plan_spec (radius_km : Q) (cells_per_axis : Z) (cell_radius_km : Q) :
  grid_plan radius_km = Some (cells_per_axis, cell_radius_km) ->
  cells_per_axis = Z.min (Num.ceil (radius_km / Num.min 2.0 radius_km)) 5 /\
  (1 <= cells_per_axis <= 5)%Z /\
  cell_radius_km = radius_km / inject_Z cells_per_axis.
Proof.
  unfold grid_plan. cbv zeta.
  destruct (Qeq_bool (Num.min 2.0 radius_km) 0) eqn:E; [discriminate|].
  apply Qeq_bool_neq in E. intros H. injection H as <- <-.
  pose proof (one_le_ceil _ (ratio_ge_1 _ E)) as C.
  rewrite (Z.max_r 1) by exact C.
  split; [reflexivity|]. split; [lia|reflexivity].
Qed.

Lemma grid_centers_length center_lat center_lng cos_lat cells_per_axis
      cell_radius_km centers :
  grid_centers center_lat center_lng cos_lat cells_per_axis cell_radius_km
  = Some centers ->
  List.length centers = (Z.to_nat cells_per_axis * Z.to_nat cells_per_axis)%nat.
Proof.
  unfold grid_centers. destruct (Qeq_bool _ 0); [discriminate|].
  intros H. injection H as <-. cbv zeta.
  rewrite (flat_map_length_const _ _ (Z.to_nat cells_per_axis)).
  - rewrite range_length. reflexivity.
  - intros row. rewrite length_map, range_length. reflexivity.
Qed.

(** *** The loop over the tiles *)

Lemma grid_tiles_tiles max_retries provider query radius max_pages total
      centers i state :
  List.length
    (tiles (grid_tiles max_retries provider query radius max_pages total
                       centers i state))
  = List.length centers /\
  forall t,
    In t (tiles (grid_tiles max_retries provider query radius max_pages total
                            centers i state)) ->
    tile_radius t = radius /\ exists lat lng, tile_location t = LatLng lat lng.
Proof.
  revert i state. induction centers as [|[lat lng] centers IH]; intros i state.
  - simpl. split; [reflexivity|]. intros t [].
  - simpl. destruct (IH (i + 1)%Z
                        match text_search max_retries provider query
                                (Some (LatLng lat lng)) (Some radius) max_pages with
                        | Returned results => fold_left keep_new results state
                        | Raised _ => state
                        end) as (L & R).
    split; [rewrite L; reflexivity|].
    intros t [<-|H]; [|exact (R t H)].
    simpl. split; [reflexivity|]. exists lat, lng. reflexivity.
Qed.

Lemma keep_new_deduplicated state place :
  deduplicated state -> deduplicated (keep_new state place).
Proof.
  destruct state as [seen all]. intros (N & E & S). unfold keep_new.
  destruct (Str.truthy (Some (get_id place))) eqn:T;
    [|exact (conj N (conj E S))].
  destruct (existsb (String.eqb (get_id place)) seen) eqn:M;
    [exact (conj N (conj E S))|].
  simpl. unfold deduplicated. simpl.
  assert (Fresh : ~ In (get_id place) (map get_id all)).
  { intros I. apply S in I.
    assert (X : existsb (String.eqb (get_id place)) seen = true).
    { apply existsb_exists. exists (get_id place).
      split; [exact I|apply String.eqb_refl]. }
    congruence. }
  split; [|split].
  - rewrite map_app. simpl. apply NoDup_app; [exact N|repeat constructor; intros []|].
    intros a I [<-|[]]. exact (Fresh I).
  - intros p I. apply in_app_iff in I as [I|[<-|[]]]; [exact (E p I)|].
    intros Z. rewrite Z in T. discriminate.
  - intros id. rewrite map_app, in_app_iff. simpl. rewrite (S id). tauto.
Qed.

Lemma fold_keep_new_deduplicated results state :
  deduplicated state -> deduplicated (fold_left keep_new results state).
Proof.
  revert state. induction results as [|p results IH]; intros state D; simpl.
  - exact D.
  - apply IH, keep_new_deduplicated, D.
Qed.

Lemma grid_tiles_found max_retries provider query radius max_pages total
      centers i state :
  deduplicated state ->
  NoDup (map get_id
           (found (grid_tiles max_retries provider query radius max_pages total
                              centers i state))) /\
  forall p,
    In p (found (grid_tiles max_retries provider query radius max_pages total
                            centers i state)) ->
    get_id p <> ""%string.
Proof.
  revert i state. induction centers as [|[lat lng] centers IH]; intros i state D.
  - simpl. destruct D as (N & E & _). split; assumption.
  - simpl. apply IH.
    destruct (text_search _ _ _ _ _ _); [apply fold_keep_new_deduplicated|];
      exact D.
Qed.

End GridSearchFacts.
Module GridSearchClaims.
Import Tenacity PlacesClient NumFacts GridSearchFacts.
Open Scope Q_scope.




(** With a radius of 10 km: 25 tiles of 2 km, searched with 2600 m. *)
Example grid_search_10km :
  exists run,
    grid_search 3 provider_404 "cafes" 25.2 55.27 0.9 10 3 = Returned run /\
    List.length (tiles run) = 25%nat /\
    forall t, In t (tiles run) -> tile_radius t = 2600%Z.
Proof.
  eexists. split; [vm_compute; reflexivity|]. split; [reflexivity|].
  intros t H. simpl in H.
  repeat (destruct H as [<-|H]; [reflexivity|]). destruct H.
Qed.

End GridSearchClaims.

Module IngestionFacts.
Import Models Tenacity PlacesClient.

Lemma find_place_Some gp_id t p :
  find_place gp_id t = Some p -> In p (rows t) /\ place_id p = gp_id.
Proof.
  unfold find_place. intros H. apply find_some in H as [I E].
  apply String.eqb_eq in E. split; assumption.
Qed.

Lemma find_place_None gp_id t :
  find_place gp_id t = None -> ~ In gp_id (map place_id (rows t)).
Proof.
  unfold find_place. intros H I. apply in_map_iff in I as (p & E & I).
  pose proof (find_none _ _ H p I) as N. simpl in N.
  rewrite E, String.eqb_refl in N. discriminate.
Qed.

Lemma find_place_stored gp_id t :
  In gp_id (map place_id (rows t)) -> exists p, find_place gp_id t = Some p.
Proof.
  intros I. destruct (find_place gp_id t) as [p|] eqn:F; [exists p; reflexivity|].
  destruct (find_place_None _ _ F I).
Qed.

(** [INSERT] of a new id: one more row. *)
Lemma pg_upsert_new t gp_id details sq sl now :
  find_place gp_id t = None ->
  pg_upsert t gp_id details sq sl now
  = (mkTable (rows t ++ [inserted_row (next_id t) gp_id details sq sl now])
             (next_id t + 1)%Z,
     next_id t).
Proof. unfold pg_upsert. intros ->. reflexivity. Qed.

(** [ON CONFLICT]: the row with the id is rewritten in place. *)
Lemma pg_upsert_conflict t gp_id details sq sl now old :
  find_place gp_id t = Some old ->
  pg_upsert t gp_id details sq sl now
  = (mkTable (map (fun p => if String.eqb (place_id p) gp_id
                            then updated_row p details now else p)
                  (rows t))
             (next_id t),
     row_id old).
Proof. unfold pg_upsert. intros ->. reflexivity. Qed.

Lemma updated_row_fixed p details now :
  same_fixed_columns (updated_row p details now) p.
Proof. unfold same_fixed_columns. simpl. repeat split. Qed.

Lemma conflict_keeps_ids t gp_id details now :
  map place_id
      (map (fun p => if String.eqb (place_id p) gp_id
                     then updated_row p details now else p) (rows t))
  = map place_id (rows t).
Proof.
  rewrite map_map. apply map_ext. intros p.
  destruct (String.eqb (place_id p) gp_id); reflexivity.
Qed.

(** One step of the loop: the rows stored stay, at most one is added, and
    the id of the record is stored afterwards. *)
Lemma upsert_one_spec max_retries provider search_query search_location now
      st raw :
  unique_ids (table st) ->
  let st' := upsert_one max_retries provider search_query search_location now
                        st raw in
  unique_ids (table st') /\
  (exists added, rows (table st') = (rows (table st) ++ added)%list) /\
  (get_id raw <> ""%string ->
   In (get_id raw) (map place_id (rows (table st')))).
Proof.
  intros U. unfold upsert_one. cbv zeta.
  destruct (get_id raw) as [|c gp] eqn:G.
  - simpl. split; [exact U|]. split; [exists []; rewrite app_nil_r; reflexivity|].
    congruence.
  - simpl negb. cbv iota.
    destruct (find_place (String c gp) (table st)) as [old|] eqn:F.
    + simpl. split; [exact U|].
      split; [exists []; rewrite app_nil_r; reflexivity|].
      intros _. apply find_place_Some in F as [I E].
      rewrite <- E. apply in_map, I.
    + destruct (get_place_details max_retries provider (cache st) (String c gp))
        as [run cache'].
      rewrite (pg_upsert_new _ _ _ _ _ _ F). simpl.
      split; [|split].
      * unfold unique_ids. simpl. rewrite map_app. simpl.
        apply NoDup_app; [exact U|repeat constructor; intros []|].
        intros a I [<-|[]]. exact (find_place_None _ _ F I).
      * eexists. reflexivity.
      * intros _. rewrite map_app, in_app_iff. right. left. reflexivity.
Qed.

Lemma upsert_loop_spec max_retries provider search_query search_location now
      raws st :
  unique_ids (table st) ->
  let st' := fold_left (upsert_one max_retries provider search_query
                                   search_location now) raws st in
  unique_ids (table st') /\
  (exists added, rows (table st') = (rows (table st) ++ added)%list) /\
  (forall raw, In raw raws -> get_id raw <> ""%string ->
               In (get_id raw) (map place_id (rows (table st')))).
Proof.
  revert st. induction raws as [|raw raws IH]; intros st U; simpl.
  - split; [exact U|]. split; [exists []; rewrite app_nil_r; reflexivity|].
    intros raw [].
  - destruct (upsert_one_spec max_retries provider search_query search_location
                              now st raw U) as (U1 & (a1 & A1) & S1).
    destruct (IH _ U1) as (U2 & (a2 & A2) & S2).
    split; [exact U2|]. split.
    + exists (a1 ++ a2)%list. rewrite A2, A1, app_assoc. reflexivity.
    + intros r [<-|I] N; [|exact (S2 r I N)].
      rewrite A2, map_app, in_app_iff. left. exact (S1 N).
Qed.

(** When every id of the batch is stored, the loop leaves the table as
    it is. *)
Lemma upsert_loop_known max_retries provider search_query search_location now
      raws st :
  (forall raw, In raw raws -> get_id raw <> ""%string ->
               In (get_id raw) (map place_id (rows (table st)))) ->
  table (fold_left (upsert_one max_retries provider search_query
                               search_location now) raws st)
  = table st.
Proof.
  revert st. induction raws as [|raw raws IH]; intros st K; simpl;
    [reflexivity|].
  assert (E : table (upsert_one max_retries provider search_query
                                search_location now st raw) = table st).
  { unfold upsert_one. cbv zeta.
    destruct (get_id raw) as [|c gp] eqn:G; [reflexivity|].
    simpl negb. cbv iota.
    destruct (find_place_stored (String c gp) (table st)) as (p & F).
    - rewrite <- G. apply K; [left; reflexivity|congruence].
    - rewrite F. reflexivity. }
  rewrite IH; [exact E|]. rewrite E. intros r I. apply K. right. exact I.
Qed.

End IngestionFacts.
Module IngestionClaims.
Import Models Tenacity PlacesClient IngestionFacts.



(** The record comes back under a new name; the stored row keeps the old
    one, and its timestamps. *)
Example reingestion_keeps_the_row :
  fst (fst (upsert_places 3 provider_404 sample_table []
                          [sample_raw "ChIJ1" "Marina Cafe & Grill"]
                          "coffee" None 2000))
  = sample_table /\
  map name (rows sample_table) = [Some "Marina Cafe"] /\
  map created_at (rows sample_table) = [Some 1000%Z].
Proof. vm_compute. repeat split. Qed.

End IngestionClaims.

(** ** The enricher *)

Module EnrichmentClaims.
Import Models Tenacity Enrichment.

(** After [_save_enrichment] the session holds the record. *)
Lemma save_enrichment_holds db place_db_id data all_emails :
  In (row_of place_db_id data)
     (enrichments (pending (_save_enrichment db place_db_id data all_emails))).
Proof.
  unfold _save_enrichment. cbv zeta. simpl.
  destruct (existsb _ (enrichments (pending db))) eqn:E.
  - apply existsb_exists in E as (r & I & R).
    apply in_map_iff. exists r. rewrite R. split; [reflexivity|exact I].
  - apply in_app_iff. right. left. reflexivity.
Qed.

Lemma save_enrichment_commits db place_db_id data all_emails :
  commits (_save_enrichment db place_db_id data all_emails) = commits db /\
  committed (_save_enrichment db place_db_id data all_emails) = committed db.
Proof. split; reflexivity. Qed.

#[local] Opaque _save_enrichment.

(** The path of a listing that may be crawled: the record is written,
    the place stamped and the session committed. *)
Lemma enrich_place_allowed_commits respect_robots_txt web now db place events :
  Str.truthy (website place) = true ->
  _check_robots respect_robots_txt web (Str.or_empty (website place))
  = (true, events) ->
  let '(place', db', _) := enrich_place respect_robots_txt web now db place in
  enriched_at place' = Some now /\
  commits db' = S (commits db) /\
  committed db' = pending db' /\
  In (row_id place, now) (stamps (committed db')) /\
  exists r, In r (enrichments (committed db')) /\
            enrichment_place_id r = row_id place.
Proof.
  intros W R. unfold enrich_place. rewrite W, R. simpl negb. cbv iota.
  destruct (result (_fetch_page web (Str.or_empty (website place))))
    as [[status html]|exc];
    [destruct ((status =? 200)%Z && Str.truthy (Some html));
     [destruct (read_homepage web (Str.or_empty (website place)) html)
        as [[[title contact_url] all_emails] ev]|]|];
    (simpl; split; [reflexivity|]; split; [reflexivity|];
     split; [reflexivity|]; split; [left; reflexivity|];
     eexists; split; [apply save_enrichment_holds|reflexivity]).
Qed.

(** C3 fails on the code.  For a listing whose site forbids crawling the
    record "Blocked by robots.txt" is written and the place is stamped,
    and no page is fetched, but [enrich_place] returns without a commit:
    the record and the stamp stay in the session. *)
Theorem blocked_listing_is_not_committed (web : Web) (now : Z) (db : Session)
        (place : Place) (text : string) :
  Str.truthy (website place) = true ->
  robots_txt web = Responded 200 text ->
  can_fetch web = false ->
  let '(place', db', events) := enrich_place true web now db place in
  events = [GetRobots (Str.or_empty (website place))] /\
  enriched_at place' = Some now /\
  In (row_id place, now) (stamps (pending db')) /\
  (exists r, In r (enrichments (pending db')) /\
             enrichment_place_id r = row_id place /\
             robots_txt_allows r = Some false /\
             enrichment_error r = Some "Blocked by robots.txt") /\
  commits db' = commits db /\
  committed db' = committed db.
Proof.
  intros W R C. unfold enrich_place, _check_robots. rewrite W, R, C.
  simpl. split; [reflexivity|]. split; [reflexivity|].
  split; [left; reflexivity|]. split; [|split; reflexivity].
  eexists. split; [apply save_enrichment_holds|]. repeat split.
Qed.

Lemma blocked_listing_is_not_committed_witness :
  let '(place', db', events) :=
    enrich_place true forbidding_web 5000 empty_session cafe in
  events = [GetRobots "https://cafe.ae"] /\
  commits db' = 0%nat /\
  committed db' = empty_store /\
  enrichments (pending db')
  = [mkPlaceEnrichment 1 None None None (Some false)
                       (Some "Blocked by robots.txt")].
Proof.
  pose proof (blocked_listing_is_not_committed forbidding_web 5000
                empty_session cafe "User-agent: * Disallow: /"
                eq_refl eq_refl eq_refl) as H.
  destruct (enrich_place true forbidding_web 5000 empty_session cafe)
    as [[place' db'] events] eqn:E.
  destruct H as (Ev & _ & _ & _ & Cm & Cd).
  vm_compute in E. injection E as <- <- <-.
  repeat split.
Defined.

(** The same listing on a site that allows crawling: one commit. *)
Example allowed_listing_is_committed :
  let '(place', db', events) :=
    enrich_place true allowing_web 5000 empty_session cafe in
  events = [GetRobots "https://cafe.ae"; GetPage "https://cafe.ae"] /\
  commits db' = 1%nat /\
  committed db' = pending db' /\
  map email (email_rows (committed db')) = ["info@cafe.ae"].
Proof. vm_compute. repeat split. Qed.

End EnrichmentClaims.

(** ** More on the classifier *)

Module ClassifierMore.
Import Models Classifier NumFacts ClassifierFacts.
Open Scope Q_scope.

Lemma all14_spec F :
  all14 F = true ->
  forall b1 b2 b3 b4 b5 b6 b7 b8 b9 b10 b11 b12 b13 b14,
    F b1 b2 b3 b4 b5 b6 b7 b8 b9 b10 b11 b12 b13 b14 = true.
Proof.
  intros H b1 b2 b3 b4 b5 b6 b7 b8 b9 b10 b11 b12 b13 b14.
  exact (all_bool_spec _ (all_bool_spec _ (all_bool_spec _ (all_bool_spec _
        (all_bool_spec _ (all_bool_spec _ (all_bool_spec _ (all_bool_spec _
        (all_bool_spec _ (all_bool_spec _ (all_bool_spec _ (all_bool_spec _
        (all_bool_spec _ (all_bool_spec _ H b1) b2) b3) b4) b5) b6) b7) b8)
         b9) b10) b11) b12) b13) b14).
Qed.

(** The score of a listing is the walk over the outcomes of these tests. *)
Lemma classify_score_walk (place : Place) :
  classify_score place =
  walk (existsb (fun brand =>
                   Str.contains brand (Str.lower (Str.or_empty (name place))))
                KNOWN_BRANDS)
       (Num.truthyZ (user_ratings_total place))
       (Num.or_zero (user_ratings_total place) >? 1000)%Z
       (Num.or_zero (user_ratings_total place) >? 500)%Z
       (Num.or_zero (user_ratings_total place) >? 100)%Z
       (Re.search CHAIN_PATTERNS
          (fmt (name place) ++ " " ++ Str.or_empty (formatted_address place)))
       (Str.truthy (website place))
       (existsb (fun ind =>
                   Str.contains ind (Str.lower (Str.or_empty (website place))))
                BRAND_DOMAIN_INDICATORS)
       (existsb (fun tld =>
                   Str.contains tld (Str.lower (Str.or_empty (website place))))
                country_tlds)
       (Num.is_some (price_level place))
       (existsb (fun t => mem t brand_types)
                match types place with Some l => l | None => [] end)
       (existsb (fun t => mem t local_types)
                match types place with Some l => l | None => [] end)
       (List.length (Str.split (Str.lower (Str.or_empty (name place)))) <=? 3)%nat
       (6 <=? List.length (Str.split (Str.lower (Str.or_empty (name place)))))%nat.
Proof. reflexivity. Qed.

Lemma classify_outcome (place : Place) :
  classify place = outcome (classify_score place).
Proof. reflexivity. Qed.

Lemma walk_bounds :
  all14 (fun b1 b2 b3 b4 b5 b6 b7 b8 b9 b10 b11 b12 b13 b14 =>
           let s := walk b1 b2 b3 b4 b5 b6 b7 b8 b9 b10 b11 b12 b13 b14 in
           Qle_bool (-0.6) s && Qle_bool s 3.45) = true.
Proof. vm_compute. reflexivity. Qed.

(** X1.  The score lies between -0.6 and the [max_possible] of the source, so
    the upper clamp [min(1.0, ...)] never acts: the confidence before
    rounding is the score over 3.45, or 0 for a negative score. *)
Theorem classify_score_bounds (place : Place) :
  -0.6 <= classify_score place <= max_possible /\
  raw_confidence place == Qmax 0 (classify_score place / max_possible).
Proof.
  assert (B : -0.6 <= classify_score place <= max_possible).
  { rewrite classify_score_walk.
    pose proof (all14_spec _ walk_bounds) as H.
    match goal with
    | |- context [walk ?b1 ?b2 ?b3 ?b4 ?b5 ?b6 ?b7 ?b8 ?b9 ?b10 ?b11 ?b12 ?b13 ?b14] =>
        specialize (H b1 b2 b3 b4 b5 b6 b7 b8 b9 b10 b11 b12 b13 b14)
    end.
    cbv zeta in H. apply andb_true_iff in H as [L U].
    apply Qle_bool_iff in L, U. split; assumption. }
  split; [exact B|].
  unfold raw_confidence. rewrite max_Qmax, min_Qmin.
  assert (E0 : 0.0 == 0) by reflexivity. rewrite E0.
  assert (Le : classify_score place / max_possible <= 1.0).
  { apply Qle_shift_div_r; [reflexivity|].
    destruct B as [_ U]. unfold max_possible in *.
    setoid_replace (1.0 * 3.45) with 3.45 by reflexivity. exact U. }
  rewrite (Q.min_r _ _ Le). reflexivity.
Qed.

End ClassifierMore.
Module ClassifierLabels.
Import Models Classifier NumFacts ClassifierFacts.
Open Scope Q_scope.

Lemma brand_check :
  all14 (fun b1 b2 b3 b4 b5 b6 b7 b8 b9 b10 b11 b12 b13 b14 =>
           implb (b1 && b2 && b3 && b7 && b8)
                 (let r := outcome (walk b1 b2 b3 b4 b5 b6 b7 b8 b9 b10 b11
                                         b12 b13 b14) in
                  String.eqb (fst r) "brand" && negb (Qle_bool (snd r) 0.4)))
  = true.
Proof. vm_compute. reflexivity. Qed.

Lemma contains_nonempty (sub s : string) :
  sub <> ""%string -> Str.contains sub s = true -> s <> ""%string.
Proof.
  intros N C ->. destruct sub; [congruence|]. discriminate.
Qed.

(** X2.  A listing with a known brand in its name, more than 1000 reviews and
    ".com" in its website is a "brand", with a confidence above 0.4,
    whatever its other fields. *)
Theorem known_brand_is_brand (place : Place) (n : Z) (w : string) :
  existsb (fun brand =>
             Str.contains brand (Str.lower (Str.or_empty (name place))))
          KNOWN_BRANDS = true ->
  user_ratings_total place = Some n -> (1000 < n)%Z ->
  website place = Some w -> Str.contains ".com" (Str.lower w) = true ->
  fst (classify place) = "brand"%string /\ 0.4 < snd (classify place).
Proof.
  intros B R N W C.
  rewrite ClassifierMore.classify_outcome, ClassifierMore.classify_score_walk.
  rewrite B, R, W. simpl Num.truthyZ. simpl Num.or_zero. simpl Str.or_empty.
  assert (T : Str.truthy (Some w) = true).
  { destruct w; [discriminate|reflexivity]. }
  assert (I : existsb (fun ind => Str.contains ind (Str.lower w))
                      BRAND_DOMAIN_INDICATORS = true).
  { apply existsb_exists. exists ".com"%string. split; [left; reflexivity|exact C]. }
  assert (G : (n >? 1000)%Z = true) by (apply Z.gtb_lt; lia).
  assert (Z0 : negb (n =? 0)%Z = true)
    by (apply negb_true_iff, Z.eqb_neq; lia).
  rewrite T, I, G, Z0.
  pose proof (ClassifierMore.all14_spec _ brand_check) as H.
  match goal with
  | |- context [walk ?b1 ?b2 ?b3 ?b4 ?b5 ?b6 ?b7 ?b8 ?b9 ?b10 ?b11 ?b12 ?b13 ?b14] =>
      specialize (H b1 b2 b3 b4 b5 b6 b7 b8 b9 b10 b11 b12 b13 b14)
  end.
  simpl implb in H. cbv zeta in H.
  apply andb_true_iff in H as [L Cf].
  apply String.eqb_eq in L. split; [exact L|].
  apply negb_true_iff in Cf. apply Qnot_le_lt. intros Le.
  apply Qle_bool_iff in Le. congruence.
Qed.

Lemma known_brand_is_brand_witness :
  fst (classify (test_place (Some "McDonald's Dubai Marina") (Some 5000%Z)
                            (Some "https://mcdonalds.com") []))
  = "brand"%string.
Proof.
  refine (proj1 (known_brand_is_brand
                   (test_place (Some "McDonald's Dubai Marina") (Some 5000%Z)
                               (Some "https://mcdonalds.com") [])
                   5000 "https://mcdonalds.com" _ eq_refl _ eq_refl _)).
  - vm_compute. reflexivity.
  - lia.
  - vm_compute. reflexivity.
Defined.

Lemma plain_check :
  all14 (fun b1 b2 b3 b4 b5 b6 b7 b8 b9 b10 b11 b12 b13 b14 =>
           implb (negb b1 && negb b3 && negb b4 && negb b5 && negb b6 &&
                  negb b7 && negb b10 && negb b11)
                 (let r := outcome (walk b1 b2 b3 b4 b5 b6 b7 b8 b9 b10 b11
                                         b12 b13 b14) in
                  String.eqb (fst r) "local" && Qle_bool (snd r) 0.029))
  = true.
Proof. vm_compute. reflexivity. Qed.



End ClassifierLabels.
Module ClassifierBatch.
Import Models Classifier NumFacts ClassifierFacts.

Lemma classify_places_rows (places rows : list Place) :
  fst (classify_places rows places) = map (apply_updates places) rows.
Proof.
  revert rows. induction places as [|p places IH]; intros rows.
  - simpl. symmetry. apply map_id.
  - cbn [classify_places]. destruct (classify p) as [c conf] eqn:E.
    pose proof (IH (update_classification (row_id p) c conf rows)) as H.
    destruct (classify_places (update_classification (row_id p) c conf rows)
                              places) as [rows' done].
    simpl in H. simpl fst. rewrite H.
    unfold update_classification. rewrite map_map.
    apply map_ext. intros r. unfold apply_updates. cbn [fold_left].
    rewrite E. reflexivity.
Qed.

Lemma apply_updates_other (places : list Place) (row : Place) :
  (forall p, In p places -> row_id p <> row_id row) ->
  apply_updates places row = row.
Proof.
  induction places as [|p places IH]; intros N; [reflexivity|].
  unfold apply_updates. simpl.
  destruct (row_id row =? row_id p)%Z eqn:E.
  - apply Z.eqb_eq in E. exfalso. apply (N p); [left; reflexivity|congruence].
  - apply IH. intros q I. apply N. right. exact I.
Qed.

Lemma in_unclassified (rows : list Place) (p : Place) :
  In p (unclassified rows) -> In p rows /\ classification p = None.
Proof.
  unfold unclassified. intros I. apply filter_In in I as [I C].
  split; [exact I|]. destruct (classification p); [discriminate|reflexivity].
Qed.

(** With distinct ids, the updates leave each row as [classify_row] has
    it. *)
Lemma apply_updates_row (rows : list Place) (row : Place) :
  NoDup (map row_id rows) -> In row rows ->
  apply_updates (unclassified rows) row = classify_row row.
Proof.
  induction rows as [|a rows IH]; intros N I; [destruct I|].
  simpl in N. apply NoDup_cons_iff in N as [Fresh N].
  assert (Others : forall p, In p (unclassified rows) -> row_id p <> row_id a).
  { intros p Ip E. apply in_unclassified in Ip as [Ip _].
    apply Fresh. rewrite <- E. apply in_map, Ip. }
  destruct I as [->|I].
  - unfold unclassified, classify_row. simpl.
    destruct (classification row) eqn:C; simpl.
    + apply apply_updates_other, Others.
    + unfold apply_updates. simpl. rewrite Z.eqb_refl.
      apply (apply_updates_other (unclassified rows)
               (set_classification row (fst (classify row)) (snd (classify row)))).
      exact Others.
  - assert (D : row_id row <> row_id a).
    { intros E. apply Fresh. rewrite <- E. apply in_map, I. }
    unfold unclassified. simpl.
    destruct (negb (Num.is_some (classification a))).
    + unfold apply_updates. simpl.
      apply Z.eqb_neq in D. rewrite D. apply IH; assumption.
    + apply IH; assumption.
Qed.

Lemma classify_row_classified (row : Place) :
  Num.is_some (classification (classify_row row)) = true.
Proof.
  unfold classify_row. destruct (Num.is_some (classification row)) eqn:C;
    [exact C|reflexivity].
Qed.

Lemma unclassified_none (rows : list Place) :
  unclassified (map classify_row rows) = [].
Proof.
  unfold unclassified. induction rows as [|r rows IH]; [reflexivity|].
  simpl. rewrite classify_row_classified. exact IH.
Qed.

Lemma classify_all_rows (rows : list Place) :
  NoDup (map row_id rows) ->
  fst (classify_all_unclassified rows) = map classify_row rows.
Proof.
  intros N. unfold classify_all_unclassified. cbv zeta.
  assert (E : fst (classify_places rows (unclassified rows))
              = map classify_row rows).
  { rewrite classify_places_rows. apply map_ext_in.
    intros r I. apply apply_updates_row; assumption. }
  destruct (unclassified rows) as [|p ps] eqn:U; [|exact E].
  simpl in *. exact E.
Qed.

(** X4.  With distinct row ids, [classify_all_unclassified] gives every row
    without a label the label and the confidence [classify] computes for
    it, leaves the other rows as they are and returns the number of rows
    it labelled; after it no row is without a label, and a second call
    returns 0 and changes nothing. *)
Theorem classify_all_unclassified_spec (rows : list Place) :
  NoDup (map row_id rows) ->
  let rows' := fst (classify_all_unclassified rows) in
  rows' = map classify_row rows /\
  snd (classify_all_unclassified rows) = List.length (unclassified rows) /\
  (forall row, In row rows ->
     classification row = None ->
     exists row', In row' rows' /\ row_id row' = row_id row /\
       (classification row' = Some "brand"%string \/
        classification row' = Some "local"%string)) /\
  unclassified rows' = [] /\
  classify_all_unclassified rows' = (rows', 0%nat).
Proof.
  intros N. cbv zeta. rewrite (classify_all_rows rows N).
  split; [reflexivity|]. split; [|split; [|split]].
  - unfold classify_all_unclassified. cbv zeta.
    destruct (unclassified rows); reflexivity.
  - intros row I C. exists (classify_row row).
    split; [apply in_map, I|].
    unfold classify_row. rewrite C. cbn [Num.is_some].
    pose proof (classify_well_formed row) as W.
    destruct (classify row) as [l c]. apply well_formed_spec in W.
    cbn [set_classification row_id classification fst snd].
    split; [reflexivity|].
    destruct W as (_ & [L|L] & _); rewrite L; auto.
  - apply unclassified_none.
  - unfold classify_all_unclassified. cbv zeta.
    rewrite unclassified_none. reflexivity.
Qed.

Lemma classify_all_unclassified_spec_witness :
  snd (classify_all_unclassified
         [test_place (Some "Unknown Place") None None []]) = 1%nat.
Proof.
  assert (N : NoDup (map row_id [test_place (Some "Unknown Place") None None []])).
  { simpl. constructor; [intros []|constructor]. }
  rewrite (proj1 (proj2 (classify_all_unclassified_spec _ N))).
  reflexivity.
Defined.

End ClassifierBatch.

(** ** More on the Places client *)

Module NormalizeFacts.
Import Models PlacesClient.

Lemma lookup_price_level (s : string) (n : Z) :
  lookup s _PRICE_LEVEL_MAP = Some n <-> In (s, n) _PRICE_LEVEL_MAP.
Proof.
  split.
  - unfold _PRICE_LEVEL_MAP. cbn [lookup].
    repeat match goal with
           | |- context [String.eqb s ?k] =>
               let E := fresh "E" in
               destruct (String.eqb s k) eqn:E;
               [apply String.eqb_eq in E; subst s; intros [= <-]; simpl; tauto|]
           end.
    discriminate.
  - intros I. repeat (destruct I as [[= <- <-]|I]; [reflexivity|]).
    destruct I.
Qed.

(** X5.  The price level [_normalize_place] gives is the number the table
    [_PRICE_LEVEL_MAP] holds for the [priceLevel] text of the record, a
    number from 0 to 4; a record with no [priceLevel], or with a text that
    is not one of the five names, gets none. *)
Theorem normalize_price_level (raw : RawPlace) (n : Z) :
  n_price_level (_normalize_place raw) = Some n <->
  exists s, priceLevel raw = Some s /\ In (s, n) _PRICE_LEVEL_MAP /\
            (0 <= n <= 4)%Z.
Proof.
  assert (R : forall s, In (s, n) _PRICE_LEVEL_MAP -> (0 <= n <= 4)%Z).
  { intros s I. repeat (destruct I as [[= <- <-]|I]; [lia|]). destruct I. }
  unfold _normalize_place. cbn [n_price_level].
  destruct (priceLevel raw) as [s|]; cbn [Str.truthy Str.or_empty].
  - destruct s as [|c s].
    + split; [discriminate|]. intros (s & [= <-] & I & _).
      apply lookup_price_level in I. discriminate.
    + split.
      * intros L. apply lookup_price_level in L.
        exists (String c s). split; [reflexivity|].
        split; [exact L|exact (R _ L)].
      * intros (s' & [= <-] & I & _). apply lookup_price_level, I.
  - split; [discriminate|]. intros (s & E & _). discriminate.
Qed.

End NormalizeFacts.

Module TextSearchFacts.
Import Models Tenacity TenacityFacts PlacesClient.

(** What a call returns is what one of its attempts returned. *)
Lemma call_returned {A : Type} (pol : Policy) (f : nat -> outcome A) (a : A) :
  result (call pol f) = Returned a -> exists n, f n = Returned a.
Proof.
  unfold call. intros H.
  destruct (retry_loop_spec pol f (stop_after_attempt pol - 1) 1)
    as (_ & L & _).
  eexists. rewrite <- L. exact H.
Qed.

Lemma call_raised {A : Type} (pol : Policy) (f : nat -> outcome A) (e : Exn) :
  result (call pol f) = Raised e -> exists n, f n = Raised e.
Proof.
  unfold call. intros H.
  destruct (retry_loop_spec pol f (stop_after_attempt pol - 1) 1)
    as (_ & L & _).
  eexists. rewrite <- L. exact H.
Qed.

(** A page that is returned is the body of a 2xx answer without an error
    object. *)
Lemma text_search_page_returned max_retries provider query location radius
      page_token data :
  result (_text_search_page max_retries provider query location radius
                            page_token) = Returned data ->
  exists n status_code,
    post_search provider (search_request query location radius page_token) n
    = Responded status_code data /\
    is_success status_code = true /\ body_error data = None.
Proof.
  unfold _text_search_page. intros H. apply call_returned in H as (n & H).
  exists n. unfold text_search_attempt in H.
  destruct (post_search provider _ n) as [e|status_code body]; [discriminate|].
  exists status_code.
  destruct (is_success status_code); [|discriminate]. simpl in H.
  destruct (body_error body) eqn:B; [discriminate|].
  injection H as <-. repeat split. exact B.
Qed.

(** The pages read by the loop: what is returned is the places collected
    before followed by those of at most [pages] answers of the provider. *)
Lemma text_search_pages_spec max_retries provider query location radius
      pages page_token all_results results :
  text_search_pages max_retries provider query location radius pages
                    page_token all_results = Returned results ->
  exists bodies,
    (List.length bodies <= pages)%nat /\
    results = (all_results ++ flat_map body_places bodies)%list /\
    forall body, In body bodies ->
      body_error body = None /\
      exists request n status_code,
        post_search provider request n = Responded status_code body /\
        is_success status_code = true /\
        textQuery request = query /\ pageSize request = 20%Z.
Proof.
  revert page_token all_results.
  induction pages as [|pages IH]; intros page_token all_results; simpl.
  - intros [= <-]. exists []. simpl. rewrite app_nil_r.
    split; [lia|]. split; [reflexivity|]. intros body [].
  - destruct (result (_text_search_page max_retries provider query location
                                        radius page_token))
      as [data|e] eqn:P; [|discriminate].
    apply text_search_page_returned in P as (n & status_code & R & S & B).
    assert (Page : body_error data = None /\
                   exists request n status_code,
                     post_search provider request n = Responded status_code data /\
                     is_success status_code = true /\
                     textQuery request = query /\ pageSize request = 20%Z).
    { split; [exact B|]. eexists. exists n, status_code.
      split; [exact R|]. split; [exact S|]. split; reflexivity. }
    destruct (Str.truthy (nextPageToken data)).
    + intros H. apply IH in H as (bodies & L & E & A).
      exists (data :: bodies). simpl. split; [lia|].
      split; [rewrite E, <- app_assoc; reflexivity|].
      intros body [<-|I]; [exact Page|exact (A body I)].
    + intros [= <-]. exists [data]. simpl. rewrite app_nil_r.
      split; [lia|]. split; [reflexivity|].
      intros body [<-|[]]. exact Page.
Qed.

Lemma flat_map_length_le {A B : Type} (f : A -> list B) (l : list A) (k : nat) :
  (forall a, In a l -> List.length (f a) <= k)%nat ->
  (List.length (flat_map f l) <= k * List.length l)%nat.
Proof.
  induction l as [|a l IH]; intros H; simpl; [lia|].
  rewrite length_app.
  pose proof (H a (or_introl eq_refl)).
  pose proof (IH (fun b I => H b (or_intror I))). lia.
Qed.

(** X6.  When no answer of the provider holds more than the 20 places a
    request asks for, [text_search] returns at most 20 places per page
    allowed, and each of them was in a 2xx answer of the provider to a
    request for the query. *)
Theorem text_search_size (max_retries : nat) (provider : Provider)
        (query : string) (location : option Location) (radius : option Z)
        (max_pages : Z) (results : list RawPlace) :
  (forall request n status_code body,
     post_search provider request n = Responded status_code body ->
     (List.length (body_places body) <= 20)%nat) ->
  text_search max_retries provider query location radius max_pages
  = Returned results ->
  (List.length results <= 20 * Z.to_nat max_pages)%nat /\
  forall place, In place results ->
    exists request n status_code body,
      post_search provider request n = Responded status_code body /\
      is_success status_code = true /\ textQuery request = query /\
      In place (body_places body).
Proof.
  intros Size H. unfold text_search in H.
  apply text_search_pages_spec in H as (bodies & L & -> & A). simpl.
  split.
  - assert (X : (List.length (flat_map body_places bodies)
                 <= 20 * List.length bodies)%nat).
    { apply flat_map_length_le. intros body I.
      destruct (A body I) as (_ & request & n & status_code & R & _).
      exact (Size _ _ _ _ R). }
    lia.
  - intros place I. apply in_flat_map in I as (body & I & P).
    destruct (A body I) as (_ & request & n & status_code & R & S & Q & _).
    exists request, n, status_code, body. repeat split; assumption.
Qed.

Lemma text_search_size_witness :
  exists results,
    text_search 3 provider_one_cafe "cafes in Dubai" None None 3
    = Returned results /\
    (List.length results <= 20 * Z.to_nat 3)%nat.
Proof.
  eexists. split; [reflexivity|].
  apply (text_search_size 3 provider_one_cafe "cafes in Dubai" None None 3).
  - intros request n status_code body [= _ <-]. simpl. lia.
  - reflexivity.
Defined.

(** Without a page to read ([max_pages] at most 0), [text_search]
    returns no place, whatever the provider would answer. *)
Lemma text_search_no_page max_retries provider query location radius max_pages :
  (max_pages <= 0)%Z ->
  text_search max_retries provider query location radius max_pages
  = Returned [].
Proof.
  intros H. unfold text_search.
  replace (Z.to_nat max_pages) with 0%nat by lia. reflexivity.
Qed.

End TextSearchFacts.

Module DetailsFacts.
Import Models Tenacity TenacityFacts PlacesClient TextSearchFacts.

(** X7.  The cache of [get_place_details].  A place is returned only for an
    id that was not cached, from a 2xx answer of the provider; the id is
    cached then, and from then on a call for the id returns the empty
    record at its first attempt, whatever the provider answers, and leaves
    the cache as it is. *)
Theorem details_are_fetched_once (max_retries : nat) (provider : Provider)
        (cache : list string) (place_id : string) (raw : RawPlace) :
  result (fst (get_place_details max_retries provider cache place_id))
  = Returned (Some raw) ->
  ~ In place_id cache /\
  snd (get_place_details max_retries provider cache place_id)
  = place_id :: cache /\
  (exists n status_code,
     get_details provider place_id n
     = Responded status_code (DetailsPlace raw) /\
     is_success status_code = true) /\
  forall max_retries' provider',
    get_place_details max_retries' provider' (place_id :: cache) place_id
    = (mkRun (Returned None) 1 [], place_id :: cache).
Proof.
  unfold get_place_details at 1 2. cbn [fst snd].
  intros H. rewrite H.
  apply call_returned in H as (n & A). unfold details_attempt in A.
  destruct (existsb (String.eqb place_id) cache) eqn:M; [discriminate|].
  split.
  { intros I.
    assert (X : existsb (String.eqb place_id) cache = true).
    { apply existsb_exists. exists place_id.
      split; [exact I|apply String.eqb_refl]. }
    congruence. }
  split; [reflexivity|]. split.
  { exists n.
    destruct (get_details provider place_id n) as [e|status_code data];
      [discriminate|].
    exists status_code. destruct (is_success status_code); [|discriminate].
    simpl in A. destruct data as [m|r]; [discriminate|].
    injection A as <-. split; reflexivity. }
  intros max_retries' provider'.
  unfold get_place_details, call, details_attempt. simpl existsb.
  rewrite String.eqb_refl. simpl orb.
  destruct (stop_after_attempt (provider_policy max_retries') - 1)%nat;
    reflexivity.
Qed.

Lemma details_are_fetched_once_witness :
  snd (get_place_details 3 provider_one_cafe [] "ChIJ1") = ["ChIJ1"] /\
  get_place_details 3 provider_404 ["ChIJ1"] "ChIJ1"
  = (mkRun (Returned None) 1 [], ["ChIJ1"]).
Proof.
  destruct (details_are_fetched_once 3 provider_one_cafe [] "ChIJ1"
              (sample_raw "ChIJ1" "Marina Cafe") eq_refl)
    as (_ & C & _ & L).
  split; [exact C|exact (L 3%nat provider_404)].
Defined.

(** The cache changes only when a place was fetched. *)
Lemma details_cache_kept max_retries provider cache place_id :
  (forall raw,
     result (fst (get_place_details max_retries provider cache place_id))
     <> Returned (Some raw)) ->
  snd (get_place_details max_retries provider cache place_id) = cache.
Proof.
  unfold get_place_details. cbn [fst snd]. intros N.
  destruct (result _) as [[raw|]|e]; try reflexivity.
  destruct (N raw eq_refl).
Qed.

End DetailsFacts.

Module GridProgress.
Import Models Tenacity PlacesClient NumFacts GridSearchFacts.

Lemma keep_new_extends state place :
  exists added, snd (keep_new state place) = (snd state ++ added)%list.
Proof.
  destruct state as [seen all]. unfold keep_new.
  destruct (Str.truthy (Some (get_id place))
            && negb (existsb (String.eqb (get_id place)) seen)).
  - eexists. reflexivity.
  - exists []. rewrite app_nil_r. reflexivity.
Qed.

Lemma fold_keep_new_extends results state :
  exists added,
    snd (fold_left keep_new results state) = (snd state ++ added)%list.
Proof.
  revert state. induction results as [|p results IH]; intros state; simpl.
  - exists []. rewrite app_nil_r. reflexivity.
  - destruct (IH (keep_new state p)) as (a2 & E2).
    destruct (keep_new_extends state p) as (a1 & E1).
    exists (a1 ++ a2)%list. rewrite E2, E1, app_assoc. reflexivity.
Qed.

(** The state after a tile: that before, with the new places of the tile
    when its search returned. *)
Lemma tile_state_extends max_retries provider query location radius max_pages
      state :
  exists added,
    snd match text_search max_retries provider query location radius
                          max_pages with
        | Returned results => fold_left keep_new results state
        | Raised _ => state
        end
    = (snd state ++ added)%list.
Proof.
  destruct (text_search _ _ _ _ _ _).
  - apply fold_keep_new_extends.
  - exists []. rewrite app_nil_r. reflexivity.
Qed.

Lemma grid_tiles_extends max_retries provider query radius max_pages total
      centers i state :
  exists added,
    found (grid_tiles max_retries provider query radius max_pages total
                      centers i state)
    = (snd state ++ added)%list.
Proof.
  revert i state. induction centers as [|[lat lng] centers IH]; intros i state.
  - exists []. rewrite app_nil_r. reflexivity.
  - simpl.
    destruct (tile_state_extends max_retries provider query
                (Some (LatLng lat lng)) (Some radius) max_pages state)
      as (a1 & E1).
    destruct (IH (i + 1)%Z
                 match text_search max_retries provider query
                         (Some (LatLng lat lng)) (Some radius) max_pages with
                 | Returned results => fold_left keep_new results state
                 | Raised _ => state
                 end) as (a2 & E2).
    exists (a1 ++ a2)%list. rewrite E2, E1, app_assoc. reflexivity.
Qed.

Lemma last_cons_default {A : Type} (a : A) (l : list A) (d d' : A) :
  last (a :: l) d = last (a :: l) d'.
Proof.
  revert a. induction l as [|b l IH]; intros a; [reflexivity|].
  change (last (b :: l) d = last (b :: l) d'). apply IH.
Qed.

Lemma grid_tiles_progress_length max_retries provider query radius max_pages
      total centers i state :
  List.length
    (progress (grid_tiles max_retries provider query radius max_pages total
                          centers i state))
  = List.length centers.
Proof.
  revert i state. induction centers as [|[lat lng] centers IH]; intros i state;
    simpl; [reflexivity|].
  rewrite IH. reflexivity.
Qed.

(** The reports of the loop from tile [i + 1] on: they are numbered from
    [i + 1], carry the total given, and their counts of unique places
    start at the size of the state, never decrease and end at the number
    of places found. *)
Lemma grid_tiles_progress max_retries provider query radius max_pages total
      centers i state :
  let run := grid_tiles max_retries provider query radius max_pages total
                        centers i state in
  map (fun r => fst (fst r)) (progress run)
  = map (fun k => (i + Z.of_nat k)%Z) (seq 1 (List.length centers)) /\
  Forall (fun r => snd (fst r) = total) (progress run) /\
  StronglySorted Z.le (map snd (progress run)) /\
  Forall (fun u => (Z.of_nat (List.length (snd state)) <= u)%Z)
         (map snd (progress run)) /\
  last (map snd (progress run)) (Z.of_nat (List.length (snd state)))
  = Z.of_nat (List.length (found run)).
Proof.
  cbv zeta. revert i state.
  induction centers as [|[lat lng] centers IH]; intros i state.
  - simpl. repeat split; constructor.
  - cbn [grid_tiles progress found map List.length seq].
    set (state1 := match text_search max_retries provider query
                           (Some (LatLng lat lng)) (Some radius) max_pages with
                   | Returned results => fold_left keep_new results state
                   | Raised _ => state
                   end).
    destruct (IH (i + 1)%Z state1) as (N & T & Sd & B & L).
    assert (G : (Z.of_nat (List.length (snd state))
                 <= Z.of_nat (List.length (snd state1)))%Z).
    { destruct (tile_state_extends max_retries provider query
                  (Some (LatLng lat lng)) (Some radius) max_pages state)
        as (a & E).
      fold state1 in E. rewrite E, length_app. lia. }
    split; [|split; [|split; [|split]]].
    + cbn [fst snd]. rewrite N.
      apply (f_equal2 cons); [lia|].
      rewrite <- (seq_shift (List.length centers) 1), map_map.
      apply map_ext. intros k. lia.
    + constructor; [reflexivity|exact T].
    + cbn [snd]. constructor; [exact Sd|exact B].
    + cbn [snd]. constructor; [exact G|].
      eapply Forall_impl; [|exact B]. cbv beta. intros u U. lia.
    + cbn [snd].
      destruct (map snd (progress (grid_tiles max_retries provider query radius
                                              max_pages total centers
                                              (i + 1)%Z state1)))
        as [|u us] eqn:M.
      * simpl in L. simpl. exact L.
      * rewrite <- L. cbn [last]. apply last_cons_default.
Qed.

(** X8.  The progress reports of [grid_search]: one for each tile, numbered
    1, 2, ... and each with the number of tiles as total; the count of
    unique places they carry never decreases, and that of the last report
    is the number of places returned. *)
Theorem grid_search_progress (max_retries : nat) (provider : Provider)
        (query : string) (center_lat center_lng cos_lat radius_km : Q)
        (max_pages : Z) (run : GridRun) :
  grid_search max_retries provider query center_lat center_lng cos_lat
              radius_km max_pages = Returned run ->
  map (fun r => fst (fst r)) (progress run)
  = map Z.of_nat (seq 1 (List.length (tiles run))) /\
  Forall (fun r => snd (fst r) = Z.of_nat (List.length (tiles run)))
         (progress run) /\
  StronglySorted Z.le (map snd (progress run)) /\
  last (map snd (progress run)) 0%Z = Z.of_nat (List.length (found run)).
Proof.
  unfold grid_search.
  destruct (grid_plan radius_km) as [[n c]|]; [|discriminate].
  destruct (grid_centers center_lat center_lng cos_lat n c) as [centers|];
    [|discriminate].
  intros [= <-].
  destruct (grid_tiles_progress max_retries provider query (cell_radius_m c)
              max_pages (Z.of_nat (List.length centers)) centers 0 ([], []))
    as (N & T & Sd & _ & L).
  destruct (grid_tiles_tiles max_retries provider query (cell_radius_m c)
              max_pages (Z.of_nat (List.length centers)) centers 0 ([], []))
    as (Len & _).
  rewrite Len. split; [|split; [|split]].
  - rewrite N. apply map_ext. intros k. lia.
  - exact T.
  - exact Sd.
  - exact L.
Qed.

Lemma grid_search_progress_witness :
  exists run,
    grid_search 3 provider_one_cafe "cafes" 25.2 55.27 0.9 3 3 = Returned run /\
    last (map snd (progress run)) 0%Z = Z.of_nat (List.length (found run)).
Proof.
  eexists. split; [vm_compute; reflexivity|].
  apply (grid_search_progress 3 provider_one_cafe "cafes" 25.2 55.27 0.9 3 3).
  vm_compute. reflexivity.
Defined.

Lemma keep_new_kept state place :
  deduplicated state -> get_id place <> ""%string ->
  In (get_id place) (map get_id (snd (keep_new state place))).
Proof.
  destruct state as [seen all]. intros (_ & _ & S) N. unfold keep_new.
  destruct (get_id place) as [|c s] eqn:G; [congruence|].
  cbn [Str.truthy andb].
  destruct (existsb (String.eqb (String c s)) seen) eqn:M; cbn [negb snd].
  - apply existsb_exists in M as (x & I & E). apply String.eqb_eq in E.
    subst x. apply S, I.
  - rewrite map_app, in_app_iff. right. left. exact G.
Qed.

Lemma fold_keep_new_kept results state place :
  deduplicated state -> In place results -> get_id place <> ""%string ->
  In (get_id place) (map get_id (snd (fold_left keep_new results state))).
Proof.
  revert state. induction results as [|p results IH]; intros state D [];
    intros N; simpl.
  - subst p.
    destruct (fold_keep_new_extends results (keep_new state place)) as (a & E).
    rewrite E, map_app, in_app_iff. left. apply keep_new_kept; assumption.
  - apply IH; [apply keep_new_deduplicated, D|assumption|exact N].
Qed.

Lemma grid_tiles_complete max_retries provider query radius max_pages total
      centers i state t results place :
  deduplicated state ->
  In t (tiles (grid_tiles max_retries provider query radius max_pages total
                          centers i state)) ->
  text_search max_retries provider query (Some (tile_location t))
              (Some (tile_radius t)) (tile_max_pages t) = Returned results ->
  In place results -> get_id place <> ""%string ->
  In (get_id place)
     (map get_id (found (grid_tiles max_retries provider query radius max_pages
                                    total centers i state))).
Proof.
  revert i state. induction centers as [|[lat lng] centers IH];
    intros i state D T R I N.
  - destruct T.
  - cbn [grid_tiles tiles found] in *.
    destruct T as [<-|T].
    + cbn [tile_location tile_radius tile_max_pages] in R. rewrite R.
      destruct (grid_tiles_extends max_retries provider query radius max_pages
                  total centers (i + 1)%Z (fold_left keep_new results state))
        as (a & E).
      rewrite E, map_app, in_app_iff. left.
      apply fold_keep_new_kept; assumption.
    + apply IH; [|exact T|exact R|exact I|exact N].
      destruct (text_search max_retries provider query (Some (LatLng lat lng))
                            (Some radius) max_pages);
        [apply fold_keep_new_deduplicated|]; exact D.
Qed.

(** X9.  [grid_search] loses no place: every place with an id that the
    search of one of its tiles returns is represented, by its id, in the
    places returned. *)
Theorem grid_search_complete (max_retries : nat) (provider : Provider)
        (query : string) (center_lat center_lng cos_lat radius_km : Q)
        (max_pages : Z) (run : GridRun) (t : TileSearch)
        (results : list RawPlace) (place : RawPlace) :
  grid_search max_retries provider query center_lat center_lng cos_lat
              radius_km max_pages = Returned run ->
  In t (tiles run) ->
  text_search max_retries provider query (Some (tile_location t))
              (Some (tile_radius t)) (tile_max_pages t) = Returned results ->
  In place results -> get_id place <> ""%string ->
  In (get_id place) (map get_id (found run)).
Proof.
  unfold grid_search.
  destruct (grid_plan radius_km) as [[n c]|]; [|discriminate].
  destruct (grid_centers center_lat center_lng cos_lat n c) as [centers|];
    [|discriminate].
  intros [= <-]. apply grid_tiles_complete.
  unfold deduplicated. simpl.
  split; [constructor|]. split; [intros p []|]. intros id. tauto.
Qed.

Lemma grid_search_complete_witness :
  exists run,
    grid_search 3 provider_one_cafe "cafes" 25.2 55.27 0.9 1 3 = Returned run /\
    In "ChIJ1" (map get_id (found run)).
Proof.
  eexists. split; [vm_compute; reflexivity|].
  eapply (grid_search_complete 3 provider_one_cafe "cafes" 25.2 55.27 0.9 1 3 _
            _ [sample_raw "ChIJ1" "Marina Cafe"]
            (sample_raw "ChIJ1" "Marina Cafe")).
  - vm_compute. reflexivity.
  - left. reflexivity.
  - reflexivity.
  - left. reflexivity.
  - discriminate.
Defined.

End GridProgress.

Module IngestionMore.
Import Models Tenacity TenacityFacts PlacesClient IngestionFacts TextSearchFacts.

Lemma upsert_one_blank max_retries provider search_query search_location now
      st raw :
  get_id raw = ""%string ->
  upsert_one max_retries provider search_query search_location now st raw = st.
Proof. unfold upsert_one. intros ->. reflexivity. Qed.

Lemma upsert_loop_blank max_retries provider search_query search_location now
      raws st :
  fold_left (upsert_one max_retries provider search_query search_location now)
            raws st
  = fold_left (upsert_one max_retries provider search_query search_location now)
              (filter (fun raw => negb (String.eqb (get_id raw) "")) raws) st.
Proof.
  revert st. induction raws as [|raw raws IH]; intros st; simpl;
    [reflexivity|].
  destruct (String.eqb (get_id raw) "") eqn:E; simpl.
  - apply String.eqb_eq in E. rewrite upsert_one_blank by exact E. apply IH.
  - apply IH.
Qed.

(** X10.  [upsert_places] ignores the records without an id: the table, the
    cache and the places returned are those of the batch without them. *)
Theorem upsert_ignores_blank_ids (max_retries : nat) (provider : Provider)
        (t : Table) (cache : list string) (raw_results : list RawPlace)
        (search_query : string) (search_location : option string) (now : Z) :
  upsert_places max_retries provider t cache raw_results search_query
                search_location now
  = upsert_places max_retries provider t cache
                  (filter (fun raw => negb (String.eqb (get_id raw) ""))
                          raw_results)
                  search_query search_location now.
Proof. unfold upsert_places. rewrite upsert_loop_blank. reflexivity. Qed.

(** The details call returns no place when no attempt gets a 2xx answer
    with one. *)
Lemma details_not_fetched max_retries provider cache gp_id :
  (forall n status_code d,
     get_details provider gp_id n = Responded status_code (DetailsPlace d) ->
     is_success status_code = false) ->
  forall d,
    result (fst (get_place_details max_retries provider cache gp_id))
    <> Returned (Some d).
Proof.
  intros N d H. unfold get_place_details in H. cbn [fst] in H.
  apply call_returned in H as (n & A). unfold details_attempt in A.
  destruct (existsb (String.eqb gp_id) cache); [discriminate|].
  destruct (get_details provider gp_id n) as [e|status_code data] eqn:G;
    [discriminate|].
  destruct (is_success status_code) eqn:S; [|discriminate].
  simpl in A. destruct data as [m|r]; [discriminate|].
  rewrite (N _ _ _ G) in S. discriminate.
Qed.



(** One step of the loop keeps the rows and the ids collected, and
    collects the row id of a row with the id of the record. *)
Lemma upsert_one_collects max_retries provider search_query search_location
      now st raw :
  let st' := upsert_one max_retries provider search_query search_location now
                        st raw in
  (forall p, In p (rows (table st)) -> In p (rows (table st'))) /\
  (forall i, In i (ids st) -> In i (ids st')) /\
  (get_id raw <> ""%string ->
   exists p, In p (rows (table st')) /\ place_id p = get_id raw /\
             In (row_id p) (ids st')).
Proof.
  unfold upsert_one. cbv zeta.
  destruct (get_id raw) as [|c gp] eqn:G.
  - simpl. split; [tauto|]. split; [tauto|]. congruence.
  - simpl negb. cbv iota.
    destruct (find_place (String c gp) (table st)) as [old|] eqn:F.
    + simpl. split; [tauto|].
      split; [intros i I; apply in_app_iff; left; exact I|].
      intros _. apply find_place_Some in F as [I E].
      exists old. split; [exact I|]. split; [exact E|].
      apply in_app_iff. right. left. reflexivity.
    + destruct (get_place_details max_retries provider (cache st) (String c gp))
        as [run cache'].
      rewrite (pg_upsert_new _ _ _ _ _ _ F). simpl.
      split; [intros p I; apply in_app_iff; left; exact I|].
      split; [intros i I; apply in_app_iff; left; exact I|].
      intros _. eexists. split; [apply in_app_iff; right; left; reflexivity|].
      split; [reflexivity|]. apply in_app_iff. right. left. reflexivity.
Qed.

Lemma upsert_loop_collects max_retries provider search_query search_location
      now raws st :
  let st' := fold_left (upsert_one max_retries provider search_query
                                   search_location now) raws st in
  (forall p, In p (rows (table st)) -> In p (rows (table st'))) /\
  (forall i, In i (ids st) -> In i (ids st')) /\
  (forall raw, In raw raws -> get_id raw <> ""%string ->
     exists p, In p (rows (table st')) /\ place_id p = get_id raw /\
               In (row_id p) (ids st')).
Proof.
  revert st. induction raws as [|raw raws IH]; intros st; simpl.
  - split; [tauto|]. split; [tauto|]. intros raw [].
  - destruct (upsert_one_collects max_retries provider search_query
                search_location now st raw) as (R1 & I1 & C1).
    destruct (IH (upsert_one max_retries provider search_query search_location
                             now st raw)) as (R2 & I2 & C2).
    split; [intros p I; apply R2, R1, I|].
    split; [intros i I; apply I2, I1, I|].
    intros r [<-|I] N; [|exact (C2 r I N)].
    destruct (C1 N) as (p & Ip & E & Ii).
    exists p. split; [apply R2, Ip|]. split; [exact E|apply I2, Ii].
Qed.

(** X12.  [upsert_places] returns a stored place for every record of the
    batch that has an id, whether it was stored before or by the call;
    and every place it returns is a row of the table it leaves. *)
Theorem upsert_returns_every_record
        (max_retries : nat) (provider : Provider) (t : Table)
        (cache : list string) (raw_results : list RawPlace)
        (search_query : string) (search_location : option string) (now : Z) :
  let '(t', _, places) :=
    upsert_places max_retries provider t cache raw_results search_query
                  search_location now in
  (forall raw, In raw raw_results -> get_id raw <> ""%string ->
     exists p, In p places /\ place_id p = get_id raw) /\
  (forall p, In p places -> In p (rows t')) /\
  (forall p, In p (rows t) -> In p (rows t')).
Proof.
  unfold upsert_places.
  destruct (upsert_loop_collects max_retries provider search_query
              search_location now raw_results (mkIngest t cache []))
    as (R & _ & C).
  split; [|split].
  - intros raw I N. destruct (C raw I N) as (p & Ip & E & Ii).
    exists p. split; [|exact E].
    unfold select_in. apply filter_In. split; [exact Ip|].
    apply existsb_exists. exists (row_id p). split; [exact Ii|apply Z.eqb_refl].
  - intros p I. unfold select_in in I. apply filter_In in I. apply I.
  - exact R.
Qed.

Lemma upsert_returns_every_record_witness :
  exists p,
    In p (snd (upsert_places 3 provider_404 sample_table []
                             [sample_raw "ChIJ1" "Marina Cafe"] "cafes" None
                             2000)) /\
    place_id p = "ChIJ1".
Proof.
  pose proof (upsert_returns_every_record 3 provider_404 sample_table []
                [sample_raw "ChIJ1" "Marina Cafe"] "cafes" None 2000) as H.
  destruct (upsert_places 3 provider_404 sample_table []
                          [sample_raw "ChIJ1" "Marina Cafe"] "cafes" None 2000)
    as [[t' cache'] places].
  destruct H as (H & _).
  apply (H (sample_raw "ChIJ1" "Marina Cafe")).
  - left. reflexivity.
  - discriminate.
Defined.

End IngestionMore.

(** ** More on the enricher *)

Module SaveFacts.
Import Models Tenacity Enrichment.

Lemma add_emails_keeps place_db_id emails rows r :
  In r rows -> In r (add_emails place_db_id emails rows).
Proof.
  revert rows. induction emails as [|[e src] emails IH]; intros rows I; simpl;
    [exact I|].
  apply IH. destruct (existsb _ rows); [exact I|].
  apply in_app_iff. left. exact I.
Qed.

Lemma present_spec place_db_id e rows :
  existsb (fun r => (email_place_id r =? place_db_id)%Z &&
                    String.eqb (email r) e) rows = true <->
  In (place_db_id, e) (map uq_place_email rows).
Proof.
  rewrite existsb_exists, in_map_iff. split.
  - intros (r & I & H). apply andb_prop in H as [P E].
    apply Z.eqb_eq in P. apply String.eqb_eq in E.
    exists r. split; [|exact I]. unfold uq_place_email. congruence.
  - intros (r & [= P E] & I). exists r. split; [exact I|].
    rewrite P, E, Z.eqb_refl, String.eqb_refl. reflexivity.
Qed.

Lemma add_emails_NoDup place_db_id emails rows :
  NoDup (map uq_place_email rows) ->
  NoDup (map uq_place_email (add_emails place_db_id emails rows)).
Proof.
  revert rows. induction emails as [|[e src] emails IH]; intros rows N; simpl;
    [exact N|].
  apply IH.
  destruct (existsb _ rows) eqn:P; [exact N|].
  rewrite map_app. simpl.
  apply NoDup_app; [exact N|repeat constructor; intros []|].
  intros k I [<-|[]].
  apply (proj2 (present_spec place_db_id e rows)) in I. congruence.
Qed.

Lemma add_emails_stores place_db_id emails rows e src :
  In (e, src) emails ->
  In (place_db_id, e)
     (map uq_place_email (add_emails place_db_id emails rows)).
Proof.
  revert rows. induction emails as [|[e' src'] emails IH]; intros rows [];
    simpl.
  - injection H as -> ->.
    destruct (existsb _ rows) eqn:P.
    + apply present_spec in P. apply in_map_iff in P as (r & K & I).
      apply in_map_iff. exists r. split; [exact K|].
      apply add_emails_keeps, I.
    + apply in_map_iff. eexists. split; [|apply add_emails_keeps].
      2:{ apply in_app_iff. right. left. reflexivity. }
      reflexivity.
  - apply IH, H.
Qed.

(** Whatever [add_emails] adds is a row of the place for one of the
    emails given, with its source. *)
Lemma add_emails_only place_db_id emails rows r :
  In r (add_emails place_db_id emails rows) ->
  In r rows \/
  exists e src, In (e, src) emails /\ r = mkPlaceEmail place_db_id e (Some src).
Proof.
  revert rows. induction emails as [|[e src] emails IH]; intros rows I;
    simpl in I; [left; exact I|].
  apply IH in I as [I|(e' & src' & I & ->)].
  - destruct (existsb _ rows); [left; exact I|].
    apply in_app_iff in I as [I|[<-|[]]]; [left; exact I|].
    right. exists e, src. split; [left; reflexivity|reflexivity].
  - right. exists e', src'. split; [right; exact I|reflexivity].
Qed.

Lemma map_replace_ids place_db_id data (l : list PlaceEnrichment) :
  map enrichment_place_id
      (map (fun r => if (enrichment_place_id r =? place_db_id)%Z
                     then row_of place_db_id data else r) l)
  = map enrichment_place_id l.
Proof.
  rewrite map_map. apply map_ext. intros r.
  destruct (enrichment_place_id r =? place_db_id)%Z eqn:E; [|reflexivity].
  apply Z.eqb_eq in E. rewrite E. reflexivity.
Qed.

(** X13.  [_save_enrichment] keeps the unique constraints of the two tables
    it writes: one enrichment record for a place, one row for a place and
    an email.  Afterwards the record of the place is the one given, the
    records of the other places are as before, every email given has its
    row, the rows there were are kept, and the rows added are those of
    the place for the emails given; nothing is committed. *)
Theorem save_enrichment_keeps_constraints
        (db : Session) (place_db_id : Z) (data : EnrichmentData)
        (emails : list (string * string)) :
  NoDup (map enrichment_place_id (enrichments (pending db))) ->
  NoDup (map uq_place_email (email_rows (pending db))) ->
  let db' := _save_enrichment db place_db_id data emails in
  NoDup (map enrichment_place_id (enrichments (pending db'))) /\
  NoDup (map uq_place_email (email_rows (pending db'))) /\
  (forall r, In r (enrichments (pending db')) ->
     if (enrichment_place_id r =? place_db_id)%Z
     then r = row_of place_db_id data
     else In r (enrichments (pending db))) /\
  In (row_of place_db_id data) (enrichments (pending db')) /\
  (forall r, In r (enrichments (pending db)) ->
     enrichment_place_id r <> place_db_id ->
     In r (enrichments (pending db'))) /\
  (forall e src, In (e, src) emails ->
     In (place_db_id, e) (map uq_place_email (email_rows (pending db')))) /\
  (forall r, In r (email_rows (pending db)) ->
     In r (email_rows (pending db'))) /\
  (forall r, In r (email_rows (pending db')) ->
     In r (email_rows (pending db)) \/
     exists e src, In (e, src) emails /\
                   r = mkPlaceEmail place_db_id e (Some src)) /\
  committed db' = committed db /\ commits db' = commits db.
Proof.
  intros NE NM db'. unfold db', _save_enrichment. cbv zeta.
  cbn [pending enrichments email_rows committed commits].
  split; [|split; [|split; [|split; [|split; [|split; [|split; [|split]]]]]]].
  - destruct (existsb _ (enrichments (pending db))) eqn:E.
    + rewrite map_replace_ids. exact NE.
    + rewrite map_app. simpl.
      apply NoDup_app; [exact NE|repeat constructor; intros []|].
      intros k I [<-|[]]. apply in_map_iff in I as (r & K & I).
      assert (X : existsb (fun r => (enrichment_place_id r =? place_db_id)%Z)
                          (enrichments (pending db)) = true).
      { apply existsb_exists. exists r. split; [exact I|].
        apply Z.eqb_eq. exact K. }
      congruence.
  - apply add_emails_NoDup, NM.
  - intros r I. destruct (existsb _ (enrichments (pending db))) eqn:E.
    + apply in_map_iff in I as (r0 & K & I).
      destruct (enrichment_place_id r0 =? place_db_id)%Z eqn:R0.
      * subst r. simpl. rewrite Z.eqb_refl. reflexivity.
      * subst r. rewrite R0. exact I.
    + apply in_app_iff in I as [I|[<-|[]]].
      * destruct (enrichment_place_id r =? place_db_id)%Z eqn:R; [|exact I].
        assert (X : existsb (fun r => (enrichment_place_id r =? place_db_id)%Z)
                            (enrichments (pending db)) = true).
        { apply existsb_exists. exists r. split; [exact I|exact R]. }
        congruence.
      * simpl. rewrite Z.eqb_refl. reflexivity.
  - destruct (existsb _ (enrichments (pending db))) eqn:E.
    + apply existsb_exists in E as (r & I & R).
      apply in_map_iff. exists r. rewrite R. split; [reflexivity|exact I].
    + apply in_app_iff. right. left. reflexivity.
  - intros r I N. apply Z.eqb_neq in N.
    destruct (existsb _ (enrichments (pending db))).
    + apply in_map_iff. exists r. rewrite N. split; [reflexivity|exact I].
    + apply in_app_iff. left. exact I.
  - intros e src I. apply add_emails_stores with (src := src), I.
  - intros r I. apply add_emails_keeps, I.
  - intros r I. apply add_emails_only, I.
  - split; reflexivity.
Qed.

Lemma save_enrichment_keeps_constraints_witness :
  let db' := _save_enrichment empty_session 1
               (mkEnrichmentData (Some 200%Z) None None (Some true) None)
               [("info@cafe.ae", "homepage")] in
  NoDup (map enrichment_place_id (enrichments (pending db'))) /\
  In (1%Z, "info@cafe.ae") (map uq_place_email (email_rows (pending db'))).
Proof.
  destruct (save_enrichment_keeps_constraints empty_session 1
              (mkEnrichmentData (Some 200%Z) None None (Some true) None)
              [("info@cafe.ae", "homepage")])
    as (N & _ & _ & _ & _ & S & _).
  - constructor.
  - constructor.
  - split; [exact N|]. apply (S "info@cafe.ae" "homepage"). left. reflexivity.
Defined.

End SaveFacts.

Module CrawlFacts.
Import Models Tenacity TenacityFacts Enrichment.

Lemma truthy_Some (o : option string) :
  Str.truthy o = true -> o = Some (Str.or_empty o).
Proof. destruct o as [[|c s]|]; simpl; intros H; congruence. Qed.

(** A page is asked for once or twice. *)
Lemma fetch_page_attempts web url :
  (1 <= attempts (_fetch_page web url) <= 2)%nat.
Proof.
  unfold _fetch_page, call.
  match goal with
  | |- context [retry_loop ?pol ?f ?r ?n] =>
      destruct (retry_loop_spec pol f r n) as (B & _)
  end.
  simpl in B. exact B.
Qed.

Lemma fetch_events_spec web url e :
  In e (fetch_events url (_fetch_page web url)) -> e = GetPage url.
Proof. unfold fetch_events. intros I. apply repeat_spec in I. exact I. Qed.

Lemma fetch_events_length web url :
  (List.length (fetch_events url (_fetch_page web url)) <= 2)%nat.
Proof.
  unfold fetch_events. rewrite repeat_length. apply fetch_page_attempts.
Qed.

(** The requests of [read_homepage]: at most two, for the contact page
    found in the homepage. *)
Lemma read_homepage_events web website html :
  let '(_, _, _, events) := read_homepage web website html in
  (List.length events <= 2)%nat /\
  forall e, In e events ->
    exists url, e = GetPage url /\ _find_contact_page web html website = Some url.
Proof.
  unfold read_homepage. cbv zeta.
  destruct (Str.truthy (_find_contact_page web html website)) eqn:T.
  - split; [apply fetch_events_length|].
    intros e I. apply fetch_events_spec in I.
    eexists. split; [exact I|]. apply truthy_Some, T.
  - split; [simpl; lia|]. intros e [].
Qed.


Lemma add_sources_keeps source found all_emails kv :
  In kv all_emails -> In kv (add_sources source found all_emails).
Proof.
  revert all_emails. induction found as [|e found IH]; intros all_emails I;
    simpl; [exact I|].
  apply IH. destruct (existsb _ all_emails); [exact I|].
  apply in_app_iff. left. exact I.
Qed.

Lemma key_present e (all_emails : list (string * string)) :
  existsb (fun kv => String.eqb (fst kv) e) all_emails = true <->
  In e (map fst all_emails).
Proof.
  rewrite existsb_exists, in_map_iff. split.
  - intros (kv & I & E). apply String.eqb_eq in E. exists kv. tauto.
  - intros (kv & E & I). exists kv. split; [exact I|].
    apply String.eqb_eq, E.
Qed.

Lemma add_sources_NoDup source found all_emails :
  NoDup (map fst all_emails) ->
  NoDup (map fst (add_sources source found all_emails)).
Proof.
  revert all_emails. induction found as [|e found IH]; intros all_emails N;
    simpl; [exact N|].
  apply IH. destruct (existsb _ all_emails) eqn:P; [exact N|].
  rewrite map_app. simpl.
  apply NoDup_app; [exact N|repeat constructor; intros []|].
  intros k I [<-|[]]. apply key_present in I. congruence.
Qed.

Lemma add_sources_only source found all_emails kv :
  In kv (add_sources source found all_emails) ->
  In kv all_emails \/
  (snd kv = source /\ In (fst kv) found /\ ~ In (fst kv) (map fst all_emails)).
Proof.
  revert all_emails. induction found as [|e found IH]; intros all_emails I;
    simpl in I; [left; exact I|].
  apply IH in I as [I|(S & F & N)].
  - destruct (existsb _ all_emails) eqn:P; [left; exact I|].
    apply in_app_iff in I as [I|[<-|[]]]; [left; exact I|].
    right. simpl. split; [reflexivity|]. split; [left; reflexivity|].
    intros K. apply key_present in K. congruence.
  - right. split; [exact S|]. split; [right; exact F|].
    intros K. apply N. destruct (existsb _ all_emails); [exact K|].
    rewrite map_app. apply in_app_iff. left. exact K.
Qed.

Lemma add_sources_first source found e :
  In e found -> In (e, source) (add_sources source found []).
Proof.
  assert (G : forall all_emails,
             (forall kv, In kv all_emails -> snd kv = source) ->
             In e found -> In (e, source) (add_sources source found all_emails)).
  { induction found as [|e' found IH]; intros all_emails A []; simpl.
    - subst e'. apply add_sources_keeps.
      destruct (existsb _ all_emails) eqn:P.
      + apply key_present in P. apply in_map_iff in P as ([k v] & K & I).
        simpl in K. subst k. rewrite <- (A _ I). exact I.
      + apply in_app_iff. right. left. reflexivity.
    - apply IH; [|exact H].
      intros kv I. destruct (existsb _ all_emails); [exact (A kv I)|].
      apply in_app_iff in I as [I|[<-|[]]]; [exact (A kv I)|reflexivity]. }
  apply G. intros kv [].
Qed.

(** X15.  The sources of the emails of a crawl.  No email is listed twice;
    every email of the homepage is listed with the source [homepage], and
    the source [contact_page] is given only to emails that the homepage
    does not show. *)
Theorem homepage_source_wins (web : Web) (website html : string) :
  let '(_, _, all_emails, _) := read_homepage web website html in
  NoDup (map fst all_emails) /\
  (forall e, In e (_extract_emails html) <-> In (e, "homepage") all_emails) /\
  (forall e source, In (e, source) all_emails ->
     source = "homepage" \/
     source = "contact_page" /\ ~ In e (_extract_emails html)).
Proof.
  unfold read_homepage. cbv zeta.
  set (home := add_sources "homepage" (_extract_emails html) []).
  assert (N : NoDup (map fst home)) by (apply add_sources_NoDup; constructor).
  assert (F : forall e, In e (_extract_emails html) -> In (e, "homepage") home)
    by (intros e; apply add_sources_first).
  assert (O : forall e source, In (e, source) home ->
                source = "homepage" /\ In e (_extract_emails html)).
  { intros e source I. apply add_sources_only in I as [[]|(S & I & _)].
    simpl in S, I. split; [congruence|exact I]. }
  assert (Base : NoDup (map fst home) /\
                 (forall e, In e (_extract_emails html) <->
                            In (e, "homepage") home) /\
                 (forall e source, In (e, source) home ->
                    source = "homepage" \/
                    source = "contact_page" /\ ~ In e (_extract_emails html))).
  { split; [exact N|]. split.
    - intros e. split; [apply F|]. intros I. apply (O _ _ I).
    - intros e source I. left. apply (O _ _ I). }
  destruct (Str.truthy (_find_contact_page web html website)); [|exact Base].
  destruct (result (_fetch_page web _)) as [[cp_status cp_html]|exc];
    [|exact Base].
  destruct ((cp_status =? 200)%Z && Str.truthy (Some cp_html)); [|exact Base].
  split; [apply add_sources_NoDup, N|]. split.
  - intros e. split.
    + intros I. apply add_sources_keeps, F, I.
    + intros I. apply add_sources_only in I as [I|(S & _)].
      * apply (O _ _ I).
      * simpl in S. discriminate.
  - intros e source I. apply add_sources_only in I as [I|(S & _ & K)].
    + left. apply (O _ _ I).
    + simpl in S, K. right. split; [congruence|].
      intros H. apply K. apply in_map_iff. exists (e, "homepage").
      split; [reflexivity|apply F, H].
Qed.

End CrawlFacts.

Module BatchFacts.
Import Models Tenacity Enrichment SaveFacts CrawlFacts.

(** The place [enrich_place] returns: the place itself without a
    website, and otherwise the place stamped, whatever the crawl gave. *)
Lemma enrich_place_returns respect_robots_txt web now db place :
  fst (fst (enrich_place respect_robots_txt web now db place))
  = if Str.truthy (website place) then stamp_place place now else place.
Proof.
  unfold enrich_place.
  destruct (Str.truthy (website place)); [|reflexivity].
  simpl negb. cbv iota.
  destruct (_check_robots respect_robots_txt web _) as [[|] robots_events];
    [|reflexivity].
  simpl negb. cbv iota.
  destruct (result (_fetch_page web _)) as [[status html]|exc];
    [destruct ((status =? 200)%Z && Str.truthy (Some html));
     [destruct (read_homepage web _ html)
        as [[[title contact_url] all_emails] ev]|]|];
    reflexivity.
Qed.

(** X16.  [enrich_places_batch] returns the places given, in their order:
    a place without a website as it is, and a place with one stamped
    with the time of its enrichment, whether its site was crawled,
    forbade crawling or could not be reached. *)
Theorem enrich_places_batch_returns (respect_robots_txt : bool)
        (web : Place -> Web) (now : Place -> Z) (db : Session)
        (places : list Place) :
  fst (fst (enrich_places_batch respect_robots_txt web now db places))
  = map (fun place =>
           if Str.truthy (website place) then stamp_place place (now place)
           else place)
        places.
Proof.
  revert db. induction places as [|place places IH]; intros db;
    [reflexivity|].
  cbn [enrich_places_batch map].
  pose proof (enrich_place_returns respect_robots_txt (web place) (now place)
                                   db place) as E.
  destruct (enrich_place respect_robots_txt (web place) (now place) db place)
    as [[p db1] ev1].
  specialize (IH db1).
  destruct (enrich_places_batch respect_robots_txt web now db1 places)
    as [[ps db2] ev2].
  cbn [fst] in *. rewrite E, IH. reflexivity.
Qed.

(** What the session holds for a place. *)
Lemma save_enrichment_known db place_db_id data emails k :
  (exists r, In r (enrichments (pending db)) /\ enrichment_place_id r = k) ->
  exists r,
    In r (enrichments (pending (_save_enrichment db place_db_id data emails)))
    /\ enrichment_place_id r = k.
Proof.
  intros (r & I & K). unfold _save_enrichment. cbv zeta.
  cbn [pending enrichments].
  destruct (existsb _ (enrichments (pending db))).
  - destruct (enrichment_place_id r =? place_db_id)%Z eqn:E.
    + exists (row_of place_db_id data). split.
      * apply in_map_iff. exists r. rewrite E. split; [reflexivity|exact I].
      * apply Z.eqb_eq in E. simpl. congruence.
    + exists r. split; [|exact K].
      apply in_map_iff. exists r. rewrite E. split; [reflexivity|exact I].
  - exists r. split; [apply in_app_iff; left; exact I|exact K].
Qed.

Lemma save_enrichment_new db place_db_id data emails :
  exists r,
    In r (enrichments (pending (_save_enrichment db place_db_id data emails)))
    /\ enrichment_place_id r = place_db_id.
Proof.
  exists (row_of place_db_id data). split; [|reflexivity].
  unfold _save_enrichment. cbv zeta. cbn [pending enrichments].
  destruct (existsb _ (enrichments (pending db))) eqn:E.
  - apply existsb_exists in E as (r & I & R).
    apply in_map_iff. exists r. rewrite R. split; [reflexivity|exact I].
  - apply in_app_iff. right. left. reflexivity.
Qed.

(** The place [k] is on record in the session: it has an enrichment
    record and a stamp. *)
Lemma enrich_place_session respect_robots_txt web now db place :
  let db' := snd (fst (enrich_place respect_robots_txt web now db place)) in
  (forall k,
     (exists r, In r (enrichments (pending db)) /\ enrichment_place_id r = k) ->
     exists r, In r (enrichments (pending db')) /\ enrichment_place_id r = k) /\
  (forall kt, In kt (stamps (pending db)) -> In kt (stamps (pending db'))) /\
  (Str.truthy (website place) = true ->
   (exists r, In r (enrichments (pending db')) /\
              enrichment_place_id r = row_id place) /\
   In (row_id place, now) (stamps (pending db')) /\
   (fst (_check_robots respect_robots_txt web (Str.or_empty (website place)))
    = true ->
    committed db' = pending db')).
Proof.
  unfold enrich_place.
  destruct (Str.truthy (website place)).
  2:{ simpl. split; [tauto|]. split; [tauto|discriminate]. }
  simpl negb. cbv iota.
  destruct (_check_robots respect_robots_txt web _) as [[|] robots_events];
    simpl negb; cbv iota.
  - destruct (result (_fetch_page web _)) as [[status html]|exc];
      [destruct ((status =? 200)%Z && Str.truthy (Some html));
       [destruct (read_homepage web _ html)
          as [[[title contact_url] all_emails] ev]|]|];
      cbn [fst snd commit stamp_session pending committed enrichments stamps];
      (split; [intros k K; apply save_enrichment_known, K|]);
      (split; [intros kt I; right; exact I|]);
      intros _; (split; [apply save_enrichment_new|]);
      (split; [left; reflexivity|reflexivity]).
  - cbn [fst snd commit stamp_session pending committed enrichments stamps].
    split; [intros k K; apply save_enrichment_known, K|].
    split; [intros kt I; right; exact I|].
    intros _. split; [apply save_enrichment_new|].
    split; [left; reflexivity|discriminate].
Qed.

Lemma enrich_places_batch_session respect_robots_txt web now db places :
  let db' :=
    snd (fst (enrich_places_batch respect_robots_txt web now db places)) in
  (forall k,
     (exists r, In r (enrichments (pending db)) /\ enrichment_place_id r = k) ->
     exists r, In r (enrichments (pending db')) /\ enrichment_place_id r = k) /\
  (forall kt, In kt (stamps (pending db)) -> In kt (stamps (pending db'))) /\
  (forall q, In q places -> Str.truthy (website q) = true ->
     (exists r, In r (enrichments (pending db')) /\
                enrichment_place_id r = row_id q) /\
     In (row_id q, now q) (stamps (pending db'))).
Proof.
  cbv zeta. revert db. induction places as [|place places IH]; intros db.
  - simpl. split; [tauto|]. split; [tauto|]. intros q [].
  - cbn [enrich_places_batch].
    pose proof (enrich_place_session respect_robots_txt (web place) (now place)
                                     db place) as E.
    destruct (enrich_place respect_robots_txt (web place) (now place) db place)
      as [[p db1] ev1].
    specialize (IH db1).
    destruct (enrich_places_batch respect_robots_txt web now db1 places)
      as [[ps db2] ev2].
    cbn [fst snd] in *. destruct E as (E1 & E2 & E3), IH as (I1 & I2 & I3).
    split; [intros k K; apply I1, E1, K|].
    split; [intros kt K; apply I2, E2, K|].
    intros q [<-|Q] W; [|exact (I3 q Q W)].
    destruct (E3 W) as (R & T & _).
    split; [apply I1, R|apply I2, T].
Qed.

Lemma enrich_places_batch_app respect_robots_txt web now db places place :
  snd (fst (enrich_places_batch respect_robots_txt web now db
                                (places ++ [place])))
  = snd (fst (enrich_place respect_robots_txt (web place) (now place)
                (snd (fst (enrich_places_batch respect_robots_txt web now db
                                               places)))
                place)).
Proof.
  revert db. induction places as [|q places IH]; intros db.
  - cbn [app enrich_places_batch fst snd].
    destruct (enrich_place respect_robots_txt (web place) (now place) db place)
      as [[p db1] ev1].
    reflexivity.
  - cbn [app enrich_places_batch].
    destruct (enrich_place respect_robots_txt (web q) (now q) db q)
      as [[p db1] ev1].
    specialize (IH db1).
    destruct (enrich_places_batch respect_robots_txt web now db1
                                  (places ++ [place])) as [[ps db2] ev2].
    destruct (enrich_places_batch respect_robots_txt web now db1 places)
      as [[ps' db2'] ev2'].
    cbn [fst snd] in *. exact IH.
Qed.

(** X17.  In a batch, a listing that is crawled commits what the session
    holds.  When the last listing of a batch has a website that may be
    crawled, the session has nothing pending after the batch, and every
    listing of the batch with a website, those whose site forbade
    crawling too, has its enrichment record and its stamp committed. *)
Theorem crawled_listing_commits_the_batch
        (respect_robots_txt : bool) (web : Place -> Web) (now : Place -> Z)
        (db : Session) (places : list Place) (place : Place) :
  Str.truthy (website place) = true ->
  fst (_check_robots respect_robots_txt (web place)
                     (Str.or_empty (website place))) = true ->
  let db' :=
    snd (fst (enrich_places_batch respect_robots_txt web now db
                                  (places ++ [place]))) in
  committed db' = pending db' /\
  forall q, In q (places ++ [place]) -> Str.truthy (website q) = true ->
    (exists r, In r (enrichments (committed db')) /\
               enrichment_place_id r = row_id q) /\
    In (row_id q, now q) (stamps (committed db')).
Proof.
  intros W A db'.
  destruct (enrich_places_batch_session respect_robots_txt web now db
                                        (places ++ [place])) as (_ & _ & H).
  fold db' in H.
  assert (C : committed db' = pending db').
  { unfold db'. rewrite enrich_places_batch_app.
    destruct (enrich_place_session respect_robots_txt (web place) (now place)
                (snd (fst (enrich_places_batch respect_robots_txt web now db
                                               places)))
                place) as (_ & _ & E).
    apply (E W), A. }
  split; [exact C|]. rewrite C. exact H.
Qed.

Lemma crawled_listing_commits_the_batch_witness :
  let db' :=
    snd (fst (enrich_places_batch true mixed_web (fun _ => 5000%Z)
                                  empty_session ([cafe] ++ [bistro]))) in
  committed db' = pending db' /\
  exists r, In r (enrichments (committed db')) /\
            enrichment_place_id r = row_id cafe.
Proof.
  destruct (crawled_listing_commits_the_batch true mixed_web
              (fun _ => 5000%Z) empty_session [cafe] bistro eq_refl eq_refl)
    as (C & H).
  split; [exact C|].
  apply (H cafe); [left; reflexivity|reflexivity].
Defined.

End BatchFacts.

(** ** More on the CSV export and the heatmap *)

Module ExportMore.
Import Models CsvExport NumFacts.
Open Scope Q_scope.

Lemma float_or_blank_spec (o : option Q) :
  float_or_blank o = CStr "" <-> (o = None \/ exists x, o = Some x /\ x == 0).
Proof.
  unfold float_or_blank, Num.truthyQ. destruct o as [x|].
  - destruct (Qeq_bool x 0) eqn:E; simpl.
    + apply Qeq_bool_iff in E. split; [|reflexivity].
      intros _. right. exists x. split; [reflexivity|exact E].
    + apply Qeq_bool_neq in E. split; [discriminate|].
      intros [H|(y & [= <-] & Z)]; [discriminate|]. destruct (E Z).
  - split; [left|]; reflexivity.
Qed.

(** X19.  The numeric columns of the export.  A latitude, a longitude or a
    rating is left blank when it is missing and also when it is zero (a
    place on the equator loses its latitude), and so is a zero number of
    reviews; otherwise the value itself is written.  The price level is
    blank only when it is missing: level 0 is written as 0. *)
Theorem zero_coordinates_are_exported_blank (p : Place) :
  (column "Latitude" header (csv_row p) = Some (CStr "") <->
   (latitude p = None \/ exists x, latitude p = Some x /\ x == 0)) /\
  (column "Longitude" header (csv_row p) = Some (CStr "") <->
   (longitude p = None \/ exists x, longitude p = Some x /\ x == 0)) /\
  (column "Rating" header (csv_row p) = Some (CStr "") <->
   (rating p = None \/ exists x, rating p = Some x /\ x == 0)) /\
  (column "Reviews" header (csv_row p) = Some (CStr "") <->
   (user_ratings_total p = None \/ user_ratings_total p = Some 0%Z)) /\
  (column "Price Level" header (csv_row p) = Some (CStr "") <->
   price_level p = None) /\
  (forall x, latitude p = Some x -> ~ x == 0 ->
     column "Latitude" header (csv_row p) = Some (CFloat x)) /\
  (forall x, longitude p = Some x -> ~ x == 0 ->
     column "Longitude" header (csv_row p) = Some (CFloat x)).
Proof.
  assert (S : forall c : Cell, Some c = Some (CStr "") <-> c = CStr "").
  { intros c. split; [intros [= ->]|intros ->]; reflexivity. }
  assert (F : forall o x, o = Some x -> ~ x == 0 -> float_or_blank o = CFloat x).
  { intros o x -> N. unfold float_or_blank, Num.truthyQ.
    destruct (Qeq_bool x 0) eqn:E; [|reflexivity].
    apply Qeq_bool_iff in E. destruct (N E). }
  cbn [column header csv_row String.eqb Ascii.eqb Bool.eqb].
  split; [rewrite S; apply float_or_blank_spec|].
  split; [rewrite S; apply float_or_blank_spec|].
  split; [rewrite S; apply float_or_blank_spec|].
  split; [|split; [|split]].
  - rewrite S. unfold int_or_blank, Num.truthyZ.
    destruct (user_ratings_total p) as [n|].
    + destruct (n =? 0)%Z eqn:E; simpl.
      * apply Z.eqb_eq in E. subst n. split; [right|]; reflexivity.
      * apply Z.eqb_neq in E. split; [discriminate|].
        intros [H|[= H]]; [discriminate|]. destruct (E H).
    + split; [left|]; reflexivity.
  - rewrite S. destruct (price_level p); split; congruence.
  - intros x L N. f_equal. apply F; assumption.
  - intros x L N. f_equal. apply F; assumption.
Qed.

End ExportMore.

Module HeatmapMore.
Import Models Heatmap NumFacts HeatmapFacts.
Open Scope Q_scope.

Lemma ceil_nonpos (x : Q) : x <= 0 -> (Num.ceil x <= 0)%Z.
Proof. intros L. apply ceil_le. exact L. Qed.

Lemma range_nonpos (n : Z) : (n <= 0)%Z -> Num.range n = [].
Proof.
  intros L. pose proof (range_length n) as H.
  replace (Z.to_nat n) with 0%nat in H by lia.
  destruct (Num.range n); [reflexivity|discriminate].
Qed.

Lemma ceil_nonneg (x : Q) : 0 <= x -> (0 <= Num.ceil x)%Z.
Proof.
  intros L. unfold Num.ceil. pose proof (Qle_ceiling x) as C.
  rewrite Zle_Qle. eapply Qle_trans; eassumption.
Qed.

(** X20.  A box that is empty or has its corners swapped along one axis only
    gets no cell: with a positive cell size, when [lat_max <= lat_min]
    and the longitudes are in order (or the other way round),
    [compute_heatmap] returns the empty list. *)
Theorem heatmap_of_empty_box (places : list Place) (now : Z)
        (category : string) (lat_min lat_max lng_min lng_max grid_size : Q) :
  0 < grid_size ->
  (lat_max <= lat_min /\ lng_min <= lng_max) \/
  (lat_min <= lat_max /\ lng_max <= lng_min) ->
  compute_heatmap places now category lat_min lat_max lng_min lng_max grid_size
  = Some [].
Proof.
  intros G B. unfold compute_heatmap, grid. cbv zeta.
  destruct (Qeq_bool grid_size 0) eqn:E.
  { apply Qeq_bool_iff in E. rewrite E in G. discriminate. }
  set (a := Num.ceil ((lat_max - lat_min) / grid_size)).
  set (b := Num.ceil ((lng_max - lng_min) / grid_size)).
  assert (Div : forall d, d <= 0 -> d / grid_size <= 0).
  { intros d D. apply Qle_shift_div_r; [exact G|]. Lqa.lra. }
  assert (Div' : forall d, 0 <= d -> 0 <= d / grid_size).
  { intros d D. apply Qle_shift_div_l; [exact G|]. Lqa.lra. }
  assert (S : ((a <= 0 /\ 0 <= b) \/ (0 <= a /\ b <= 0))%Z).
  { destruct B as [[L1 L2]|[L1 L2]]; [left|right]; split;
      first [apply ceil_nonpos, Div; Lqa.lra|apply ceil_nonneg, Div'; Lqa.lra]. }
  assert (T : (a * b >? 10000)%Z = false).
  { rewrite Z.gtb_ltb. apply Z.ltb_ge. nia. }
  rewrite T.
  destruct S as [[A _]|[_ Bb]].
  - rewrite (range_nonpos a A). reflexivity.
  - rewrite (range_nonpos b Bb).
    induction (Num.range a) as [|i l IH]; [reflexivity|].
    simpl. simpl in IH. injection IH as IH. rewrite IH. reflexivity.
Qed.

Lemma heatmap_of_empty_box_witness :
  compute_heatmap [] 0 "cafe" 25.2 25.1 55.0 55.5 0.01 = Some [].
Proof.
  apply heatmap_of_empty_box.
  - reflexivity.
  - left. split; discriminate.
Defined.

(** The places the heatmap counts: those with both coordinates whose
    search query holds the category, or all of them for the category
    ["*"]. *)
Lemma in_cell_invisible category cell_lat cell_lat_max cell_lng cell_lng_max p :
  latitude p = None \/ longitude p = None \/
  (category <> "*"%string /\ ilike category (search_query p) = false) ->
  in_cell category cell_lat cell_lat_max cell_lng cell_lng_max p = false.
Proof.
  unfold in_cell. intros [H|[H|[N I]]].
  - rewrite H. reflexivity.
  - rewrite H. destruct (latitude p); reflexivity.
  - destruct (latitude p), (longitude p); try reflexivity.
    rewrite I. apply String.eqb_neq in N. rewrite N.
    rewrite !andb_false_r. reflexivity.
Qed.



End HeatmapMore.

(** ** More on the scoring engine *)

Module SubScoreFacts.
Import Models Scoring ScoringFacts.
Open Scope R_scope.

Lemma round_unit (x : R) : 0 <= x <= 1 -> 0 <= round x 4 <= 1.
Proof.
  intros [L U]. split.
  - rewrite <- (round_IZR 0 4). apply round_le, L.
  - rewrite <- (round_IZR 1 4). apply round_le, U.
Qed.

(** A number of hundredths is its own rounding to four places. *)
Lemma round_hundredths (x : R) (k : Z) : x = IZR k / 100 -> round x 4 = x.
Proof.
  intros ->. unfold round.
  replace (IZR k / 100 * 10 ^ 4) with (IZR (k * 100)).
  - rewrite round_half_even_IZR, mult_IZR. simpl. lra.
  - rewrite mult_IZR. simpl. lra.
Qed.

Lemma rating_score_unit (place : Place) : 0 <= _rating_score place <= 1.
Proof.
  unfold _rating_score. destruct (rating place) as [r|]; [|lra].
  destruct (Rlt_dec (Q2R r) 1) as [L|L]; [lra|].
  apply round_unit. split; [|apply Rmin_l].
  apply Rmin_glb; lra.
Qed.

(** X22.  [_rating_score].  A rating below 1 scores 0; a rating of 5 or
    more scores 1; between, the score is [(rating - 1) / 4] rounded to
    four places; and a higher rating never gives a lower score. *)
Theorem rating_score_spec (p q : Place) (x y : Q) :
  rating p = Some x -> rating q = Some y -> (x <= y)%Q ->
  _rating_score p <= _rating_score q /\
  ((x < 1)%Q -> _rating_score p = 0) /\
  ((1 <= x)%Q -> (x <= 5)%Q -> _rating_score p = round ((Q2R x - 1) / 4) 4) /\
  ((5 <= x)%Q -> _rating_score p = 1).
Proof.
  intros P Qy L. apply Qle_Rle in L.
  pose proof (rating_score_unit q) as Uq.
  unfold _rating_score in *. rewrite P. rewrite Qy in *.
  split; [|split; [|split]].
  - destruct (Rlt_dec (Q2R x) 1) as [X|X]; [apply Uq|].
    destruct (Rlt_dec (Q2R y) 1) as [Y|Y]; [lra|].
    apply round_le, Rle_min_compat_l. lra.
  - intros H. apply Qlt_Rlt in H. change (Q2R 1) with (Q2R (1#1)) in H.
    rewrite RMicromega.Q2R_1 in H.
    destruct (Rlt_dec (Q2R x) 1); [reflexivity|lra].
  - intros H1 H5. apply Qle_Rle in H1, H5.
    rewrite RMicromega.Q2R_1 in H1.
    replace (Q2R 5) with 5 in H5 by (unfold Q2R; simpl; lra).
    destruct (Rlt_dec (Q2R x) 1); [lra|].
    rewrite Rmin_right by lra. reflexivity.
  - intros H5. apply Qle_Rle in H5.
    replace (Q2R 5) with 5 in H5 by (unfold Q2R; simpl; lra).
    destruct (Rlt_dec (Q2R x) 1); [lra|].
    rewrite Rmin_left by lra. apply (round_IZR 1 4).
Qed.

Lemma rating_score_spec_witness :
  _rating_score (reviewed None) <= _rating_score marina_cafe /\
  _rating_score marina_cafe = round ((Q2R 4.5 - 1) / 4) 4.
Proof.
  destruct (rating_score_spec marina_cafe marina_cafe 4.5 4.5 eq_refl eq_refl)
    as (_ & _ & F & _); [discriminate|].
  split.
  - apply (rating_score_unit marina_cafe).
  - apply F; discriminate.
Defined.

Lemma accessibility_score_sum (place : Place) :
  _accessibility_score place
  = (if Str.truthy (website place) then 0.30 else 0)
    + (if Str.truthy (formatted_phone_number place) then 0.25 else 0)
    + (if Num.is_some (opening_hours place) then 0.25 else 0)
    + (if Str.truthy (formatted_address place) then 0.20 else 0).
Proof.
  unfold _accessibility_score. cbv zeta.
  set (w := Str.truthy (website place)).
  set (ph := Str.truthy (formatted_phone_number place)).
  set (oh := Num.is_some (opening_hours place)).
  set (ad := Str.truthy (formatted_address place)).
  rewrite (round_hundredths _ ((if w then 30 else 0) + (if ph then 25 else 0)
                               + (if oh then 25 else 0)
                               + (if ad then 20 else 0))%Z);
    destruct w, ph, oh, ad; simpl; lra.
Qed.

Lemma accessibility_score_unit (place : Place) :
  0 <= _accessibility_score place <= 1.
Proof.
  rewrite accessibility_score_sum.
  destruct (Str.truthy (website place)),
           (Str.truthy (formatted_phone_number place)),
           (Num.is_some (opening_hours place)),
           (Str.truthy (formatted_address place)); lra.
Qed.

(** X23.  [_accessibility_score] is the plain sum of the parts present:
    0.30 for a website, 0.25 for a phone number, 0.25 for opening hours
    and 0.20 for an address; the rounding changes nothing.  It lies
    between 0 and 1, and is 1 exactly when all four are there. *)
Theorem accessibility_score_exact (place : Place) :
  _accessibility_score place
  = (if Str.truthy (website place) then 0.30 else 0)
    + (if Str.truthy (formatted_phone_number place) then 0.25 else 0)
    + (if Num.is_some (opening_hours place) then 0.25 else 0)
    + (if Str.truthy (formatted_address place) then 0.20 else 0) /\
  0 <= _accessibility_score place <= 1 /\
  (_accessibility_score place = 1 <->
   Str.truthy (website place) = true /\
   Str.truthy (formatted_phone_number place) = true /\
   Num.is_some (opening_hours place) = true /\
   Str.truthy (formatted_address place) = true).
Proof.
  split; [apply accessibility_score_sum|].
  split; [apply accessibility_score_unit|].
  rewrite accessibility_score_sum.
  destruct (Str.truthy (website place)),
           (Str.truthy (formatted_phone_number place)),
           (Num.is_some (opening_hours place)),
           (Str.truthy (formatted_address place));
    (split; [intros H; try (repeat split; reflexivity); exfalso; lra
            |intros (A & B & C & D); try discriminate; lra]).
Qed.

Lemma ln2_gt_0 : 0 < ln 2.
Proof. rewrite <- ln_1. apply ln_increasing; lra. Qed.

Lemma ln_succ_pos (n : Z) : (1 <= n)%Z -> 0 < ln (IZR (n + 1)).
Proof.
  intros L. rewrite <- ln_1. apply ln_increasing; [lra|].
  apply IZR_lt. lia.
Qed.

Lemma inverse_density_unit (n : Z) : (0 <= n)%Z -> 0 <= inverse_density n <= 1.
Proof.
  intros N. unfold inverse_density.
  destruct (n =? 0)%Z; [lra|]. cbv zeta.
  apply round_unit. split; [apply Rmax_l|].
  apply Rmax_lub; [lra|apply Rmin_l].
Qed.

(** More competitors, lower score. *)
Lemma inverse_density_antitone (n m : Z) :
  (0 <= n <= m)%Z -> inverse_density m <= inverse_density n.
Proof.
  intros [N L].
  pose proof (inverse_density_unit m ltac:(lia)) as Um.
  unfold inverse_density in *.
  destruct (n =? 0)%Z eqn:En; [apply Um|]. apply Z.eqb_neq in En.
  destruct (m =? 0)%Z eqn:Em; [apply Z.eqb_eq in Em; lia|]. cbv zeta.
  apply round_le. apply Rle_max_compat_l. apply Rle_min_compat_l.
  pose proof (ln_succ_pos n ltac:(lia)) as Pn.
  assert (Le : ln (IZR (n + 1)) <= ln (IZR (m + 1))).
  { destruct (Z.eq_dec n m) as [->|D]; [lra|].
    left. apply ln_increasing; [apply IZR_lt; lia|apply IZR_lt; lia]. }
  unfold Rdiv. rewrite !Rmult_1_l.
  apply Rinv_le_contravar; lra.
Qed.

Lemma nearby_app places places' id lat lng dlat dlng :
  nearby (places ++ places') id lat lng dlat dlng
  = (nearby places id lat lng dlat dlng
       ++ nearby places' id lat lng dlat dlng)%list.
Proof. unfold nearby. apply filter_app. Qed.

(** The rows with the id of the place are not counted. *)
Lemma nearby_not_self places id lat lng dlat dlng :
  nearby (filter (fun p => negb (row_id p =? id)%Z) places) id lat lng dlat dlng
  = nearby places id lat lng dlat dlng.
Proof.
  unfold nearby. induction places as [|p places IH]; [reflexivity|].
  cbn [filter]. destruct (row_id p =? id)%Z eqn:E; cbn [negb].
  - rewrite andb_false_r. exact IH.
  - cbn [filter]. rewrite E. cbn [negb].
    destruct (_ && _ && true); [rewrite IH|]; [reflexivity|exact IH].
Qed.

Lemma competition_score_unit (places : list Place) (place : Place)
      (radius_km : R) :
  0 <= _competition_score places place radius_km <= 1.
Proof.
  unfold _competition_score.
  destruct (latitude place) as [lat|]; [destruct (longitude place) as [lng|]|];
    try lra.
  cbv zeta. apply inverse_density_unit. lia.
Qed.

(** X24.  [_competition_score].  A place without coordinates gets the
    neutral 0.5.  Otherwise the score lies between 0 and 1, is 1 when no
    other place is in the box around it, never counts the rows of the
    place itself, and does not go up when a place is added to the
    table. *)
Theorem competition_score_spec (before after : list Place) (q place : Place)
        (radius_km : R) :
  0 <= _competition_score (before ++ after) place radius_km <= 1 /\
  (latitude place = None \/ longitude place = None ->
   _competition_score (before ++ after) place radius_km = 0.5) /\
  _competition_score
    (filter (fun p => negb (row_id p =? row_id place)%Z) (before ++ after))
    place radius_km
  = _competition_score (before ++ after) place radius_km /\
  _competition_score (before ++ q :: after) place radius_km
  <= _competition_score (before ++ after) place radius_km /\
  (row_id q = row_id place ->
   _competition_score (before ++ q :: after) place radius_km
   = _competition_score (before ++ after) place radius_km).
Proof.
  unfold _competition_score.
  destruct (latitude place) as [lat|]; [destruct (longitude place) as [lng|]|].
  - cbv zeta.
    split; [apply inverse_density_unit; lia|].
    split; [intros [H|H]; discriminate|].
    split; [rewrite nearby_not_self; reflexivity|].
    split.
    + apply inverse_density_antitone. split; [lia|].
      rewrite !nearby_app, !length_app.
      change (q :: after) with ([q] ++ after)%list.
      rewrite nearby_app, length_app. lia.
    + intros E. do 2 f_equal.
      rewrite !nearby_app. f_equal.
      unfold nearby. cbn [filter]. rewrite E, Z.eqb_refl. cbn [negb].
      rewrite andb_false_r. reflexivity.
  - split; [lra|]. split; [reflexivity|]. split; [reflexivity|].
    split; [lra|reflexivity].
  - split; [lra|]. split; [reflexivity|]. split; [reflexivity|].
    split; [lra|reflexivity].
Qed.

(** X25.  The scores of a place.  The four sub-scores and the composite
    score that [score_place] returns all lie between 0 and 1, and the
    composite is the weighted sum of the four, rounded to four places. *)
Theorem scores_in_unit_interval (now : Z) (db : ScoreDb) (place : Place) :
  let s := fst (score_place now db place) in
  0 <= demand_score s <= 1 /\
  0 <= competition_score s <= 1 /\
  0 <= accessibility_score s <= 1 /\
  0 <= rating_score s <= 1 /\
  0 <= composite_score s <= 1 /\
  composite_score s
  = round (0.30 * demand_score s + 0.25 * competition_score s
           + 0.20 * accessibility_score s + 0.25 * rating_score s) 4 /\
  score_place_id s = row_id place.
Proof.
  cbv zeta. unfold score_place. cbn [fst]. unfold score_of. cbv zeta.
  cbn [demand_score competition_score accessibility_score rating_score
       composite_score score_place_id].
  pose proof (demand_score_nonneg place) as D0.
  pose proof (demand_score_le_1 place) as D1.
  pose proof (rating_score_unit place) as R.
  pose proof (accessibility_score_unit place) as A.
  pose proof (competition_score_unit (places_table db) place 2.0) as C.
  split; [lra|]. split; [exact C|]. split; [exact A|]. split; [exact R|].
  split; [|split; [|reflexivity]].
  - apply round_unit. unfold weighted. lra.
  - f_equal. unfold weighted. lra.
Qed.

End SubScoreFacts.

Module ScoreBatch.
Import Models Scoring ScoringFacts SubScoreFacts.
Open Scope R_scope.

Lemma same_but_score_fields (p' p : Place) :
  same_but_score p' p ->
  row_id p' = row_id p /\ latitude p' = latitude p /\
  longitude p' = longitude p.
Proof.
  unfold same_but_score. intros H.
  split; [exact (f_equal row_id H)|].
  split; [exact (f_equal latitude H)|exact (f_equal longitude H)].
Qed.

Lemma same_but_score_refl (p : Place) : same_but_score p p.
Proof. reflexivity. Qed.

Lemma same_but_score_set (p' p : Place) (score : option Q) :
  same_but_score p' p -> same_but_score (set_location_score p' score) p.
Proof. unfold same_but_score. intros <-. reflexivity. Qed.

Lemma Forall2_same_refl (places : list Place) :
  Forall2 same_but_score places places.
Proof.
  induction places; constructor; [apply same_but_score_refl|assumption].
Qed.

(** The query of [_competition_score] does not read the scores. *)
Lemma nearby_same (table table0 : list Place) id lat lng dlat dlng :
  Forall2 same_but_score table table0 ->
  List.length (nearby table id lat lng dlat dlng)
  = List.length (nearby table0 id lat lng dlat dlng).
Proof.
  induction 1 as [|p' p table table0 S _ IH]; [reflexivity|].
  unfold nearby in *. cbn [filter].
  destruct (same_but_score_fields _ _ S) as (-> & -> & ->).
  destruct (_ && _ && _); cbn [List.length]; rewrite IH; reflexivity.
Qed.

Lemma score_of_same now (table table0 : list Place) (place : Place) :
  Forall2 same_but_score table table0 ->
  score_of now table place = score_of now table0 place.
Proof.
  intros S. unfold score_of. cbv zeta.
  assert (E : _competition_score table place 2.0
              = _competition_score table0 place 2.0).
  { unfold _competition_score.
    destruct (latitude place), (longitude place); try reflexivity.
    cbv zeta. rewrite (nearby_same _ _ _ _ _ _ _ S). reflexivity. }
  rewrite E. reflexivity.
Qed.

(** The table [places] after one place was scored. *)
Lemma score_place_table now db place :
  places_table (snd (score_place now db place))
  = map (fun p => if (row_id p =? row_id place)%Z
                  then set_location_score p
                         (Some (composite_Q
                                  (score_of now (places_table db) place)))
                  else p)
        (places_table db).
Proof. reflexivity. Qed.

Lemma score_place_same now db place table0 :
  Forall2 same_but_score (places_table db) table0 ->
  Forall2 same_but_score (places_table (snd (score_place now db place))) table0.
Proof.
  rewrite score_place_table.
  generalize (Some (composite_Q (score_of now (places_table db) place))).
  intros c.
  induction 1 as [|p' p table table0' S _ IH]; cbn [map]; constructor.
  - destruct (row_id p' =? row_id place)%Z;
      [apply same_but_score_set|]; exact S.
  - exact IH.
Qed.

(** The table [location_scores] after one place was scored: the row of
    the place is the new one, the other rows stay, and no place gets a
    second row. *)
Lemma score_place_scores now db place :
  let s := score_of now (places_table db) place in
  let scores' := location_scores (snd (score_place now db place)) in
  fst (score_place now db place) = s /\
  In s scores' /\
  (forall r, In r (location_scores db) -> score_place_id r <> row_id place ->
             In r scores') /\
  (forall r, In r scores' -> r = s \/ In r (location_scores db)) /\
  (NoDup (map score_place_id (location_scores db)) ->
   NoDup (map score_place_id scores')).
Proof.
  cbv zeta. unfold score_place. cbn [fst snd location_scores].
  set (s := score_of now (places_table db) place).
  assert (I : score_place_id s = row_id place) by reflexivity.
  split; [reflexivity|].
  destruct (existsb _ (location_scores db)) eqn:E.
  - split; [|split; [|split]].
    + apply existsb_exists in E as (r & Ir & R).
      apply in_map_iff. exists r. rewrite R. split; [reflexivity|exact Ir].
    + intros r Ir N. apply Z.eqb_neq in N.
      apply in_map_iff. exists r. rewrite N. split; [reflexivity|exact Ir].
    + intros r Ir. apply in_map_iff in Ir as (r0 & K & I0).
      destruct (score_place_id r0 =? row_id place)%Z;
        [left; congruence|right; congruence].
    + intros N.
      replace (map score_place_id
                   (map (fun r => if (score_place_id r =? row_id place)%Z
                                  then s else r) (location_scores db)))
        with (map score_place_id (location_scores db)); [exact N|].
      rewrite map_map. apply map_ext. intros r.
      destruct (score_place_id r =? row_id place)%Z eqn:R; [|reflexivity].
      apply Z.eqb_eq in R. congruence.
  - split; [apply in_app_iff; right; left; reflexivity|].
    split; [intros r Ir _; apply in_app_iff; left; exact Ir|].
    split.
    + intros r Ir. apply in_app_iff in Ir as [Ir|[<-|[]]]; [right|left];
        [exact Ir|reflexivity].
    + intros N. rewrite map_app. cbn [map].
      apply NoDup_app; [exact N|repeat constructor; intros []|].
      intros k Ik [<-|[]]. apply in_map_iff in Ik as (r & K & Ir).
      assert (X : existsb (fun r => (score_place_id r =? row_id place)%Z)
                          (location_scores db) = true).
      { apply existsb_exists. exists r. split; [exact Ir|].
        apply Z.eqb_eq. congruence. }
      congruence.
Qed.

(** The loop of [score_places] over places with different ids, on a
    table that differs from [table0] in scores only. *)
Lemma score_places_spec now table0 places db :
  Forall2 same_but_score (places_table db) table0 ->
  NoDup (map row_id places) ->
  let (scores, db') := score_places now db places in
  scores = map (score_of now table0) places /\
  places_table db'
  = map (fun r =>
           match find (fun p => (row_id r =? row_id p)%Z) places with
           | Some p =>
               set_location_score r
                 (Some (composite_Q (score_of now table0 p)))
           | None => r
           end)
        (places_table db) /\
  (forall p, In p places -> In (score_of now table0 p) (location_scores db')) /\
  (forall r, In r (location_scores db) ->
     ~ In (score_place_id r) (map row_id places) ->
     In r (location_scores db')) /\
  (forall r, In r (location_scores db') ->
     In r (location_scores db) \/
     exists p, In p places /\ r = score_of now table0 p) /\
  (NoDup (map score_place_id (location_scores db)) ->
   NoDup (map score_place_id (location_scores db'))).
Proof.
  revert db. induction places as [|place places IH]; intros db S N.
  - cbn [score_places map find].
    split; [reflexivity|]. split; [symmetry; apply map_id|].
    split; [intros p []|]. split; [intros r I _; exact I|].
    split; [intros r I; left; exact I|intros D; exact D].
  - cbn [score_places].
    pose proof (score_place_table now db place) as T1.
    pose proof (score_place_same now db place table0 S) as S1.
    destruct (score_place_scores now db place) as (F1 & I1 & K1 & O1 & D1).
    rewrite (score_of_same now _ _ place S) in T1, F1, I1, O1.
    destruct (score_place now db place) as [score db1].
    cbn [fst snd] in *. subst score.
    inversion N as [|x l Fresh N']; subst x l.
    specialize (IH db1 S1 N').
    destruct (score_places now db1 places) as [scores db2].
    destruct IH as (E2 & T2 & I2 & K2 & O2 & D2).
    split; [cbn [map]; rewrite E2; reflexivity|].
    split; [|split; [|split; [|split]]].
    + rewrite T2, T1, map_map. apply map_ext. intros r. cbn [find].
      destruct (row_id r =? row_id place)%Z eqn:R.
      * apply Z.eqb_eq in R.
        destruct (find _ places) as [p|] eqn:Fd; [|reflexivity].
        exfalso. apply find_some in Fd as [Ip Ep].
        cbn [set_location_score row_id] in Ep. apply Z.eqb_eq in Ep.
        apply Fresh. apply in_map_iff. exists p. split; [congruence|exact Ip].
      * reflexivity.
    + intros p [<-|Ip]; [|exact (I2 p Ip)].
      apply K2; [exact I1|].
      intros X. apply Fresh. exact X.
    + intros r Ir Nr. apply K2.
      * apply K1; [exact Ir|]. intros X. apply Nr. left. congruence.
      * intros X. apply Nr. right. exact X.
    + intros r Ir. apply O2 in Ir as [Ir|(p & Ip & ->)].
      * apply O1 in Ir as [->|Ir]; [|left; exact Ir].
        right. exists place. split; [left|]; reflexivity.
      * right. exists p. split; [right; exact Ip|reflexivity].
    + intros D. apply D2, D1, D.
Qed.

Lemma NoDup_map_inj {A B : Type} (f : A -> B) (l : list A) (a b : A) :
  NoDup (map f l) -> In a l -> In b l -> f a = f b -> a = b.
Proof.
  induction l as [|x l IH]; intros N Ia Ib E; [destruct Ia|].
  cbn [map] in N. inversion N as [|y m Fresh N']; subst y m.
  destruct Ia as [->|Ia], Ib as [->|Ib].
  - reflexivity.
  - exfalso. apply Fresh. rewrite E. apply in_map, Ib.
  - exfalso. apply Fresh. rewrite <- E. apply in_map, Ia.
  - apply IH; assumption.
Qed.

Lemma NoDup_map_filter {A B : Type} (f : A -> B) (t : A -> bool) (l : list A) :
  NoDup (map f l) -> NoDup (map f (filter t l)).
Proof.
  induction l as [|x l IH]; intros N; [constructor|].
  cbn [map] in N. inversion N as [|y m Fresh N']; subst y m.
  cbn [filter]. destruct (t x); [|apply IH, N'].
  cbn [map]. constructor; [|apply IH, N'].
  intros I. apply Fresh. apply in_map_iff in I as (a & E & Ia).
  apply filter_In in Ia as [Ia _]. apply in_map_iff. exists a. tauto.
Qed.

Lemma Q2R_inject_Z (z : Z) : Q2R (inject_Z z) = IZR z.
Proof. unfold Q2R, inject_Z. simpl. lra. Qed.

(** The rational stored is the rounded number. *)
Lemma round_Q_spec (x : R) (n : nat) : Q2R (round_Q x n) = round x n.
Proof.
  unfold round_Q, round.
  assert (P : (0 < 10 ^ Z.of_nat n)%Z) by (apply Z.pow_pos_nonneg; lia).
  rewrite Q2R_div.
  - rewrite !Q2R_inject_Z. rewrite <- pow_IZR. reflexivity.
  - intros E. apply Qeq_eqR in E. rewrite Q2R_inject_Z in E.
    change (Q2R 0) with (Q2R (inject_Z 0)) in E. rewrite Q2R_inject_Z in E.
    apply eq_IZR in E. lia.
Qed.

Lemma scored_rows_are_scored now (table rows : list Place) :
  unscored (map (scored_row now table) rows) = [].
Proof.
  unfold unscored. induction rows as [|r l IH]; [reflexivity|].
  cbn [map filter]. unfold scored_row at 1.
  destruct (Num.is_some (location_score r)) eqn:Sc.
  - rewrite Sc. cbn [negb]. exact IH.
  - cbn [set_location_score location_score Num.is_some negb]. exact IH.
Qed.

(** X26.  [score_all_unscored] scores the places without a score, and only
    them.  It returns their number.  Afterwards every row of [places] has
    a score: a row that had one is untouched, and a row that had none
    holds the composite score of its score row.  That score row is in
    [location_scores]; it is the one computed from the place and the
    table as it was before the call, in whatever order the places are
    scored.  The score rows of the other places stay, and no place has
    two score rows. *)
Theorem score_all_unscored_spec (now : Z) (db : ScoreDb) :
  NoDup (map row_id (places_table db)) ->
  NoDup (map score_place_id (location_scores db)) ->
  let (n, db') := score_all_unscored now db in
  n = Z.of_nat (List.length (unscored (places_table db))) /\
  places_table db' = map (scored_row now (places_table db)) (places_table db) /\
  unscored (places_table db') = [] /\
  (forall p, Q2R (composite_Q (score_of now (places_table db) p))
             = composite_score (score_of now (places_table db) p)) /\
  (forall p, In p (places_table db) -> location_score p = None ->
     In (score_of now (places_table db) p) (location_scores db')) /\
  (forall r, In r (location_scores db) ->
     (forall p, In p (places_table db) -> row_id p = score_place_id r ->
                location_score p <> None) ->
     In r (location_scores db')) /\
  NoDup (map score_place_id (location_scores db')).
Proof.
  intros N D. unfold score_all_unscored.
  pose proof (score_places_spec now (places_table db)
                (unscored (places_table db)) db
                (Forall2_same_refl _) (NoDup_map_filter _ _ _ N)) as H.
  destruct (score_places now db (unscored (places_table db)))
    as [scores db'].
  cbn [snd]. destruct H as (_ & T & I & K & _ & D').
  assert (T' : places_table db'
               = map (scored_row now (places_table db)) (places_table db)).
  { rewrite T. apply map_ext_in. intros r Ir. unfold scored_row.
    destruct (find _ (unscored (places_table db))) as [p|] eqn:Fd.
    - apply find_some in Fd as [Ip Ep]. apply Z.eqb_eq in Ep.
      unfold unscored in Ip. apply filter_In in Ip as [Ip Up].
      assert (p = r) by (apply (NoDup_map_inj row_id (places_table db));
                         [exact N|exact Ip|exact Ir|congruence]).
      subst p. apply negb_true_iff in Up. rewrite Up. reflexivity.
    - destruct (Num.is_some (location_score r)) eqn:Sc; [reflexivity|].
      exfalso.
      assert (Iu : In r (unscored (places_table db))).
      { unfold unscored. apply filter_In. split; [exact Ir|].
        rewrite Sc. reflexivity. }
      pose proof (find_none _ _ Fd r Iu) as X. cbv beta in X.
      rewrite Z.eqb_refl in X. discriminate. }
  split; [reflexivity|]. split; [exact T'|].
  split; [|split; [|split; [|split]]].
  - rewrite T'. apply scored_rows_are_scored.
  - intros p. apply round_Q_spec.
  - intros p Ip Np. apply I. unfold unscored. apply filter_In.
    split; [exact Ip|]. rewrite Np. reflexivity.
  - intros r Ir Hr. apply K; [exact Ir|].
    intros X. apply in_map_iff in X as (p & E & Ip).
    unfold unscored in Ip. apply filter_In in Ip as [Ip Up].
    apply (Hr p Ip E). destruct (location_score p); [discriminate|reflexivity].
  - apply D', D.
Qed.

Lemma score_all_unscored_spec_witness :
  fst (score_all_unscored 2000 marina_db) = 1%Z /\
  unscored (places_table (snd (score_all_unscored 2000 marina_db))) = [].
Proof.
  assert (N : NoDup (map row_id (places_table marina_db)))
    by (repeat constructor; intros []).
  assert (D : NoDup (map score_place_id (location_scores marina_db)))
    by constructor.
  pose proof (score_all_unscored_spec 2000 marina_db N D) as H.
  destruct (score_all_unscored 2000 marina_db) as [n db'].
  destruct H as (E & _ & U & _). split; [exact E|exact U].
Defined.

End ScoreBatch.

Module RecordFacts.
Import Models Tenacity TenacityFacts Enrichment SaveFacts CrawlFacts.

Lemma substring_length (n m : nat) (s : string) :
  (String.length (substring n m s) <= m)%nat.
Proof.
  revert n m. induction s as [|c s IH]; intros n m.
  - destruct n, m; simpl; lia.
  - destruct n as [|n].
    + destruct m as [|m]; simpl; [lia|].
      specialize (IH 0%nat m). lia.
    + simpl. apply IH.
Qed.

(** The record of the place after [_save_enrichment] is the one given. *)
Lemma save_enrichment_record db place_db_id data emails r :
  In r (enrichments (pending (_save_enrichment db place_db_id data emails))) ->
  enrichment_place_id r = place_db_id ->
  r = row_of place_db_id data.
Proof.
  unfold _save_enrichment. cbv zeta. cbn [pending enrichments].
  intros I E. apply Z.eqb_eq in E.
  destruct (existsb _ (enrichments (pending db))) eqn:X.
  - apply in_map_iff in I as (r0 & K & I0).
    destruct (enrichment_place_id r0 =? place_db_id)%Z eqn:R0;
      [congruence|]. subst r0. congruence.
  - apply in_app_iff in I as [I|[<-|[]]]; [|reflexivity].
    assert (Y : existsb (fun r => (enrichment_place_id r =? place_db_id)%Z)
                        (enrichments (pending db)) = true).
    { apply existsb_exists. exists r. split; [exact I|exact E]. }
    congruence.
Qed.



End RecordFacts.
